(** * chicago-web: zone sampler, synthetic incident generators, hotspot
      aggregator, storage step, user registry and administrator's panel

    Shallow embedding of [data.py], [viz.py], [db_postgres.py],
    [auth.py] and [main.py].

    Python floats are IEEE-754 binary64 numbers: they are modelled by
    [spec_float] with [prec = 53] and [emax = 1024], so every arithmetic
    operation rounds exactly as the interpreter does.  Exceptions are
    values of [exn]; code that reads the [random] module or the clock
    runs in a state-and-error monad over [world]. *)

From Stdlib Require Import ZArith List Bool Lia String Ascii.
From Stdlib Require Import Floats.SpecFloat.
From stdpp Require Import base option list gmap strings.

Open Scope string_scope.
Open Scope Z_scope.

(** ** Python runtime *)

Module Py.

Inductive exn : Type :=
| ZeroDivisionError
| UnboundLocalError
| ValueError
| IndexError
| OverflowError
| KeyError
| DatabaseError.   (** [sqlite3.Error], [psycopg2.Error] *)

(** A computation over a state [S] that may raise: the state survives
    the exception, as it does in Python (a [try] block resumes in the
    state the exception left behind). *)
Definition M (S A : Type) : Type := S -> (exn + A) * S.

Definition ret {S A} (a : A) : M S A := fun s => (inr a, s).
Definition raise {S A} (e : exn) : M S A := fun s => (inl e, s).
Definition bind {S A B} (m : M S A) (k : A -> M S B) : M S B :=
  fun s => match m s with
           | (inl e, s') => (inl e, s')
           | (inr a, s') => k a s'
           end.

(** Pure code that may raise. *)
Definition result (A : Type) : Type := (exn + A)%type.
Definition lift {S A} (r : result A) : M S A := fun s => (r, s).
Definition rbind {A B} (r : result A) (k : A -> result B) : result B :=
  match r with inl e => inl e | inr a => k a end.

(** *** Floats *)

Definition prec : Z := 53.
Definition emax : Z := 1024.
Definition float : Type := spec_float.

Definition is_float (x : float) : Prop := valid_binary prec emax x = true.

Definition is_zero (x : float) : bool :=
  match x with S754_zero _ => true | _ => false end.
Definition is_nan (x : float) : bool :=
  match x with S754_nan => true | _ => false end.

Definition fadd : float -> float -> float := SFadd prec emax.
Definition fsub : float -> float -> float := SFsub prec emax.
Definition fmul : float -> float -> float := SFmul prec emax.
(** [x / y] raises [ZeroDivisionError] when [y] is [0.0] or [-0.0]. *)
Definition fdiv (x y : float) : result float :=
  if is_zero y then inl ZeroDivisionError else inr (SFdiv prec emax x y).

Definition feq : float -> float -> bool := SFeqb.
Definition fne (x y : float) : bool := negb (SFeqb x y).
Definition flt : float -> float -> bool := SFltb.
Definition fle : float -> float -> bool := SFleb.
Definition fgt (x y : float) : bool := SFltb y x.

(** [float(z)] for an integer [z], rounded to nearest even. *)
Definition float_of_Z (z : Z) : float := binary_normalize prec emax z 0 false.
(** The float nearest to the decimal [n / 10^k], as a literal [n.e-k]
    of the source denotes. *)
Definition decimal (n : Z) (k : nat) : float :=
  SFdiv prec emax (float_of_Z n) (float_of_Z (10 ^ Z.of_nat k)).

(** [min(a, b)] and [max(a, b)]: the first argument is kept unless
    the second compares strictly below (above) it. *)
Definition py_min (a b : float) : float := if flt b a then b else a.
Definition py_max (a b : float) : float := if fgt b a then b else a.

(** [min(l)] and [max(l)] over a list; [ValueError] on the empty one. *)
Definition min_list (l : list float) : result float :=
  match l with
  | [] => inl ValueError
  | x :: r => inr (fold_left py_min r x)
  end.
Definition max_list (l : list float) : result float :=
  match l with
  | [] => inl ValueError
  | x :: r => inr (fold_left py_max r x)
  end.

(** [sum(l)]: the floats added left to right, starting from the integer
    [0].  (CPython 3.12 and later carry a compensation term for the
    rounding errors of the partial sums; it is not modelled.) *)
Definition sum (l : list float) : float := fold_left fadd l (float_of_Z 0).

(** *** The world: the [random] module's generator and the clocks *)

Record world : Type := World {
  draws : nat -> N;      (** raw outputs of the generator, in order *)
  cursor : nat;          (** how many have been consumed *)
  utc : nat -> Z;        (** successive readings of [datetime.utcnow()],
                             in microseconds since 0001-01-01T00:00:00 *)
  utc_cursor : nat;
  millis : nat -> Z;     (** successive values of [int(time.time()*1000)] *)
  millis_cursor : nat
}.

Definition next_raw : M world N := fun w =>
  (inr (draws w (cursor w)),
   World (draws w) (S (cursor w)) (utc w) (utc_cursor w)
         (millis w) (millis_cursor w)).

(** [random.random()]: [k / 2^53] for a 53-bit integer [k]. *)
Definition random_random : M world float :=
  bind next_raw (fun k =>
  ret (binary_normalize prec emax (Z.of_N k mod 2 ^ 53) (-53) false)).

(** [random.uniform(a, b)] is [a + (b - a) * random()]. *)
Definition random_uniform (a b : float) : M world float :=
  bind random_random (fun r => ret (fadd a (fmul (fsub b a) r))).

(** [random.randint(a, b)]: [ValueError] on an empty range. *)
Definition random_randint (a b : Z) : M world Z :=
  if b <? a then raise ValueError
  else bind next_raw (fun k => ret (a + Z.of_N k mod (b - a + 1))).

(** [random.choice(seq)]: [IndexError] on an empty sequence. *)
Definition random_choice {A} (l : list A) : M world A :=
  match l with
  | [] => raise IndexError
  | x :: _ =>
      bind next_raw (fun k =>
      ret (nth (N.to_nat (k mod N.of_nat (length l))) l x))
  end.

Definition datetime_utcnow : M world Z := fun w =>
  (inr (utc w (utc_cursor w)),
   World (draws w) (cursor w) (utc w) (S (utc_cursor w))
         (millis w) (millis_cursor w)).

Definition time_millis : M world Z := fun w =>
  (inr (millis w (millis_cursor w)),
   World (draws w) (cursor w) (utc w) (utc_cursor w)
         (millis w) (S (millis_cursor w))).

(** [try: m except Exception: pass] *)
Definition try_pass {S} (m : M S unit) : M S unit :=
  fun s => match m s with
           | (inl _, s') => (inr tt, s')
           | (inr _, s') => (inr tt, s')
           end.

(** *** Datetimes and timedeltas, in microseconds *)

Definition us_per_second : Z := 1000000.
Definition us_per_minute : Z := 60 * us_per_second.
Definition us_per_hour : Z := 60 * us_per_minute.
Definition us_per_day : Z := 24 * us_per_hour.

(** [datetime.max] is 9999-12-31T23:59:59.999999, the last microsecond
    of proleptic-Gregorian day 3652059. *)
Definition datetime_max : Z := 3652059 * us_per_day - 1.
Definition is_datetime (t : Z) : Prop := 0 <= t <= datetime_max.

Definition timedelta (days hours minutes seconds : Z) : Z :=
  days * us_per_day + hours * us_per_hour + minutes * us_per_minute
  + seconds * us_per_second.

(** [t - delta]: [OverflowError] when the result is not a date. *)
Definition datetime_sub (t delta : Z) : result Z :=
  let t' := t - delta in
  if (0 <=? t') && (t' <=? datetime_max) then inr t'
  else inl OverflowError.

(** [t.year], by the day-count arithmetic of the proleptic Gregorian
    calendar (cycles of 400, 100, 4 and 1 years). *)
Definition datetime_year (t : Z) : Z :=
  let n := t / us_per_day in
  let n400 := n / 146097 in
  let n := n mod 146097 in
  let n100 := n / 36524 in
  let n := n mod 36524 in
  let n4 := n / 1461 in
  let n := n mod 1461 in
  let n1 := n / 365 in
  let year := n400 * 400 + 1 + n100 * 100 + n4 * 4 + n1 in
  if (n1 =? 4) || (n100 =? 4) then year - 1 else year.

(** *** Values held by the fields of a record *)

(** The parts of an f-string: literal text, [{z}], [{z:0wd}] and the
    [repr] of a float. *)
Inductive piece : Type :=
| Lit (s : string)
| Dec (z : Z)
| DecPad (w : nat) (z : Z)
| Repr (x : float).

Inductive value : Type :=
| VNone
| VBool (b : bool)
| VInt (z : Z)
| VFloat (x : float)
| VStr (s : string)
| VFmt (ps : list piece)   (** an f-string *)
| VIso (t : Z)             (** the [isoformat()] text of datetime [t] *)
| VDatetime (t : Z).       (** a datetime or pandas Timestamp *)

(** A Python [dict] with string keys. *)
Abbreviation record := (gmap string value).

End Py.

Import Py.

Declare Scope py_scope.
Delimit Scope py_scope with py.
Notation "'letM' x ':=' m 'in' k" := (bind m (fun x => k))
  (at level 10, x name, m at level 100, k at level 200) : py_scope.
Notation "'letR' x ':=' m 'in' k" := (rbind m (fun x => k))
  (at level 10, x name, m at level 100, k at level 200) : py_scope.
Open Scope py_scope.

(** ** data.py *)

Module Data.

Definition point : Type := (float * float)%type.

(** One iteration of the loop of [_point_in_polygon] on the edge from
    [p1] to [p2].  [xinters] is the local variable of that name:
    [None] while it is unassigned. *)
Definition edge_step (lat lon : float) (p1 p2 : point)
    (inside : bool) (xinters : option float)
  : result (bool * option float) :=
  let '(p1_lat, p1_lon) := p1 in
  let '(p2_lat, p2_lon) := p2 in
  if fgt lon (py_min p1_lon p2_lon) then
    if fle lon (py_max p1_lon p2_lon) then
      if fle lat (py_max p1_lat p2_lat) then
        letR xinters' :=
          (if fne p1_lon p2_lon then
             letR q := fdiv (fmul (fsub lon p1_lon) (fsub p2_lat p1_lat))
                            (fsub p2_lon p1_lon) in
             inr (Some (fadd q p1_lat))
           else inr xinters) in
        letR toggle :=
          (if feq p1_lat p2_lat then inr true
           else match xinters' with
                | None => inl UnboundLocalError
                | Some x => inr (fle lat x)
                end) in
        inr (if toggle then negb inside else inside, xinters')
      else inr (inside, xinters)
    else inr (inside, xinters)
  else inr (inside, xinters).

(** The body of [for i in range(1, n + 1)], over the indices still to
    visit; the loop state is [(inside, xinters, p1)]. *)
Fixpoint pip_loop (lat lon : float) (polygon : list point) (idxs : list nat)
    (inside : bool) (xinters : option float) (p1 : point) : result bool :=
  match idxs with
  | [] => inr inside
  | i :: idxs' =>
      match polygon !! (i mod length polygon)%nat with
      | None => inl IndexError
      | Some p2 =>
          letR st := edge_step lat lon p1 p2 inside xinters in
          pip_loop lat lon polygon idxs' (fst st) (snd st) p2
      end
  end.

Definition _point_in_polygon (pt : point) (polygon : list point)
  : result bool :=
  let '(lat, lon) := pt in
  let n := length polygon in
  match polygon !! 0%nat with
  | None => inl IndexError
  | Some p1 => pip_loop lat lon polygon (seq 1 n) false None p1
  end.

(** The [for _ in range(100)] loop of [_generate_point_in_bounds] with
    [k] rounds left: [Some p] when it returns [p] from inside the
    loop, [None] when it runs out. *)
Fixpoint retry_loop (k : nat) (min_lat max_lat min_lon max_lon : float)
    (bounds : list point) : M world (option point) :=
  match k with
  | O => ret None
  | S k' =>
      letM lat := random_uniform min_lat max_lat in
      letM lon := random_uniform min_lon max_lon in
      letM hit := lift (_point_in_polygon (lat, lon) bounds) in
      if hit : bool then ret (Some (lat, lon))
      else retry_loop k' min_lat max_lat min_lon max_lon bounds
  end.

(** [sum(l) / len(l)] *)
Definition mean (l : list float) : result float :=
  fdiv (sum l) (float_of_Z (Z.of_nat (length l))).

Definition _generate_point_in_bounds (bounds : list point)
  : M world point :=
  let lats := map fst bounds in
  let lons := map snd bounds in
  letM min_lat := lift (min_list lats) in
  letM max_lat := lift (max_list lats) in
  letM min_lon := lift (min_list lons) in
  letM max_lon := lift (max_list lons) in
  letM found := retry_loop 100 min_lat max_lat min_lon max_lon bounds in
  match found with
  | Some p => ret p
  | None =>
      letM c_lat := lift (mean lats) in
      letM c_lon := lift (mean lons) in
      ret (c_lat, c_lon)
  end.

Definition SCHEMA_COLUMNS : list string :=
  [ "id"; "case_number"; "date"; "block"; "iucr"; "primary_type";
    "description"; "location_description"; "arrest"; "domestic"; "beat";
    "district"; "ward"; "community_area"; "fbi_code"; "year"; "updated_on";
    "x_coordinate"; "y_coordinate"; "latitude"; "longitude"; "location" ].

Definition CRIME_TYPES_AREQUIPA : list (string * list string) :=
  [ ("ROBO", ["Robo con violencia"; "Robo de vehículo"; "Robo a transeúnte"]);
    ("ASALTO", ["Asalto y lesiones"; "Agresión física"; "Riña callejera"]);
    ("HURTO", ["Hurto simple"; "Hurto de celular"; "Carterismo"]);
    ("VANDALISMO", ["Daño a propiedad"; "Grafiti"; "Destrucción de bienes"]);
    ("VIOLENCIA FAMILIAR", ["Violencia doméstica"; "Maltrato familiar"]);
    ("ESTAFA", ["Fraude"; "Estafa telefónica"; "Clonación de tarjetas"]) ].

Definition LOCATIONS_AREQUIPA : list string :=
  [ "CALLE"; "AVENIDA"; "PARQUE"; "PLAZA"; "TIENDA"; "RESTAURANTE";
    "RESIDENCIA"; "BANCO"; "MERCADO"; "TRANSPORTE PÚBLICO";
    "ESTACIONAMIENTO" ].

(** [d.get(key, default)] on a dict written as its item list. *)
Fixpoint dict_get {A} (d : list (string * A)) (key : string) (default : A)
  : A :=
  match d with
  | [] => default
  | (k, v) :: d' => if String.eqb k key then v else dict_get d' key default
  end.

(** A frame is the list of its rows, each a dict from column to value. *)
Definition dataframe : Type := list record.

(** [pd.to_datetime(col, errors='coerce')], cell by cell, on the
    columns the generators fill: the [isoformat()] texts of datetimes
    that share their microseconds, hence one format for the whole
    column, or datetimes.  A cell that is neither becomes [NaT],
    written [VNone].  (pandas reads the format off the first text of a
    column; texts in another format are not modelled.) *)
Definition to_datetime (v : value) : value :=
  match v with
  | VIso t => VDatetime t
  | VDatetime t => VDatetime t
  | _ => VNone
  end.

(** [pd.to_numeric(col, errors='coerce')], cell by cell, on the
    coordinate columns the generators fill: floats, or [None] in every
    row.  A float stays, a missing entry is [NaN].  The other cases
    are an approximation that nothing below relies on: pandas also
    parses text that reads as a number, and keeps a column of integers
    only as integers. *)
Definition to_numeric (v : value) : value :=
  match v with
  | VFloat x => VFloat x
  | VInt z => VFloat (float_of_Z z)
  | VBool b => VFloat (float_of_Z (if b then 1 else 0))
  | _ => VFloat S754_nan
  end.

(** The frame row made from one record: every schema column, the
    missing ones as [None], the conversions of [_records_to_dataframe]
    applied column by column. *)
Definition frame_row (r : record) : record :=
  let cell (c : string) : value :=
    let v := default VNone (r !! c) in
    if String.eqb c "date" || String.eqb c "updated_on" then to_datetime v
    else if String.eqb c "latitude" || String.eqb c "longitude"
         then to_numeric v
    else v in
  list_to_map (map (fun c => (c, cell c)) SCHEMA_COLUMNS).

Definition _records_to_dataframe (records : list record) : dataframe :=
  match records with
  | [] => []
  | _ => map frame_row records
  end.

(** The body of [for i in range(n)] in
    [generate_random_records_in_zone], for one [i]. *)
Definition generate_row (now : Z) (zone_bounds : list point)
    (crime_types : list string) (days_back : Z) (i : Z) : M world record :=
  letM pt := _generate_point_in_bounds zone_bounds in
  let lat := fst pt in
  let lon := snd pt in
  letM primary := random_choice crime_types in
  letM description :=
    random_choice (dict_get CRIME_TYPES_AREQUIPA primary ["Incidente"]) in
  letM days_ago := random_randint 0 days_back in
  letM hours_ago := random_randint 0 23 in
  letM minutes_ago := random_randint 0 59 in
  letM record_date :=
    lift (datetime_sub now (timedelta days_ago hours_ago minutes_ago 0)) in
  letM ms := time_millis in
  letM street := random_choice ["AV"; "CALLE"; "JR"] in
  letM number := random_randint 100 999 in
  letM iucr := random_randint 1000 9999 in
  letM place := random_choice LOCATIONS_AREQUIPA in
  letM arrest := random_random in
  letM domestic := random_random in
  letM beat := random_randint 100 999 in
  letM district := random_randint 1 10 in
  letM ward := random_randint 1 29 in
  letM community_area := random_randint 1 77 in
  ret (list_to_map
    [ ("id", VFmt [Lit "ARQ-"; Dec ms; Lit "-"; Dec i]);
      ("case_number",
       VFmt [Lit "AQP"; Dec (datetime_year record_date); DecPad 6 i]);
      ("date", VIso record_date);
      ("block", VFmt [Lit street; Lit " "; Dec number]);
      ("iucr", VFmt [Dec iucr]);
      ("primary_type", VStr primary);
      ("description", VStr description);
      ("location_description", VStr place);
      ("arrest", VBool (flt arrest (decimal 15 2)));
      ("domestic",
       VBool (if String.eqb primary "VIOLENCIA FAMILIAR"
              then flt domestic (decimal 25 2)
              else flt domestic (decimal 5 2)));
      ("beat", VFmt [Dec beat]);
      ("district", VFmt [DecPad 2 district]);
      ("ward", VFmt [Dec ward]);
      ("community_area", VFmt [Dec community_area]);
      ("fbi_code", VNone);
      ("year", VInt (datetime_year record_date));
      ("updated_on", VIso now);
      ("x_coordinate", VNone);
      ("y_coordinate", VNone);
      ("latitude", VFloat lat);
      ("longitude", VFloat lon);
      ("location", VFmt [Lit "("; Repr lat; Lit ", "; Repr lon; Lit ")"])
    ] : record).

(** [for i in range(n): ... rows.append(row)] over the indices left. *)
Fixpoint generate_rows (now : Z) (zone_bounds : list point)
    (crime_types : list string) (days_back : Z) (idxs : list nat)
  : M world (list record) :=
  match idxs with
  | [] => ret []
  | i :: idxs' =>
      letM row :=
        generate_row now zone_bounds crime_types days_back (Z.of_nat i) in
      letM rows :=
        generate_rows now zone_bounds crime_types days_back idxs' in
      ret (row :: rows)
  end.

(** [generate_random_records_in_zone(n, zone_bounds, crime_types,
    days_back)].  The copy kept in the streamlit session when
    [store_in_session] is set does not reach the returned frame and is
    left out. *)
Definition generate_random_records_in_zone (n : Z)
    (zone_bounds : list point) (crime_types : option (list string))
    (days_back : Z) : M world dataframe :=
  letM now := datetime_utcnow in
  let crime_types :=
    match crime_types with
    | None => map fst CRIME_TYPES_AREQUIPA
    | Some l => l
    end in
  letM rows :=
    generate_rows now zone_bounds crime_types days_back
                  (seq 0 (Z.to_nat n)) in
  ret (_records_to_dataframe rows).

End Data.

(** ** viz.py *)

Module Viz.
Import Data.

(** The cell of a float64 column of the frame; a cell that holds no
    number reads as [NaN], the column's missing value. *)
Definition coordinate (r : record) (c : string) : float :=
  match r !! c with
  | Some (VFloat x) => x
  | _ => S754_nan
  end.

Definition latitude (r : record) : float := coordinate r "latitude".
Definition longitude (r : record) : float := coordinate r "longitude".

(** [df.dropna(subset=['latitude', 'longitude'])]: a row is dropped
    when any of the two cells is missing. *)
Definition dropna (df : dataframe) : dataframe :=
  List.filter
    (fun r => negb (is_nan (latitude r)) && negb (is_nan (longitude r))) df.

(** Round to the nearest integer, ties to even. *)
Definition rint (x : float) : float :=
  match x with
  | S754_finite s m e =>
      if 0 <=? e then x
      else
        let mrs := fst (shr (Build_shr_record (Z.pos m) false false) e (- e)) in
        let k := round_nearest_even (shr_m mrs) (loc_of_shr_record mrs) in
        binary_normalize prec emax (cond_Zopp s k) 0 s
  | _ => x
  end.

(** [Series.round(2)]: scale by [10**2], round to an integer, scale
    back. *)
Definition round2 (x : float) : float :=
  SFdiv prec emax (rint (fmul x (float_of_Z 100))) (float_of_Z 100).

Definition key : Type := (float * float)%type.
Definition bucket : Type := (key * Z)%type.

Definition bin (r : record) : key :=
  (round2 (latitude r), round2 (longitude r)).

Definition key_eqb (a b : key) : bool :=
  feq (fst a) (fst b) && feq (snd a) (snd b).
Definition key_ltb (a b : key) : bool :=
  flt (fst a) (fst b) || (feq (fst a) (fst b) && flt (snd a) (snd b)).
Definition key_isna (a : key) : bool := is_nan (fst a) || is_nan (snd a).

(** Count one more row under key [k]. *)
Fixpoint bump (k : key) (g : list bucket) : list bucket :=
  match g with
  | [] => [(k, 1)]
  | (k', c) :: g' =>
      if key_eqb k' k then (k', c + 1) :: g' else (k', c) :: bump k g'
  end.

Fixpoint insert_sorted (b : bucket) (g : list bucket) : list bucket :=
  match g with
  | [] => [b]
  | b' :: g' =>
      if key_ltb (fst b') (fst b) then b' :: insert_sorted b g'
      else b :: g
  end.

(** [groupby(['lat_bin', 'lon_bin']).size().reset_index(name='count')]:
    rows whose key has a [NaN] are left out, groups come sorted by
    key. *)
Definition groupby_size (bins : list key) : list bucket :=
  let counted :=
    fold_left (fun g k => if key_isna k then g else bump k g) bins [] in
  fold_right insert_sorted [] counted.

(** The [hotspots] frame of [show_map_points_and_heat]. *)
Definition hotspots (mdf : dataframe) (heat_threshold : Z) : list bucket :=
  let grouped := groupby_size (map bin mdf) in
  List.filter (fun b => heat_threshold <? snd b) grouped.

(** The frame has a column [c]: every row holds a cell under it.  The
    frame without rows is the one [_records_to_dataframe] builds, with
    the columns of the schema. *)
Definition has_column (df : dataframe) (c : string) : bool :=
  forallb (fun r : record =>
             match r !! c with Some _ => true | None => false end) df.

Definition coordinate_columns (df : dataframe) : bool :=
  has_column df "latitude" && has_column df "longitude".

(** [df.dropna(subset=['latitude', 'longitude'])] as the function
    calls it, outside its [try] blocks: [KeyError] on a frame that
    lacks one of the two columns. *)
Definition dropna_subset (df : dataframe) : result dataframe :=
  if coordinate_columns df then inr (dropna df) else inl KeyError.

(** [show_map_points_and_heat(df, heat_threshold)]: the hotspot
    buckets it puts on the page; none when it returns early on a frame
    without coordinates.  The selection of the rows with coordinates
    runs before the [try] blocks, so its [KeyError] leaves the
    function; the binning runs inside [try ... except Exception] and
    does not raise on float columns. *)
Definition show_map_points_and_heat (df : dataframe) (heat_threshold : Z)
  : result (list bucket) :=
  letR mdf := dropna_subset df in
  match mdf with
  | [] => inr []
  | _ => inr (hotspots mdf heat_threshold)
  end.

(** The reading of "incidents lacking both coordinates" in which a row
    is dropped only when the two cells are missing together. *)
Definition dropna_both_missing (df : dataframe) : dataframe :=
  List.filter
    (fun r => negb (is_nan (latitude r) && is_nan (longitude r))) df.

End Viz.

(** ** db_postgres.py *)

Module Db.
Import Data.

Inductive db_mode : Type := Sqlite | Postgres.

(** The dicts of the batch live in a store; the list handed to
    [insert_crimes] holds references to them. *)
Definition ref : Type := nat.
Record state : Type := State {
  the_world : world;
  heap : gmap ref record
}.

Definition in_world {A} (m : M world A) : M state A :=
  fun s => let '(r, w') := m (the_world s) in (r, State w' (heap s)).

(** [rec[k] = v] *)
Definition setitem (rec : ref) (k : string) (v : value) : M state unit :=
  fun s =>
    (inr tt,
     State (the_world s)
           (alter (fun d : record => <[k := v]> d) rec (heap s))).

Definition _enforce_recent_date (rec : ref) : M state unit :=
  letM now := in_world datetime_utcnow in
  letM extra_minutes := in_world (random_randint 0 59) in
  letM extra_seconds := in_world (random_randint 0 59) in
  letM new_date :=
    lift (datetime_sub now (timedelta 0 1 extra_minutes extra_seconds)) in
  letM _ := setitem rec "date" (VDatetime new_date) in
  letM _ := setitem rec "updated_on" (VDatetime now) in
  setitem rec "year" (VInt (datetime_year new_date)).

(** [for r in records: try: _enforce_recent_date(r) except: pass] *)
Fixpoint enforce_all (records : list ref) : M state unit :=
  match records with
  | [] => ret tt
  | r :: records' =>
      letM _ := try_pass (_enforce_recent_date r) in
      enforce_all records'
  end.

Definition columns : list string :=
  [ "id"; "case_number"; "date"; "block"; "iucr"; "primary_type";
    "description"; "location_description"; "arrest"; "domestic"; "beat";
    "district"; "ward"; "community_area"; "fbi_code"; "year"; "updated_on";
    "latitude"; "longitude"; "location" ].

Definition _normalize_value (v : value) : value :=
  match v with
  | VDatetime t => VIso t
  | VBool b => VInt (if b then 1 else 0)
  | _ => v
  end.

Definition _pg_norm (v : value) : value := v.

(** [rec.get(col)] *)
Definition rec_get (d : record) (col : string) : value :=
  default VNone (d !! col).

(** [insert_crimes(records)]: the parameter tuples of the upsert
    statement it executes, one per record; the records themselves are
    updated in the store. *)
Definition insert_crimes (mode : db_mode) (records : list ref)
  : M state (list (list value)) :=
  match records with
  | [] => ret []
  | _ =>
      letM _ := enforce_all records in
      fun s =>
        let norm := match mode with
                    | Sqlite => _normalize_value
                    | Postgres => _pg_norm
                    end in
        let row (r : ref) :=
          let d := default ∅ (heap s !! r) in
          map (fun col => norm (rec_get d col)) columns in
        (inr (map row records), s)
  end.

(** [records = synth.to_dict(orient='records')]: one fresh dict per
    row of the frame. *)
Definition to_dict_records (df : dataframe) : list ref * gmap ref record :=
  (seq 0 (length df), list_to_map (zip (seq 0 (length df)) df)).

(** The database at the other end: [connect] and the statement go
    through, or one of them raises. *)
Inductive backend : Type := Up | Down.

(** [insert_crimes(records)] against a backend: the tuples that reach
    the table.  An empty batch returns before it connects; otherwise
    the records are stamped first and the connection is opened after,
    so a failure leaves the records stamped and nothing stored. *)
Definition insert_crimes_into (b : backend) (mode : db_mode)
    (records : list ref) : M state (list (list value)) :=
  match records with
  | [] => ret []
  | _ =>
      letM sent := insert_crimes mode records in
      match b with
      | Up => ret sent
      | Down => raise DatabaseError
      end
  end.

End Db.

(** ** data.py: the original generator and the session *)

Module Session.
Import Data.

(** The body of [for i in range(n)] in [generate_random_records], for
    one [i].  The literal [-0.01] is the negation of [0.01]; both round
    to the floats nearest to the decimals. *)
Definition generate_random_row (now : Z) (base_lat base_lon : option float)
    (i : Z) : M world record :=
  letM coords :=
    match base_lat, base_lon with
    | Some base_lat, Some base_lon =>
        letM u := random_uniform (decimal (-1) 2) (decimal 1 2) in
        letM v := random_uniform (decimal (-1) 2) (decimal 1 2) in
        ret (VFloat (fadd base_lat u), VFloat (fadd base_lon v))
    | _, _ => ret (VNone, VNone)
    end in
  letM ms := time_millis in
  letM primary :=
    random_choice
      ["THEFT"; "BATTERY"; "ROBBERY"; "CRIMINAL DAMAGE"; "ASSAULT"] in
  letM arrest := random_choice [true; false] in
  letM domestic := random_choice [true; false] in
  ret (list_to_map
    [ ("id", VFmt [Lit "fake-"; Dec ms; Lit "-"; Dec i]);
      ("case_number", VFmt [Lit "FAKE"; DecPad 6 i]);
      ("date", VIso now);
      ("block", VStr "UNKNOWN");
      ("iucr", VStr "0000");
      ("primary_type", VStr primary);
      ("description", VStr "Synthetic record for testing");
      ("location_description", VStr "RESIDENCE");
      ("arrest", VBool arrest);
      ("domestic", VBool domestic);
      ("beat", VNone);
      ("district", VNone);
      ("ward", VNone);
      ("community_area", VNone);
      ("fbi_code", VNone);
      ("year", VInt (datetime_year now));
      ("updated_on", VIso now);
      ("x_coordinate", VNone);
      ("y_coordinate", VNone);
      ("latitude", fst coords);
      ("longitude", snd coords);
      ("location", VNone)
    ] : record).

Fixpoint generate_random_rows (now : Z) (base_lat base_lon : option float)
    (idxs : list nat) : M world (list record) :=
  match idxs with
  | [] => ret []
  | i :: idxs' =>
      letM row := generate_random_row now base_lat base_lon (Z.of_nat i) in
      letM rows := generate_random_rows now base_lat base_lon idxs' in
      ret (row :: rows)
  end.

Definition generate_random_records (n : Z) (base_lat base_lon : option float)
  : M world dataframe :=
  letM now := datetime_utcnow in
  letM rows :=
    generate_random_rows now base_lat base_lon (seq 0 (Z.to_nat n)) in
  ret (_records_to_dataframe rows).

(** The entries of [st.session_state] that hold frames of records; an
    absent key is [None]. *)
Record session : Type := Session_state {
  _arequipa_records : option dataframe;
  _chicago_last_df : option dataframe
}.

(** [pd.concat([df, existing], ignore_index=True)] puts the rows of
    [df] before those of [existing]; a key that is absent reads as the
    empty frame. *)
Definition add_records_to_session (df : dataframe) (is_arequipa : bool)
    (ss : session) : session :=
  if is_arequipa then
    let existing := default [] (_arequipa_records ss) in
    Session_state (Some (df ++ existing)%list) (_chicago_last_df ss)
  else
    let existing := default [] (_chicago_last_df ss) in
    Session_state (_arequipa_records ss) (Some (df ++ existing)%list).

Definition get_arequipa_records (ss : session) : dataframe :=
  default [] (_arequipa_records ss).

Definition clear_arequipa_records (ss : session) : session :=
  match _arequipa_records ss with
  | Some _ => Session_state None (_chicago_last_df ss)
  | None => ss
  end.

(** [generate_random_records_in_zone] with its [store_in_session]
    argument: the frame is added to the session after it is built. *)
Definition generate_random_records_in_zone (n : Z)
    (zone_bounds : list point) (crime_types : option (list string))
    (days_back : Z) (store_in_session : bool)
  : M (world * session) dataframe :=
  fun s =>
    match Data.generate_random_records_in_zone n zone_bounds crime_types
            days_back (fst s) with
    | (inl e, w') => (inl e, (w', snd s))
    | (inr df, w') =>
        (inr df,
         (w', if store_in_session
              then add_records_to_session df true (snd s)
              else snd s))
    end.

End Session.

(** ** auth.py *)

Module Auth.

(** The values of the JSON objects in [users.json]. *)
Inductive json : Type :=
| JNull
| JBool (b : bool)
| JNum (z : Z)
| JStr (s : string).

(** A user entry is a JSON object; the registry maps user names to
    entries. *)
Abbreviation entry := (gmap string json).
Abbreviation users := (gmap string entry).

(** The file [users.json]: absent, present but not loadable (reading
    or parsing it raises), or holding the JSON text of a registry, an
    object of user objects, as [save_users] writes it.  A file whose
    JSON loads and is of another shape is not among these states: on
    such a file [verify_user] and [is_admin] can raise, and nothing
    below says that they return. *)
Inductive users_file : Type :=
| Missing
| Unreadable
| Stored (u : users).

(** The two session keys of the login. *)
Record session : Type := Session_state {
  ss_is_admin : option bool;
  ss_admin_user : option (option string)
}.

Record state : Type := State {
  users_json : users_file;
  session_state : session
}.

(** [bool(v)] *)
Definition truthy (v : json) : bool :=
  match v with
  | JNull => false
  | JBool b => b
  | JNum z => negb (z =? 0)
  | JStr s => negb (String.eqb s "")
  end.

(** [v == s] for a string [s]; [v] is the result of [dict.get], [None]
    when the key is absent. *)
Definition eq_str (v : option json) (s : string) : bool :=
  match v with
  | Some (JStr t) => String.eqb t s
  | _ => false
  end.

Section Users.

(** [hashlib.sha256(password.encode('utf-8')).hexdigest()] *)
Variable sha256_hex : string -> string.

Definition _hash_password (password : string) : string :=
  sha256_hex password.

Definition save_users (u : users) : M users_file unit :=
  fun _ => (inr tt, Stored u).

Definition default_users : users :=
  {[ "admin" := {[ "password_hash" := JStr (_hash_password "admin123");
                   "is_admin" := JBool true ]} ]}.

Definition load_users : M users_file users :=
  fun f =>
    match f with
    | Missing =>
        (letM _ := save_users default_users in ret default_users) f
    | Unreadable => (inr ∅, f)
    | Stored u => (inr u, f)
    end.

Definition create_user (username password : string) (is_admin : bool)
  : M users_file bool :=
  letM users := load_users in
  match users !! username with
  | Some _ => ret false
  | None =>
      letM _ :=
        save_users
          (<[username := {[ "password_hash" := JStr (_hash_password password);
                            "is_admin" := JBool is_admin ]}]> users) in
      ret true
  end.

Definition verify_user (username password : string) : M users_file bool :=
  letM users := load_users in
  match users !! username with
  | None => ret false
  | Some e => ret (eq_str (e !! "password_hash") (_hash_password password))
  end.

Definition is_admin (username : string) : M users_file bool :=
  letM users := load_users in
  ret (truthy (default (JBool false)
                 (default ∅ (users !! username) !! "is_admin"))).

Definition on_file {A} (m : M users_file A) : M state A :=
  fun s => let '(r, f) := m (users_json s) in (r, State f (session_state s)).

(** [admin_login_ui()], given what the two text inputs hold and
    whether the button was pressed in this run of the script. *)
Definition admin_login_ui (username password : string) (clicked : bool)
  : M state bool :=
  fun s =>
    let ss :=
      match ss_is_admin (session_state s) with
      | None => Session_state (Some false) (ss_admin_user (session_state s))
      | Some _ => session_state s
      end in
    let s := State (users_json s) ss in
    if default false (ss_is_admin ss) then (inr true, s)
    else if clicked then
      (letM verified := on_file (verify_user username password) in
       letM granted :=
         (if verified : bool then on_file (is_admin username)
          else ret false) in
       if granted : bool then
         fun s' =>
           (inr true,
            State (users_json s') (Session_state (Some true) (Some (Some username))))
       else ret false) s
    else (inr false, s).

Definition admin_logout : M state unit :=
  fun s =>
    let ss := session_state s in
    let ss :=
      match ss_is_admin ss with
      | Some _ => Session_state (Some false) (ss_admin_user ss)
      | None => ss
      end in
    let ss :=
      match ss_admin_user ss with
      | Some _ => Session_state (ss_is_admin ss) (Some None)
      | None => ss
      end in
    (inr tt, State (users_json s) ss).

Definition current_admin : M state (option string) :=
  fun s => (inr (default None (ss_admin_user (session_state s))), s).

End Users.

End Auth.

(** ** main.py *)

Module Main.
Import Data Db.

(** The zones of [AREQUIPA_ZONES]: name, bounds and centre. *)
Definition AREQUIPA_ZONES : list (string * (list point * point)) :=
  [ ("Centro Histórico",
     ([ (decimal (-16424240) 6, decimal (-71556179) 6);
        (decimal (-16424528) 6, decimal (-71556496) 6);
        (decimal (-16423735) 6, decimal (-71557225) 6);
        (decimal (-16423735) 6, decimal (-71557225) 6) ],
      (decimal (-16424060) 6, decimal (-71556775) 6)));
    ("Yanahuara",
     ([ (decimal (-16390) 3, decimal (-71545) 3);
        (decimal (-16395) 3, decimal (-71550) 3);
        (decimal (-16400) 3, decimal (-71545) 3);
        (decimal (-16395) 3, decimal (-71540) 3) ],
      (decimal (-16395) 3, decimal (-71545) 3))) ].

(** What the sidebar shows after the button: [st.sidebar.success] with
    the number of records, or [st.sidebar.error]. *)
Inductive notice : Type :=
| Success (count : nat)
| Error (e : exn).

(** The branch of [admin_panel] taken when the button that generates
    data in a zone is pressed, against a database [b]: the notice shown
    and the tuples stored. *)
Definition generate_in_zone (b : backend) (mode : db_mode) (inject_count : Z)
    (zone_bounds : list point) (crime_types : list string)
    (s : world * Session.session)
  : (notice * list (list value)) * (world * Session.session) :=
  let selection :=
    match crime_types with
    | [] => None
    | _ => Some crime_types
    end in
  match Session.generate_random_records_in_zone inject_count zone_bounds
          selection 30 true s with
  | (inl e, s') => ((Error e, []), s')
  | (inr synth, s') =>
      let records := to_dict_records synth in
      match insert_crimes_into b mode (fst records)
              (Db.State (fst s') (snd records)) with
      | (inl e, st) => ((Error e, []), (the_world st, snd s'))
      | (inr sent, st) =>
          ((Success (length (fst records)), sent), (the_world st, snd s'))
      end
  end.

(** The height of the table in [app], for a frame of [rows_count]
    rows. *)
Definition desired_height (rows_count : Z) : Z :=
  let per_row_px := 32 in
  let max_height := 1200 in
  let min_height := 400 in
  Z.min max_height (Z.max min_height (per_row_px * rows_count + 140)).

End Main.

Import Data Viz Db.

(** ** Vocabulary of the statements *)

Definition valid_point (p : point) : Prop :=
  is_float (fst p) /\ is_float (snd p).

(** The two longitude guards of [_point_in_polygon] for the edge from
    [p1] to [p2]. *)
Definition in_lon_range (lon : float) (p1 p2 : point) : bool :=
  fgt lon (py_min (snd p1) (snd p2)) && fle lon (py_max (snd p1) (snd p2)).

(** The three guards under which the edge is examined. *)
Definition edge_examined (lat lon : float) (p1 p2 : point) : bool :=
  in_lon_range lon p1 p2 && fle lat (py_max (fst p1) (fst p2)).

Definition equal_latitude (p1 p2 : point) : bool := feq (fst p1) (fst p2).
Definition equal_longitude (p1 p2 : point) : bool := feq (snd p1) (snd p2).

(** [_point_in_polygon] with the toggles of the edges picked by [skip]
    deleted: on such an edge [inside] keeps its value. *)
Fixpoint pip_loop_without (skip : point -> point -> bool)
    (lat lon : float) (polygon : list point) (idxs : list nat)
    (inside : bool) (xinters : option float) (p1 : point) : result bool :=
  match idxs with
  | [] => inr inside
  | i :: idxs' =>
      match polygon !! (i mod length polygon)%nat with
      | None => inl IndexError
      | Some p2 =>
          letR st := edge_step lat lon p1 p2 inside xinters in
          pip_loop_without skip lat lon polygon idxs'
            (if skip p1 p2 then inside else fst st) (snd st) p2
      end
  end.

Definition point_in_polygon_without (skip : point -> point -> bool)
    (pt : point) (polygon : list point) : result bool :=
  match polygon !! 0%nat with
  | None => inl IndexError
  | Some p1 =>
      pip_loop_without skip (fst pt) (snd pt) polygon
        (seq 1 (length polygon)) false None p1
  end.

(** The unit square of the specification's scenarios and its centre. *)
Definition unit_square : list point :=
  [ (float_of_Z 0, float_of_Z 0); (float_of_Z 0, float_of_Z 1);
    (float_of_Z 1, float_of_Z 1); (float_of_Z 1, float_of_Z 0) ].
Definition centre : point := (decimal 5 1, decimal 5 1).

(** The world after [n] more draws from the generator. *)
Definition advance (w : world) (n : nat) : world :=
  World (draws w) (cursor w + n) (utc w) (utc_cursor w)
        (millis w) (millis_cursor w).

(** The float [k / 2^53] that [random()] makes of the raw draw [k], and
    the value [uniform(a, b)] makes of it. *)
Definition unit_float (k : N) : float :=
  binary_normalize prec emax (Z.of_N k mod 2 ^ 53) (-53) false.
Definition uniform_at (a b : float) (k : N) : float :=
  fadd a (fmul (fsub b a) (unit_float k)).

(** The bounding box of the vertices: minimum and maximum latitude,
    minimum and maximum longitude. *)
Record box : Type := Box {
  min_lat : float; max_lat : float; min_lon : float; max_lon : float
}.
Definition bounding_box (bounds : list point) : result box :=
  letR a := min_list (map fst bounds) in
  letR b := max_list (map fst bounds) in
  letR c := min_list (map snd bounds) in
  letR d := max_list (map snd bounds) in
  inr (Box a b c d).

(** The [j]-th candidate the sampler draws in world [w]: latitude from
    draw [2j], longitude from draw [2j + 1]. *)
Definition candidate (bx : box) (w : world) (j : nat) : point :=
  (uniform_at (min_lat bx) (max_lat bx) (draws w (cursor w + 2 * j)),
   uniform_at (min_lon bx) (max_lon bx) (draws w (cursor w + 2 * j + 1))).

(** A world whose every raw draw is [2^52], so that [random()] is
    always [0.5]; the clocks read an instant of 2025. *)
Definition halves : world :=
  World (fun _ => (2 ^ 52)%N) 0 (fun _ => 63900000000000000) 0
        (fun _ => 1700000000000) 0.

(** A polygon the sampler can work on: at least one vertex, every
    coordinate a binary64 number. *)
Definition polygon_ok (bounds : list point) : Prop :=
  bounds <> [] /\ Forall valid_point bounds.

(** How many of the keys [l] fall in the bucket of [k]. *)
Definition bucket_size (k : key) (l : list key) : Z :=
  Z.of_nat (length (List.filter (key_eqb k) l)).

(** No two buckets of [g] stand for the same key. *)
Fixpoint distinct_keys (g : list bucket) : Prop :=
  match g with
  | [] => True
  | b :: g' =>
      Forall (fun b' => key_eqb (fst b) (fst b') = false) g' /\
      distinct_keys g'
  end.

(** One step of the counting pass of [groupby_size]. *)
Definition count_key (g : list bucket) (k : key) : list bucket :=
  if key_isna k then g else bump k g.

(** A row with a latitude and no longitude. *)
Definition latitude_only : record :=
  {[ "latitude" := VFloat (float_of_Z 10) ]}.

(** [g] is the table of bucket sizes of the keys [seen]: one bucket per
    key present, each holding the number of keys that fall in it. *)
Definition counts_of (seen : list key) (g : list bucket) : Prop :=
  distinct_keys g /\
  (forall k c, In (k, c) g -> c = bucket_size k seen /\ 1 <= c) /\
  (forall x, In x seen -> key_isna x = false ->
             exists k c, In (k, c) g /\ key_eqb k x = true).

(** The value of field [k] of the record that reference [l] points to. *)
Definition field (h : gmap ref record) (l : ref) (k : string)
  : option value :=
  match h !! l with
  | Some d => d !! k
  | None => None
  end.

(** The fields that [_enforce_recent_date] assigns. *)
Definition stamped_field (k : string) : bool :=
  String.eqb k "date" || String.eqb k "updated_on" || String.eqb k "year".

(** What [_enforce_recent_date] makes of a record at time [now] when it
    picks the date [t]. *)
Definition stamp (now t : Z) (d : record) : record :=
  <["year" := VInt (datetime_year t)]>
    (<["updated_on" := VDatetime now]> (<["date" := VDatetime t]> d)).

(** The record at [l] carries a date between 1 h 59 min 59 s and 1 h
    before some reading [now] of the clock, that reading as its
    [updated_on], and the year of the date. *)
Definition stamped_record (w : world) (h : gmap ref record) (l : ref)
  : Prop :=
  exists i t,
    let now := utc w i in
    now - timedelta 0 1 59 59 <= t <= now - timedelta 0 1 0 0 /\
    field h l "date" = Some (VDatetime t) /\
    field h l "updated_on" = Some (VDatetime now) /\
    field h l "year" = Some (VInt (datetime_year t)).

(** Every reading of the clock is a date at least two hours after
    [datetime.min]. *)
Definition clock_ok (w : world) : Prop :=
  forall i, timedelta 0 2 0 0 <= utc w i <= datetime_max.

(** [m] returns, in every world, a value that satisfies [P]. *)
Definition returns {A} (m : M world A) (P : A -> Prop) : Prop :=
  forall w, exists a w', m w = (inr a, w') /\ P a.

(** The row a generator builds holds under [date] the text of a
    datetime between [lo] and [hi]; the frame row holds the datetime. *)
Definition row_dated (lo hi : Z) (r : record) : Prop :=
  exists t, r !! "date" = Some (VIso t) /\ lo <= t <= hi.
Definition frame_dated (lo hi : Z) (r : record) : Prop :=
  exists t, r !! "date" = Some (VDatetime t) /\ lo <= t <= hi.

(** The category list the generator draws from. *)
Definition categories (crime_types : option (list string)) : list string :=
  match crime_types with
  | None => map fst CRIME_TYPES_AREQUIPA
  | Some l => l
  end.

Definition not_nan (x : float) : Prop := is_nan x = false.
Definition real_point (p : point) : Prop :=
  not_nan (fst p) /\ not_nan (snd p).

(** The point lies in the box, bounds included. *)
Definition in_box (bx : box) (p : point) : bool :=
  fle (min_lat bx) (fst p) && fle (fst p) (max_lat bx)
  && fle (min_lon bx) (snd p) && fle (snd p) (max_lon bx).

(** Three vertices on the parallel of latitude 0.1. *)
Definition thin : list point :=
  [ (decimal 1 1, float_of_Z 0); (decimal 1 1, float_of_Z 1);
    (decimal 1 1, float_of_Z 2) ].

(** The sticky bits of a right shift: set when something nonzero was
    shifted out. *)
Definition inexact (mrs : shr_record) : bool := shr_r mrs || shr_s mrs.

(** A zero or a finite number in binary64. *)
Definition finite_float (x : float) : Prop :=
  is_float x /\
  match x with S754_zero _ | S754_finite _ _ _ => True | _ => False end.
Definition finite_point (p : point) : Prop :=
  finite_float (fst p) /\ finite_float (snd p).

(** Zero, a positive number with an exponent in range, plus infinity,
    or [NaN]. *)
Definition nonneg_shape (x : float) : Prop :=
  match x with
  | S754_zero _ => True
  | S754_nan => True
  | S754_infinity s => s = false
  | S754_finite s _ e => s = false /\ -1074 <= e
  end.

(** *** Further vocabulary *)

(** The vertex lies on the meridian of longitude [c]. *)
Definition on_meridian (c : float) (p : point) : Prop := feq (snd p) c = true.

(** The fields of the [i]-th record that [generate_random_records_in_zone]
    builds at time [now] from the categories [crime_types]; [stamp] is
    the form dates take, text in the row and datetime in the frame, and
    [good] what is known of the sampled point. *)
Definition zone_record (stamp : Z -> value) (good : point -> Prop)
    (now : Z) (crime_types : list string) (i : Z) (r : record) : Prop :=
  exists lat lon primary description t ms,
    good (lat, lon) /\
    In primary crime_types /\
    In description (dict_get CRIME_TYPES_AREQUIPA primary ["Incidente"]) /\
    t <= now /\
    r !! "id" = Some (VFmt [Lit "ARQ-"; Dec ms; Lit "-"; Dec i]) /\
    r !! "case_number"
      = Some (VFmt [Lit "AQP"; Dec (datetime_year t); DecPad 6 i]) /\
    r !! "date" = Some (stamp t) /\
    r !! "primary_type" = Some (VStr primary) /\
    r !! "description" = Some (VStr description) /\
    r !! "year" = Some (VInt (datetime_year t)) /\
    r !! "updated_on" = Some (stamp now) /\
    r !! "latitude" = Some (VFloat lat) /\
    r !! "longitude" = Some (VFloat lon) /\
    r !! "location"
      = Some (VFmt [Lit "("; Repr lat; Lit ", "; Repr lon; Lit ")"]).

(** The arguments on which the zone generator does not raise, in a
    world whose clock reads [now]. *)
Definition usable (zone_bounds : list point)
    (crime_types : option (list string)) (days_back now : Z) : Prop :=
  polygon_ok zone_bounds /\
  crime_types <> Some [] /\
  0 <= days_back /\
  timedelta days_back 23 59 0 <= now <= datetime_max.

(** The fields of a record of [generate_random_records] built at time
    [now]: the coordinates are numbers when both base coordinates were
    given and missing otherwise. *)
Definition test_record (stamp : Z -> value) (missing : value) (now : Z)
    (base_lat base_lon : option float) (r : record) : Prop :=
  r !! "date" = Some (stamp now) /\
  r !! "updated_on" = Some (stamp now) /\
  r !! "year" = Some (VInt (datetime_year now)) /\
  match base_lat, base_lon with
  | Some _, Some _ =>
      exists lat lon,
        r !! "latitude" = Some (VFloat lat) /\
        r !! "longitude" = Some (VFloat lon)
  | _, _ =>
      r !! "latitude" = Some missing /\ r !! "longitude" = Some missing
  end.

(** The world after [insert_crimes] has stamped [n] records: one
    reading of the clock and two draws for each. *)
Definition after_stamps (w : world) (n : nat) : world :=
  World (draws w) (cursor w + 2 * n) (utc w) (utc_cursor w + n)
        (millis w) (millis_cursor w).

(** The values sqlite3 binds without an adapter of its own. *)
Definition sqlite_value (v : value) : bool :=
  match v with
  | VBool _ | VDatetime _ => false
  | _ => true
  end.

(** The form in which each backend is handed a datetime. *)
Definition sent_datetime (mode : db_mode) (t : Z) : value :=
  match mode with
  | Sqlite => VIso t
  | Postgres => VDatetime t
  end.

(** The tuple sent for a record carries under [date] a datetime between
    1 h 59 min 59 s and 1 h before a reading of the clock, that reading
    under [updated_on] and the year of the date under [year]. *)
Definition stamped_tuple (mode : db_mode) (w : world) (row : list value)
  : Prop :=
  exists i t,
    let now := utc w i in
    now - timedelta 0 1 59 59 <= t <= now - timedelta 0 1 0 0 /\
    row !! 2%nat = Some (sent_datetime mode t) /\
    row !! 16%nat = Some (sent_datetime mode now) /\
    row !! 15%nat = Some (VInt (datetime_year t)).

(** The sum of the counts of the buckets. *)
Definition total_count (g : list bucket) : Z :=
  fold_right (fun b acc => snd b + acc) 0 g.

(** The entry [create_user] writes for a password and a role. *)
Definition new_entry (sha256_hex : string -> string) (password : string)
    (is_admin : bool) : Auth.entry :=
  {[ "password_hash" := Auth.JStr (Auth._hash_password sha256_hex password);
     "is_admin" := Auth.JBool is_admin ]}.

(** The registry [load_users] returns for a file. *)
Definition registry (sha256_hex : string -> string) (f : Auth.users_file)
  : Auth.users :=
  match f with
  | Auth.Missing => Auth.default_users sha256_hex
  | Auth.Unreadable => ∅
  | Auth.Stored u => u
  end.

(** The file [load_users] leaves behind. *)
Definition loaded (sha256_hex : string -> string) (f : Auth.users_file)
  : Auth.users_file :=
  match f with
  | Auth.Missing => Auth.Stored (Auth.default_users sha256_hex)
  | _ => f
  end.

(** The credentials are those of an administrator of the registry in
    file [f]: the user is listed, the hash stored for it is the hash of
    the password, and its [is_admin] entry counts as true. *)
Definition administrator (sha256_hex : string -> string)
    (username password : string) (f : Auth.users_file) : bool :=
  match registry sha256_hex f !! username with
  | Some e =>
      match e !! "password_hash", e !! "is_admin" with
      | Some (Auth.JStr h), Some v =>
          String.eqb h (sha256_hex password) && Auth.truthy v
      | _, _ => false
      end
  | None => false
  end.

(** [m] only moves the cursors of the world: the streams of clock
    readings and of draws stay what they are. *)
Definition steady {A} (m : M world A) : Prop :=
  forall w,
    utc (snd (m w)) = utc w /\
    draws (snd (m w)) = draws w /\
    millis (snd (m w)) = millis w.

(** *** The centroid, the buckets and the storage step *)

(** The arithmetic mean of a list as binary64 computes it: the elements
    added from the left to [0.0], and the sum divided by the number of
    elements. *)
Definition arithmetic_mean (l : list float) : float :=
  SFdiv 53 1024
    (fold_left (SFadd 53 1024) l (S754_zero false))
    (binary_normalize 53 1024 (Z.of_nat (length l)) 0 false).

(** The centroid of the vertices: mean latitude, mean longitude. *)
Definition centroid (bounds : list point) : point :=
  (arithmetic_mean (map fst bounds), arithmetic_mean (map snd bounds)).

(** Two vertices on the meridian of longitude 1. *)
Definition on_meridian_one : list point :=
  [ (float_of_Z 0, float_of_Z 1); (float_of_Z 1, float_of_Z 1) ].

(** [mrs'] is [mrs] shifted right by [n] bits: the mantissa is halved
    [n] times, the round bit is the last bit shifted out and the sticky
    bit tells whether anything nonzero went out before it. *)
Definition shifted (n : Z) (mrs mrs' : shr_record) : Prop :=
  shr_m mrs' = shr_m mrs / 2 ^ n /\
  shr_r mrs' = Z.odd (shr_m mrs / 2 ^ (n - 1)) /\
  shr_s mrs' = shr_r mrs || shr_s mrs
               || negb (shr_m mrs mod 2 ^ (n - 1) =? 0).

(** [n / 2^p] rounded to the nearest integer, a tie to the even one. *)
Definition nearest_even (n p : Z) : Z :=
  let q := n / 2 ^ p in
  match 2 * (n mod 2 ^ p) ?= 2 ^ p with
  | Lt => q
  | Eq => if Z.even q then q else q + 1
  | Gt => q + 1
  end.

(** A float rounded to an integer, a tie to the even one.  A finite
    [m * 2^e] with [e < 0] becomes the float of the integer nearest to
    it; every other float is an integer, an infinity or [NaN], and
    stays. *)
Definition nearest_integer (x : float) : float :=
  match x with
  | S754_finite s m e =>
      if e <? 0
      then binary_normalize 53 1024
             (cond_Zopp s (nearest_even (Z.pos m) (- e))) 0 s
      else x
  | _ => x
  end.

(** A coordinate rounded to two decimals: a hundred times the
    coordinate, rounded to an integer, divided by a hundred. *)
Definition two_decimals (x : float) : float :=
  let hundred := binary_normalize 53 1024 100 0 false in
  SFdiv 53 1024 (nearest_integer (SFmul 53 1024 x hundred)) hundred.

(** The row has both coordinates. *)
Definition located (r : record) : bool :=
  negb (is_nan (latitude r)) && negb (is_nan (longitude r)).

(** The bucket of a row: its coordinates rounded to two decimals. *)
Definition cell (r : record) : key :=
  (two_decimals (latitude r), two_decimals (longitude r)).

(** Two keys are the same pair of numbers. *)
Definition same_key (a b : key) : bool :=
  SFeqb (fst a) (fst b) && SFeqb (snd a) (snd b).

(** The number of incidents of the frame that have both coordinates
    and fall in the bucket [k]. *)
Definition incidents_in (df : dataframe) (k : key) : Z :=
  Z.of_nat (length (List.filter (fun r => located r && same_key k (cell r)) df)).

(** A row at the given coordinates. *)
Definition row_at (lat lon : float) : record :=
  {[ "latitude" := VFloat lat; "longitude" := VFloat lon ]}.

(** Six incidents: three whose coordinates round to (10, 20), two that
    round to (10.5, 20) and one without a longitude. *)
Definition six_incidents : dataframe :=
  [ row_at (decimal 10001 3) (float_of_Z 20);
    row_at (decimal 105 1) (float_of_Z 20);
    row_at (decimal 10004 3) (decimal 19999 3);
    row_at (float_of_Z 10) S754_nan;
    row_at (float_of_Z 10) (float_of_Z 20);
    row_at (decimal 10501 3) (float_of_Z 20) ].

(** (10, 20) and (10.5, 20), the two buckets of [six_incidents]. *)
Definition bucket_10_20 : key := (float_of_Z 10, float_of_Z 20).
Definition bucket_105_20 : key := (decimal 105 1, float_of_Z 20).

(** Three incidents at one place. *)
Definition three_incidents : dataframe :=
  repeat (row_at (float_of_Z 10) (float_of_Z 20)) 3.

(** The insertion time of the [j]-th record of a batch handed over in
    world [w]: the reading [_enforce_recent_date] takes of the clock
    when it comes to that record. *)
Definition insertion_time (w : world) (j : nat) : Z :=
  utc w (utc_cursor w + j).

(** The date the [j]-th record is given: its insertion time less one
    hour and the minutes and seconds drawn for it. *)
Definition recent_date (w : world) (j : nat) : Z :=
  insertion_time w j
  - (3600000000
     + Z.of_N (draws w (cursor w + 2 * j)) mod 60 * 60000000
     + Z.of_N (draws w (cursor w + 2 * j + 1)) mod 60 * 1000000).

(** Two records of a batch. *)
Definition two_records : gmap ref record :=
  {[ 0%nat := row_at (float_of_Z 10) (float_of_Z 20);
     1%nat := <["date" := VDatetime 63899595840000000]>
                (row_at (decimal 105 1) (float_of_Z 20)) ]}.

(** What the button reports for [n] records against a database [b]:
    an empty batch never reaches the database. *)
Definition button_notice (b : backend) (n : nat) : Main.notice :=
  match b, n with
  | Down, S _ => Main.Error DatabaseError
  | _, _ => Main.Success n
  end.

(** The number of tuples that reach the table. *)
Definition stored_count (b : backend) (n : nat) : nat :=
  match b with
  | Up => n
  | Down => 0
  end.

(** The bounds of the zone Yanahuara. *)
Definition yanahuara : list point * point :=
  ([ (decimal (-16390) 3, decimal (-71545) 3);
     (decimal (-16395) 3, decimal (-71550) 3);
     (decimal (-16400) 3, decimal (-71545) 3);
     (decimal (-16395) 3, decimal (-71540) 3) ],
   (decimal (-16395) 3, decimal (-71545) 3)).

(** * Properties *)

(** ** Binary64 arithmetic *)

Lemma digits2_pos_bounds (m : positive) :
2 ^ (Z.pos (digits2_pos m) - 1) <= Z.pos m < 2 ^ Z.pos (digits2_pos m).
Proof.
induction m as [m IH | m IH |]; cbn [digits2_pos].
- rewrite Pos2Z.inj_succ, Z.pow_succ_r by lia.
  replace (Z.succ (Z.pos (digits2_pos m)) - 1) with (Z.succ (Z.pos (digits2_pos m) - 1)) by lia.
  rewrite Z.pow_succ_r by lia. lia.
- rewrite Pos2Z.inj_succ, Z.pow_succ_r by lia.
  replace (Z.succ (Z.pos (digits2_pos m)) - 1) with (Z.succ (Z.pos (digits2_pos m) - 1)) by lia.
  rewrite Z.pow_succ_r by lia. lia.
- cbn. lia.
Qed.

Lemma iter_xO_val (m d : positive) :
Z.pos (Pos.iter xO m d) = Z.pos m * 2 ^ Z.pos d.
Proof.
revert m. induction d using Pos.peano_ind; intros m.
- cbn. lia.
- rewrite Pos.iter_succ, Pos2Z.inj_succ, Z.pow_succ_r by lia.
  rewrite Pos2Z.inj_xO, IHd. lia.
Qed.

Lemma shr_1_m (mrs : shr_record) :
0 <= shr_m mrs -> shr_m (shr_1 mrs) = shr_m mrs / 2.
Proof.
destruct mrs as [m r s]; cbn [shr_m]. intros Hm.
destruct m as [|[p|p|]|p]; cbn [shr_1 shr_m]; try lia.
- reflexivity.
- apply Z.div_unique with 1; lia.
- apply Z.div_unique with 0; lia.
- reflexivity.
Qed.

Lemma iter_pos_shr_1_m (p : positive) : forall mrs,
0 <= shr_m mrs ->
shr_m (SpecFloat.iter_pos shr_1 p mrs) = shr_m mrs / 2 ^ Z.pos p.
Proof.
induction p as [p IH | p IH |]; intros mrs Hm; cbn [SpecFloat.iter_pos].
- assert (H1 : 0 <= shr_m (shr_1 mrs)).
  { rewrite shr_1_m by exact Hm. apply Z.div_pos; lia. }
  assert (H2 : 0 <= shr_m (SpecFloat.iter_pos shr_1 p (shr_1 mrs))).
  { rewrite IH by exact H1. apply Z.div_pos; [exact H1 | lia]. }
  rewrite IH by exact H2. rewrite IH by exact H1. rewrite shr_1_m by exact Hm.
  rewrite !Z.div_div by lia.
  f_equal. replace (Z.pos p~1) with (1 + Z.pos p + Z.pos p) by lia.
  rewrite !Z.pow_add_r by lia. change (2 ^ 1) with 2. lia.
- assert (H2 : 0 <= shr_m (SpecFloat.iter_pos shr_1 p mrs)).
  { rewrite IH by exact Hm. apply Z.div_pos; [exact Hm | lia]. }
  rewrite IH by exact H2. rewrite IH by exact Hm.
  rewrite Z.div_div by lia.
  f_equal. replace (Z.pos p~0) with (Z.pos p + Z.pos p) by lia.
  rewrite Z.pow_add_r by lia. lia.
- rewrite shr_1_m by exact Hm. reflexivity.
Qed.

Lemma shr_m_of_loc (m : Z) (l : location) : shr_m (shr_record_of_loc m l) = m.
Proof. destruct l as [|[]]; reflexivity. Qed.

Lemma fexp_ge_emin (k : Z) : -1074 <= fexp prec emax k.
Proof. unfold fexp, SpecFloat.emin, prec, emax. lia. Qed.

Lemma shr_fexp_pos (m e : Z) (l : location) :
0 < m -> -1074 <= e ->
0 < shr_m (fst (shr_fexp prec emax m e l)) /\
-1074 <= snd (shr_fexp prec emax m e l).
Proof.
intros Hm He. unfold shr_fexp, shr.
destruct m as [|p|p]; try lia. cbn [Zdigits2].
pose proof (digits2_pos_bounds p) as [Hlo _].
pose proof (fexp_ge_emin (Z.pos (digits2_pos p) + e)) as Hf.
destruct (fexp prec emax (Z.pos (digits2_pos p) + e) - e) as [|q|q] eqn:Hn;
  cbn [fst snd]; rewrite ?shr_m_of_loc; try (split; lia).
split; [|lia].
rewrite iter_pos_shr_1_m by (rewrite shr_m_of_loc; lia).
rewrite shr_m_of_loc.
assert (Hq : Z.pos q <= Z.pos (digits2_pos p) - 1).
{ unfold fexp, SpecFloat.emin, prec, emax in Hn. lia. }
assert (Hpow : 2 ^ Z.pos q <= 2 ^ (Z.pos (digits2_pos p) - 1)).
{ apply Z.pow_le_mono_r; lia. }
apply Z.div_str_pos. lia.
Qed.

Lemma round_nearest_even_ge (m : Z) (l : location) :
m <= round_nearest_even m l.
Proof.
destruct l as [|[]]; cbn [round_nearest_even]; try lia.
destruct (Z.even m); lia.
Qed.

Lemma binary_round_aux_nonzero (s : bool) (m e : Z) (l : location) :
0 < m -> -1074 <= e ->
is_zero (binary_round_aux prec emax s m e l) = false.
Proof.
intros Hm He. unfold binary_round_aux.
pose proof (shr_fexp_pos m e l Hm He) as [H1 H2].
destruct (shr_fexp prec emax m e l) as [mrs' e']. cbn [fst snd] in H1, H2.
pose proof (round_nearest_even_ge (shr_m mrs') (loc_of_shr_record mrs')) as Hr.
pose proof (shr_fexp_pos (round_nearest_even (shr_m mrs') (loc_of_shr_record mrs'))
              e' loc_Exact ltac:(lia) H2) as [H3 _].
destruct (shr_fexp prec emax _ e' loc_Exact) as [mrs'' e''].
cbn [fst] in H3.
destruct (shr_m mrs'') as [|q|q]; try lia.
destruct (e'' <=? emax - prec); reflexivity.
Qed.

Lemma shl_align_spec (m : positive) (e e' : Z) :
Z.pos (fst (shl_align m e e')) = Z.pos m * 2 ^ Z.max 0 (e - e') /\
snd (shl_align m e e') = Z.min e e'.
Proof.
unfold shl_align. destruct (e' - e) as [|d|d] eqn:Hd; cbn [fst snd].
- replace (Z.max 0 (e - e')) with 0 by lia. cbn. lia.
- replace (Z.max 0 (e - e')) with 0 by lia. cbn. lia.
- rewrite iter_xO_val. replace (Z.max 0 (e - e')) with (Z.pos d) by lia. lia.
Qed.

Lemma binary_round_nonzero (s : bool) (m : positive) (e : Z) :
-1074 <= e -> is_zero (binary_round prec emax s m e) = false.
Proof.
intros He. unfold binary_round.
pose proof (shl_align_spec m e (fexp prec emax (Z.pos (digits2_pos m) + e))) as [_ H2].
pose proof (fexp_ge_emin (Z.pos (digits2_pos m) + e)) as Hf.
destruct (shl_align m e _) as [mz ez]. cbn [snd] in H2.
apply binary_round_aux_nonzero; lia.
Qed.

Lemma valid_finite_bounds (s : bool) (m : positive) (e : Z) :
is_float (S754_finite s m e) ->
-1074 <= e /\ Z.pos m < 2 ^ 53 /\ (-1074 < e -> 2 ^ 52 <= Z.pos m).
Proof.
unfold is_float, valid_binary, bounded, canonical_mantissa. intros H.
apply andb_prop in H as [H _]. apply Z.eqb_eq in H.
unfold fexp, SpecFloat.emin, prec, emax in H.
pose proof (digits2_pos_bounds m) as [Hlo Hhi].
assert (Hd : Z.pos (digits2_pos m) <= 53) by lia.
split; [lia|]. split.
- eapply Z.lt_le_trans; [exact Hhi|]. apply Z.pow_le_mono_r; lia.
- intros He. assert (Z.pos (digits2_pos m) = 53) by lia.
  replace 52 with (Z.pos (digits2_pos m) - 1) by lia. exact Hlo.
Qed.

Lemma SFcompare_finite_refl (s : bool) (m : positive) (e : Z) :
SFcompare (S754_finite s m e) (S754_finite s m e) = Some Eq.
Proof.
cbn. rewrite Z.compare_refl. change (Pos.compare_cont Eq m m) with (Pos.compare m m).
rewrite Pos.compare_refl. destruct s; reflexivity.
Qed.

(** The difference of two distinct floats is never zero: gradual
  underflow keeps it representable. *)
Lemma fsub_nonzero (x y : float) :
is_float x -> is_float y -> fne y x = true -> is_zero (fsub x y) = false.
Proof.
intros Hx Hy Hne. unfold fne in Hne. apply negb_true_iff in Hne.
unfold fsub.
destruct x as [sx|sx| |sx mx ex], y as [sy|sy| |sy my ey];
  try (destruct sx, sy; cbn in *; congruence);
  try (destruct sx; cbn in *; congruence);
  try (destruct sy; cbn in *; congruence);
  try (cbn in *; congruence).
cbn [SFsub].
apply valid_finite_bounds in Hx as (Hex & Hmx & Hnx).
apply valid_finite_bounds in Hy as (Hey & Hmy & Hny).
pose proof (shl_align_spec mx ex (Z.min ex ey)) as [Hax _].
pose proof (shl_align_spec my ey (Z.min ex ey)) as [Hay _].
set (ax := fst (shl_align mx ex (Z.min ex ey))) in *.
set (ay := fst (shl_align my ey (Z.min ex ey))) in *.
unfold binary_normalize.
destruct (cond_Zopp sx (Z.pos ax) - cond_Zopp sy (Z.pos ay)) as [|q|q] eqn:Hm;
  try (apply binary_round_nonzero; lia).
exfalso.
assert (Hs : sx = sy).
{ destruct sx, sy; cbn [cond_Zopp] in Hm; try reflexivity; lia. }
subst sy.
assert (Haxy : Z.pos ax = Z.pos ay).
{ destruct sx; cbn [cond_Zopp] in Hm; lia. }
rewrite Hax, Hay in Haxy.
assert (Hee : ex = ey).
{ destruct (Z.lt_trichotomy ex ey) as [Hlt | [Heq | Hgt]]; [|exact Heq|]; exfalso.
  - replace (Z.max 0 (ex - Z.min ex ey)) with 0 in Haxy by lia.
    replace (Z.max 0 (ey - Z.min ex ey)) with (ey - ex) in Haxy by lia.
    assert (2 ^ 1 <= 2 ^ (ey - ex)) by (apply Z.pow_le_mono_r; lia).
    change (2 ^ 1) with 2 in *. change (2 ^ 0) with 1 in Haxy.
    specialize (Hny ltac:(lia)). nia.
  - replace (Z.max 0 (ey - Z.min ex ey)) with 0 in Haxy by lia.
    replace (Z.max 0 (ex - Z.min ex ey)) with (ex - ey) in Haxy by lia.
    assert (2 ^ 1 <= 2 ^ (ex - ey)) by (apply Z.pow_le_mono_r; lia).
    change (2 ^ 1) with 2 in *. change (2 ^ 0) with 1 in Haxy.
    specialize (Hnx ltac:(lia)). nia. }
subst ey.
replace (Z.max 0 (ex - Z.min ex ex)) with 0 in Haxy by lia.
change (2 ^ 0) with 1 in Haxy.
assert (mx = my) by lia. subst my.
unfold SFeqb in Hne. rewrite SFcompare_finite_refl in Hne. discriminate.
Qed.

(** Swapping the arguments of a comparison reverses its outcome. *)
Lemma SFcompare_swap (x y : float) :
SFcompare y x = option_map CompOpp (SFcompare x y).
Proof.
destruct x as [sx|sx| |sx mx ex], y as [sy|sy| |sy my ey];
  try reflexivity;
  try (destruct sx; reflexivity);
  try (destruct sy; reflexivity);
  try (destruct sx, sy; reflexivity).
cbn [SFcompare option_map].
rewrite (Z.compare_antisym ey ex).
change (Pos.compare_cont Eq my mx) with (Pos.compare my mx).
change (Pos.compare_cont Eq mx my) with (Pos.compare mx my).
rewrite (Pos.compare_antisym my mx).
destruct sx, sy; try reflexivity;
  destruct (ey ?= ex); cbn [CompOpp]; try reflexivity;
  destruct (my ?= mx)%positive; reflexivity.
Qed.

Lemma flt_not_fle (a x : float) : flt a x = true -> fle x a = false.
Proof.
unfold flt, fle, SFltb, SFleb. rewrite (SFcompare_swap a x).
destruct (SFcompare a x) as [[]|]; cbn; congruence.
Qed.

Lemma feq_sym (a b : float) : feq a b = feq b a.
Proof.
unfold feq, SFeqb. rewrite (SFcompare_swap b a).
destruct (SFcompare b a) as [[]|]; reflexivity.
Qed.

Lemma feq_py_min (a b : float) : feq a b = true -> py_min a b = a.
Proof.
unfold feq, SFeqb, py_min, flt, SFltb. rewrite (SFcompare_swap a b).
destruct (SFcompare a b) as [[]|]; cbn; congruence.
Qed.

Lemma feq_py_max (a b : float) : feq a b = true -> py_max a b = a.
Proof.
unfold feq, SFeqb, py_max, fgt, SFltb.
destruct (SFcompare a b) as [[]|]; cbn; congruence.
Qed.

Lemma feq_inv (a b : float) :
  feq a b = true ->
  (is_zero a = true /\ is_zero b = true) \/ (a = b /\ is_nan a = false).
Proof.
  unfold feq, SFeqb.
  destruct a as [sa|sa| |sa ma ea], b as [sb|sb| |sb mb eb]; cbn;
    try discriminate; try (destruct sa; discriminate);
    try (destruct sb; discriminate); try (left; split; reflexivity).
  - destruct sa, sb; try discriminate; right; split; reflexivity.
  - intros H. right. split; [|reflexivity].
    destruct sa, sb; try discriminate;
      destruct (Z.compare_spec ea eb); try discriminate; subst;
      change (Pos.compare_cont Eq ma mb) with (Pos.compare ma mb) in H;
      destruct (Pos.compare_spec ma mb); try discriminate; subst; reflexivity.
Qed.

Lemma feq_refl (a : float) : is_nan a = false -> feq a a = true.
Proof.
  unfold feq, SFeqb. destruct a as [sa|sa| |sa ma ea]; cbn; try discriminate;
    intros _; try reflexivity.
  - destruct sa; reflexivity.
  - rewrite Z.compare_refl.
    change (Pos.compare_cont Eq ma ma) with (Pos.compare ma ma).
    rewrite Pos.compare_refl. destruct sa; reflexivity.
Qed.

Lemma feq_zero (a b : float) :
  is_zero a = true -> is_zero b = true -> feq a b = true.
Proof. destruct a, b; cbn; try discriminate; reflexivity. Qed.

Lemma feq_trans (a b c : float) :
  feq a b = true -> feq b c = true -> feq a c = true.
Proof.
  intros Hab Hbc.
  destruct (feq_inv a b Hab) as [[Za Zb]|[-> _]]; [|exact Hbc].
  destruct (feq_inv b c Hbc) as [[_ Zc]|[<- _]]; [|exact Hab].
  apply feq_zero; assumption.
Qed.

Lemma feq_nan_r (a b : float) : is_nan b = true -> feq a b = false.
Proof. destruct b; try discriminate. intros _. destruct a; reflexivity. Qed.

(** *** The order of floats *)

Ltac compare_cases :=
  repeat match goal with
         | H : context [Z.compare ?x ?y] |- _ => destruct (Z.compare_spec x y)
         | |- context [Z.compare ?x ?y] => destruct (Z.compare_spec x y)
         | H : context [Pos.compare ?x ?y] |- _ => destruct (Pos.compare_spec x y)
         | |- context [Pos.compare ?x ?y] => destruct (Pos.compare_spec x y)
         end.

Lemma SFcompare_trans (a b c : float) :
  SFcompare a b = Some Lt \/ SFcompare a b = Some Eq ->
  SFcompare b c = Some Lt \/ SFcompare b c = Some Eq ->
  (SFcompare a c = Some Lt \/ SFcompare a c = Some Eq) /\
  (SFcompare a b = Some Lt \/ SFcompare b c = Some Lt -> SFcompare a c = Some Lt).
Proof.
  destruct a as [sa|sa| |sa ma ea], b as [sb|sb| |sb mb eb], c as [sc|sc| |sc mc ec];
    cbn [SFcompare];
    change (Pos.compare_cont Eq) with Pos.compare;
    try (intros [H|H]; discriminate);
    try (intros _ [H|H]; discriminate);
    try (destruct sa); try (destruct sb); try (destruct sc);
    intros Hab Hbc;
    try (destruct Hab as [Hab|Hab]; discriminate);
    try (destruct Hbc as [Hbc|Hbc]; discriminate);
    try (split; [auto|intros [?|?]; (discriminate || auto)]; fail).
  all: compare_cases; subst; cbn [CompOpp] in *;
    try (destruct Hab as [Hab|Hab]; discriminate);
    try (destruct Hbc as [Hbc|Hbc]; discriminate);
    try lia;
    try (split; [auto|intros [?|?]; (discriminate || auto)]; fail).
Qed.

Lemma fle_spec (a b : float) :
  fle a b = true <-> SFcompare a b = Some Lt \/ SFcompare a b = Some Eq.
Proof.
  unfold fle, SFleb. destruct (SFcompare a b) as [[]|]; split; intros H;
    try reflexivity; try discriminate; auto; destruct H; discriminate.
Qed.

Lemma flt_spec (a b : float) : flt a b = true <-> SFcompare a b = Some Lt.
Proof.
  unfold flt, SFltb. destruct (SFcompare a b) as [[]|]; split; intros H;
    try reflexivity; discriminate.
Qed.

Lemma flt_fle (a b : float) : flt a b = true -> fle a b = true.
Proof. rewrite flt_spec, fle_spec. auto. Qed.

Lemma fle_trans (a b c : float) :
  fle a b = true -> fle b c = true -> fle a c = true.
Proof.
  rewrite !fle_spec. intros Hab Hbc. apply (SFcompare_trans a b c Hab Hbc).
Qed.

Lemma fle_flt_trans (a b c : float) :
  fle a b = true -> flt b c = true -> flt a c = true.
Proof.
  rewrite fle_spec, !flt_spec. intros Hab Hbc.
  apply (SFcompare_trans a b c Hab (or_introl Hbc)). right. exact Hbc.
Qed.

Lemma fle_refl (a : float) : is_nan a = false -> fle a a = true.
Proof.
  intros Ha. apply fle_spec. right.
  pose proof (feq_refl a Ha) as H. unfold feq, SFeqb in H.
  destruct (SFcompare a a) as [[]|]; congruence.
Qed.

Lemma SFcompare_not_nan (a b : float) :
  is_nan a = false -> is_nan b = false -> SFcompare a b <> None.
Proof.
  destruct a as [sa|sa| |sa ma ea], b as [sb|sb| |sb mb eb]; cbn;
    congruence.
Qed.

(** Floats other than [NaN] are totally ordered. *)
Lemma fle_total (a b : float) :
  is_nan a = false -> is_nan b = false -> flt b a = false -> fle a b = true.
Proof.
  intros Ha Hb Hlt. unfold flt, SFltb in Hlt. apply fle_spec.
  pose proof (SFcompare_not_nan a b Ha Hb) as Hsome.
  rewrite (SFcompare_swap a b) in Hlt.
  destruct (SFcompare a b) as [[]|]; cbn in Hlt; auto; congruence.
Qed.

Lemma fle_not_nan (a b : float) :
  fle a b = true -> is_nan a = false /\ is_nan b = false.
Proof.
  unfold fle, SFleb. destruct a, b; cbn; try discriminate; auto.
Qed.

Section Extrema.

Lemma py_min_spec (a b : float) :
  not_nan a -> not_nan b ->
  not_nan (py_min a b) /\ fle (py_min a b) a = true /\ fle (py_min a b) b = true.
Proof.
  intros Ha Hb. unfold py_min. destruct (flt b a) eqn:Hlt.
  - split; [exact Hb|]. split; [apply flt_fle; exact Hlt|apply fle_refl; exact Hb].
  - split; [exact Ha|]. split; [apply fle_refl; exact Ha|].
    apply fle_total; assumption.
Qed.

Lemma py_max_spec (a b : float) :
  not_nan a -> not_nan b ->
  not_nan (py_max a b) /\ fle a (py_max a b) = true /\ fle b (py_max a b) = true.
Proof.
  intros Ha Hb. unfold py_max, fgt. fold (flt a b). destruct (flt a b) eqn:Hlt.
  - split; [exact Hb|]. split; [apply flt_fle; exact Hlt|apply fle_refl; exact Hb].
  - split; [exact Ha|]. split; [apply fle_refl; exact Ha|].
    apply fle_total; assumption.
Qed.

Lemma fold_py_min_spec (l : list float) : forall x0,
  not_nan x0 -> Forall not_nan l ->
  not_nan (fold_left py_min l x0) /\
  fle (fold_left py_min l x0) x0 = true /\
  Forall (fun y => fle (fold_left py_min l x0) y = true) l.
Proof.
  induction l as [|x l IH]; intros x0 H0 Hl; cbn [fold_left].
  - split; [exact H0|]. split; [apply fle_refl; exact H0|constructor].
  - inversion Hl as [|? ? Hx Hl']; subst.
    destruct (py_min_spec x0 x H0 Hx) as (Hn & Hle0 & Hlex).
    destruct (IH (py_min x0 x) Hn Hl') as (Hn' & Hle & Hall).
    split; [exact Hn'|]. split; [eapply fle_trans; eassumption|].
    constructor; [eapply fle_trans; eassumption|exact Hall].
Qed.

Lemma fold_py_max_spec (l : list float) : forall x0,
  not_nan x0 -> Forall not_nan l ->
  not_nan (fold_left py_max l x0) /\
  fle x0 (fold_left py_max l x0) = true /\
  Forall (fun y => fle y (fold_left py_max l x0) = true) l.
Proof.
  induction l as [|x l IH]; intros x0 H0 Hl; cbn [fold_left].
  - split; [exact H0|]. split; [apply fle_refl; exact H0|constructor].
  - inversion Hl as [|? ? Hx Hl']; subst.
    destruct (py_max_spec x0 x H0 Hx) as (Hn & Hle0 & Hlex).
    destruct (IH (py_max x0 x) Hn Hl') as (Hn' & Hle & Hall).
    split; [exact Hn'|]. split; [eapply fle_trans; eassumption|].
    constructor; [eapply fle_trans; eassumption|exact Hall].
Qed.

Lemma min_list_spec (l : list float) (m : float) :
  Forall not_nan l -> min_list l = inr m ->
  Forall (fun y => fle m y = true) l.
Proof.
  destruct l as [|x0 l]; [discriminate|]. intros Hl [= <-].
  inversion Hl as [|? ? H0 Hl']; subst.
  destruct (fold_py_min_spec l x0 H0 Hl') as (_ & Hle & Hall).
  constructor; assumption.
Qed.

Lemma max_list_spec (l : list float) (m : float) :
  Forall not_nan l -> max_list l = inr m ->
  Forall (fun y => fle y m = true) l.
Proof.
  destruct l as [|x0 l]; [discriminate|]. intros Hl [= <-].
  inversion Hl as [|? ? H0 Hl']; subst.
  destruct (fold_py_max_spec l x0 H0 Hl') as (_ & Hle & Hall).
  constructor; assumption.
Qed.

End Extrema.

Lemma py_min_either (a b : float) : py_min a b = a \/ py_min a b = b.
Proof. unfold py_min. destruct (flt b a); auto. Qed.

Lemma py_max_either (a b : float) : py_max a b = a \/ py_max a b = b.
Proof. unfold py_max. destruct (fgt b a); auto. Qed.

Lemma fold_py_min_in (l : list float) : forall x0,
  In (fold_left py_min l x0) (x0 :: l).
Proof.
  induction l as [|x l IH]; intros x0; cbn [fold_left]; [left; reflexivity|].
  destruct (IH (py_min x0 x)) as [H|H]; [|right; right; exact H].
  rewrite <- H. destruct (py_min_either x0 x) as [-> | ->];
    [left; reflexivity|right; left; reflexivity].
Qed.

Lemma fold_py_max_in (l : list float) : forall x0,
  In (fold_left py_max l x0) (x0 :: l).
Proof.
  induction l as [|x l IH]; intros x0; cbn [fold_left]; [left; reflexivity|].
  destruct (IH (py_max x0 x)) as [H|H]; [|right; right; exact H].
  rewrite <- H. destruct (py_max_either x0 x) as [-> | ->];
    [left; reflexivity|right; left; reflexivity].
Qed.

Lemma min_list_in (l : list float) (m : float) :
  min_list l = inr m -> In m l.
Proof.
  destruct l as [|x0 l]; [discriminate|]. intros [= <-]. apply fold_py_min_in.
Qed.

Lemma max_list_in (l : list float) (m : float) :
  max_list l = inr m -> In m l.
Proof.
  destruct l as [|x0 l]; [discriminate|]. intros [= <-]. apply fold_py_max_in.
Qed.

Lemma finite_float_not_nan (x : float) : finite_float x -> not_nan x.
Proof. intros [_ H]. destruct x; try contradiction; reflexivity. Qed.

(** *** Rounding *)

Lemma digits2_pos_unique (m : positive) (k : Z) :
  2 ^ (k - 1) <= Z.pos m < 2 ^ k -> Z.pos (digits2_pos m) = k.
Proof.
  intros [Hlo Hhi]. pose proof (digits2_pos_bounds m) as [Dlo Dhi].
  set (d := Z.pos (digits2_pos m)) in *.
  assert (Hk : 0 < k).
  { destruct (Z.lt_ge_cases 0 k) as [H|H]; [exact H|].
    assert (2 ^ k <= 2 ^ 0) by (apply Z.pow_le_mono_r; lia).
    change (2 ^ 0) with 1 in *. lia. }
  destruct (Z.lt_trichotomy d k) as [H|[H|H]]; [|exact H|].
  - assert (2 ^ d <= 2 ^ (k - 1)) by (apply Z.pow_le_mono_r; lia). lia.
  - assert (2 ^ k <= 2 ^ (d - 1)) by (apply Z.pow_le_mono_r; lia). lia.
Qed.

Lemma shr_1_inexact (mrs : shr_record) :
  0 <= shr_m mrs ->
  inexact (shr_1 mrs) = inexact mrs || negb (shr_m mrs mod 2 =? 0).
Proof.
  destruct mrs as [m r s]; unfold inexact; cbn [shr_m shr_r shr_s]. intros Hm.
  destruct m as [|[p|p|]|p]; cbn [shr_1 shr_m shr_r shr_s]; try lia.
  - cbn. destruct r, s; reflexivity.
  - replace (Z.pos p~1 mod 2) with 1
      by (apply Z.mod_unique with (Z.pos p); lia).
    cbn. destruct r, s; reflexivity.
  - replace (Z.pos p~0 mod 2) with 0
      by (apply Z.mod_unique with (Z.pos p); lia).
    cbn. destruct r, s; reflexivity.
  - cbn. destruct r, s; reflexivity.
Qed.

Lemma mod_pow_split (m a b : Z) :
  0 <= m -> 0 <= a -> 0 <= b ->
  (m mod 2 ^ (a + b) =? 0) = (m mod 2 ^ a =? 0) && ((m / 2 ^ a) mod 2 ^ b =? 0).
Proof.
  intros Hm Ha Hb.
  assert (Pa : 0 < 2 ^ a) by (apply Z.pow_pos_nonneg; lia).
  assert (Pb : 0 < 2 ^ b) by (apply Z.pow_pos_nonneg; lia).
  rewrite Z.pow_add_r by lia.
  rewrite Z.rem_mul_r by lia.
  pose proof (Z.mod_pos_bound m (2 ^ a) Pa) as HX.
  pose proof (Z.mod_pos_bound (m / 2 ^ a) (2 ^ b) Pb) as HY.
  set (X := m mod 2 ^ a) in *. set (Y := (m / 2 ^ a) mod 2 ^ b) in *.
  assert (HP : 0 <= 2 ^ a * Y) by (apply Z.mul_nonneg_nonneg; lia).
  destruct (Z.eqb_spec X 0) as [EX|EX], (Z.eqb_spec Y 0) as [EY|EY]; cbn [andb].
  - apply Z.eqb_eq. rewrite EX, EY. lia.
  - apply Z.eqb_neq. intros H. assert (H0 : 2 ^ a * Y = 0) by lia.
    apply Z.mul_eq_0 in H0. lia.
  - apply Z.eqb_neq. lia.
  - apply Z.eqb_neq. lia.
Qed.

Lemma iter_pos_shr_1_inexact (p : positive) : forall mrs,
  0 <= shr_m mrs ->
  inexact (SpecFloat.iter_pos shr_1 p mrs)
  = inexact mrs || negb (shr_m mrs mod 2 ^ Z.pos p =? 0).
Proof.
  induction p as [p IH | p IH |]; intros mrs Hm; cbn [SpecFloat.iter_pos].
  - assert (H1 : 0 <= shr_m (shr_1 mrs)).
    { rewrite shr_1_m by exact Hm. apply Z.div_pos; lia. }
    assert (H2 : 0 <= shr_m (SpecFloat.iter_pos shr_1 p (shr_1 mrs))).
    { rewrite iter_pos_shr_1_m by exact H1. apply Z.div_pos; [exact H1|lia]. }
    rewrite IH by exact H2. rewrite IH by exact H1.
    rewrite iter_pos_shr_1_m by exact H1.
    rewrite shr_1_inexact by exact Hm. rewrite shr_1_m by exact Hm.
    replace (Z.pos p~1) with (1 + (Z.pos p + Z.pos p)) by lia.
    rewrite (mod_pow_split (shr_m mrs) 1 (Z.pos p + Z.pos p)) by lia.
    change (2 ^ 1) with 2.
    rewrite (mod_pow_split (shr_m mrs / 2) (Z.pos p) (Z.pos p)) by (try lia; apply Z.div_pos; lia).
    rewrite !negb_andb, !orb_assoc. reflexivity.
  - assert (H2 : 0 <= shr_m (SpecFloat.iter_pos shr_1 p mrs)).
    { rewrite iter_pos_shr_1_m by exact Hm. apply Z.div_pos; [exact Hm|lia]. }
    rewrite IH by exact H2. rewrite IH by exact Hm.
    rewrite iter_pos_shr_1_m by exact Hm.
    replace (Z.pos p~0) with (Z.pos p + Z.pos p) by lia.
    rewrite (mod_pow_split (shr_m mrs) (Z.pos p) (Z.pos p)) by lia.
    rewrite !negb_andb, !orb_assoc. reflexivity.
  - rewrite shr_1_inexact by exact Hm. reflexivity.
Qed.

Lemma round_nearest_even_cases (mrs : shr_record) :
  let m' := round_nearest_even (shr_m mrs) (loc_of_shr_record mrs) in
  m' = shr_m mrs \/ (m' = shr_m mrs + 1 /\ inexact mrs = true).
Proof.
  destruct mrs as [m [|] [|]]; unfold inexact; cbn; auto.
  destruct (Z.even m); auto.
Qed.

Lemma shr_fexp_exact_spec (m : positive) (e : Z) :
  let f := fexp prec emax (Z.pos (digits2_pos m) + e) in
  e <= f ->
  let r := shr_fexp prec emax (Z.pos m) e loc_Exact in
  shr_m (fst r) = Z.pos m / 2 ^ (f - e) /\ snd r = f /\
  inexact (fst r) = negb (Z.pos m mod 2 ^ (f - e) =? 0).
Proof.
  intros f Hf. unfold shr_fexp, shr. cbn [Zdigits2 shr_record_of_loc]. fold f.
  destruct (f - e) as [|p|p] eqn:Hn; cbn [fst snd]; try lia.
  - cbn [shr_m]. unfold inexact. cbn [shr_r shr_s].
    rewrite Z.div_1_r, Z.mod_1_r. repeat split. lia.
  - rewrite iter_pos_shr_1_m by (cbn; lia).
    rewrite iter_pos_shr_1_inexact by (cbn; lia).
    cbn [shr_m]. unfold inexact at 1. cbn [shr_r shr_s orb].
    repeat split. lia.
Qed.

Lemma shr_fexp_noop (m : positive) (e : Z) :
  fexp prec emax (Z.pos (digits2_pos m) + e) <= e ->
  shr_fexp prec emax (Z.pos m) e loc_Exact
  = (Build_shr_record (Z.pos m) false false, e).
Proof.
  intros Hf. unfold shr_fexp, shr. cbn [Zdigits2 shr_record_of_loc].
  destruct (fexp prec emax (Z.pos (digits2_pos m) + e) - e) as [|p|p] eqn:Hn;
    try reflexivity.
  lia.
Qed.

Lemma pow2_split (a b : Z) : 0 <= a -> 0 <= b -> 2 ^ (a + b) = 2 ^ a * 2 ^ b.
Proof. intros. apply Z.pow_add_r; assumption. Qed.

(** The outcome of rounding [m * 2^e] to a float: the mantissa is the
    quotient of the aligned significand, or one more when something
    nonzero was cut off, renormalised when that carries into a 54th
    bit. *)
Lemma binary_round_cases (s : bool) (m : positive) (e : Z) :
  -1074 <= e ->
  let f0 := fexp prec emax (Z.pos (digits2_pos m) + e) in
  let e0 := Z.min e f0 in
  let mz := Z.pos m * 2 ^ (e - e0) in
  let m1 := mz / 2 ^ (f0 - e0) in
  exists m2 e2,
    binary_round prec emax s m e
      = (if e2 <=? 971 then S754_finite s m2 e2 else S754_infinity s) /\
    ((e2 = f0 /\ Z.pos m2 < 2 ^ 53 /\
      (Z.pos m2 = m1 \/ (Z.pos m2 = m1 + 1 /\ mz mod 2 ^ (f0 - e0) <> 0))) \/
     (e2 = f0 + 1 /\ Z.pos m2 = 2 ^ 52 /\ m1 = 2 ^ 53 - 1 /\
      mz mod 2 ^ (f0 - e0) <> 0)).
Proof.
  intros He f0 e0 mz m1.
  pose proof (digits2_pos_bounds m) as [Dlo Dhi].
  set (dm := Z.pos (digits2_pos m)) in *.
  assert (Hdm : 1 <= dm) by (unfold dm; lia).
  assert (Hf0 : f0 = Z.max (dm + e - 53) (-1074)) by reflexivity.
  assert (He0 : e0 <= e /\ e0 <= f0 /\ -1074 <= e0) by (unfold e0; lia).
  (* alignment *)
  unfold binary_round. fold dm. fold f0.
  pose proof (shl_align_spec m e f0) as [Hz1 Hz2].
  destruct (shl_align m e f0) as [mz' ez']. cbn [fst snd] in Hz1, Hz2.
  fold e0 in Hz2. subst ez'.
  replace (Z.max 0 (e - f0)) with (e - e0) in Hz1 by (unfold e0; lia).
  fold mz in Hz1.
  assert (Pk : 0 < 2 ^ (e - e0)) by (apply Z.pow_pos_nonneg; lia).
  assert (Hdz : Z.pos (digits2_pos mz') = dm + (e - e0)).
  { apply digits2_pos_unique. rewrite Hz1. unfold mz.
    replace (dm + (e - e0) - 1) with ((dm - 1) + (e - e0)) by lia.
    rewrite !pow2_split by lia. nia. }
  pose proof (digits2_pos_bounds mz') as [Zlo Zhi]. rewrite Hdz, Hz1 in Zlo, Zhi.
  (* first shift *)
  unfold binary_round_aux.
  pose proof (shr_fexp_exact_spec mz' e0) as Hs1. cbv zeta in Hs1.
  rewrite Hdz in Hs1. replace (dm + (e - e0) + e0) with (dm + e) in Hs1 by lia.
  fold f0 in Hs1. specialize (Hs1 ltac:(lia)).
  destruct (shr_fexp prec emax (Z.pos mz') e0 loc_Exact) as [mrs' e'].
  cbn [fst snd] in Hs1. destruct Hs1 as (Hm1 & -> & Hinex).
  rewrite Hz1 in Hm1, Hinex. fold m1 in Hm1.
  set (n := f0 - e0) in *.
  assert (Hn : 0 <= n <= dm + (e - e0) - 1) by (unfold n; lia).
  assert (Pn : 0 < 2 ^ n) by (apply Z.pow_pos_nonneg; lia).
  assert (Hm1lo : 2 ^ (dm + (e - e0) - 1 - n) <= m1).
  { unfold m1. apply Z.div_le_lower_bound; [exact Pn|].
    rewrite Z.mul_comm, <- pow2_split by lia.
    replace (dm + (e - e0) - 1 - n + n) with (dm + (e - e0) - 1) by lia. exact Zlo. }
  assert (Hm1hi : m1 < 2 ^ (dm + (e - e0) - n)).
  { unfold m1. apply Z.div_lt_upper_bound; [exact Pn|].
    rewrite <- pow2_split by lia.
    replace (n + (dm + (e - e0) - n)) with (dm + (e - e0)) by lia. exact Zhi. }
  assert (Hm1pos : 1 <= m1).
  { assert (2 ^ 0 <= 2 ^ (dm + (e - e0) - 1 - n)) by (apply Z.pow_le_mono_r; lia).
    change (2 ^ 0) with 1 in *. lia. }
  assert (Hm1_53 : m1 < 2 ^ 53).
  { assert (2 ^ (dm + (e - e0) - n) <= 2 ^ 53) by (apply Z.pow_le_mono_r; unfold n; lia).
    lia. }
  (* rounding *)
  pose proof (round_nearest_even_cases mrs') as Hr. cbv zeta in Hr.
  set (m1' := round_nearest_even (shr_m mrs') (loc_of_shr_record mrs')) in *.
  rewrite Hm1 in Hr.
  assert (Hup : m1' = m1 \/ (m1' = m1 + 1 /\ mz mod 2 ^ n <> 0)).
  { destruct Hr as [Hr|[Hr Hi]]; [left; exact Hr|right].
    split; [exact Hr|]. rewrite Hinex in Hi.
    apply negb_true_iff in Hi. apply Z.eqb_neq in Hi. exact Hi. }
  clear Hr.
  destruct m1' as [|q|q] eqn:Hq; try lia.
  destruct (Z_lt_le_dec (Z.pos q) (2 ^ 53)) as [Hsmall|Hbig].
  - (* no carry *)
    pose proof (digits2_pos_bounds q) as [Qlo Qhi].
    assert (Hdq : Z.pos (digits2_pos q) <= 53).
    { destruct (Z_le_gt_dec (Z.pos (digits2_pos q)) 53) as [H|H]; [exact H|].
      assert (2 ^ 53 <= 2 ^ (Z.pos (digits2_pos q) - 1)) by (apply Z.pow_le_mono_r; lia).
      lia. }
    rewrite shr_fexp_noop
      by (unfold fexp, SpecFloat.emin, prec, emax; lia).
    cbn [shr_m]. change (emax - prec) with 971.
    exists q, f0. split; [reflexivity|]. left.
    split; [reflexivity|]. split; [exact Hsmall|]. exact Hup.
  - (* carry into the 54th bit *)
    assert (Hq53 : Z.pos q = 2 ^ 53) by lia.
    assert (Hm1eq : m1 = 2 ^ 53 - 1) by lia.
    assert (Hqe : q = (2 ^ 53)%positive) by (apply Pos2Z.inj; rewrite Hq53; reflexivity).
    subst q.
    unfold shr_fexp, shr. cbn [Zdigits2 shr_record_of_loc].
    change (Z.pos (digits2_pos (2 ^ 53))) with 54.
    replace (fexp prec emax (54 + f0) - f0) with 1
      by (unfold fexp, SpecFloat.emin, prec, emax; lia).
    cbn [SpecFloat.iter_pos]. change (emax - prec) with 971.
    change (shr_m (shr_1 {| shr_m := Z.pos (2 ^ 53); shr_r := false; shr_s := false |}))
      with (Z.pos (2 ^ 52)).
    cbv iota.
    exists (2 ^ 52)%positive, (f0 + 1). split; [reflexivity|]. right.
    split; [reflexivity|]. split; [reflexivity|]. split; [exact Hm1eq|].
    destruct Hup as [Hup|[_ Hup]]; [lia|exact Hup].
Qed.

(** A valid finite float: exponent range and normalisation. *)
Lemma valid_finite_range (s : bool) (m : positive) (e : Z) :
  is_float (S754_finite s m e) ->
  -1074 <= e <= 971 /\ Z.pos m < 2 ^ 53 /\ (-1074 < e -> 2 ^ 52 <= Z.pos m).
Proof.
  intros H. pose proof (valid_finite_bounds s m e H) as (H1 & H2 & H3).
  unfold is_float, valid_binary, bounded in H.
  apply andb_prop in H as [_ H]. apply Z.leb_le in H.
  change (emax - prec) with 971 in H. repeat split; assumption || lia.
Qed.

Section RoundBounds.

Variables (s : bool) (m : positive) (e : Z).
Variables (my : positive) (ey : Z).
Hypothesis y_range :
  -1074 <= ey <= 971 /\ Z.pos my < 2 ^ 53 /\ (-1074 < ey -> 2 ^ 52 <= Z.pos my).
Hypothesis e_low : -1074 <= e.
Hypothesis e_le : e <= ey.

(** Rounding does not go below a float that the exact value reaches. *)
Lemma binary_round_ge :
  Z.pos my * 2 ^ (ey - e) <= Z.pos m ->
  binary_round prec emax s m e = S754_infinity s \/
  exists m2 e2,
    binary_round prec emax s m e = S754_finite s m2 e2 /\
    (ey < e2 \/ (ey = e2 /\ Z.pos my <= Z.pos m2)).
Proof.
  intros Hval. destruct y_range as ([Hey1 Hey2] & Hmy & Hnorm).
  pose proof (digits2_pos_bounds m) as [Dlo Dhi].
  set (dm := Z.pos (digits2_pos m)) in *.
  destruct (binary_round_cases s m e e_low) as (m2 & e2 & Hres & Hcases).
  cbv zeta in Hcases. fold dm in Hcases.
  set (f0 := fexp prec emax (dm + e)) in *.
  assert (Hf0 : f0 = Z.max (dm + e - 53) (-1074)) by reflexivity.
  assert (Pk : 0 < 2 ^ (ey - e)) by (apply Z.pow_pos_nonneg; lia).
  assert (Hle : ey <= f0).
  { destruct (Z.eq_dec ey (-1074)) as [->|Hne]; [lia|].
    specialize (Hnorm ltac:(lia)).
    assert (H1 : 2 ^ (52 + (ey - e)) <= Z.pos m).
    { rewrite pow2_split by lia. nia. }
    assert (H2 : 52 + (ey - e) < dm).
    { apply (Z.pow_lt_mono_r_iff 2); lia. }
    lia. }
  replace (Z.min e f0) with e in Hcases by lia.
  replace (e - e) with 0 in Hcases by lia.
  change (2 ^ 0) with 1 in Hcases. rewrite Z.mul_1_r in Hcases.
  destruct (e2 <=? 971) eqn:Hfin; [|left; exact Hres].
  right. exists m2, e2. split; [exact Hres|].
  destruct Hcases as [(-> & _ & Hm2)|(-> & _ & _)]; [|left; lia].
  destruct (Z.eq_dec ey f0) as [Heq|Hne]; [|left; lia].
  right. split; [exact Heq|].
  assert (Hq : Z.pos my <= Z.pos m / 2 ^ (f0 - e)).
  { apply Z.div_le_lower_bound; [apply Z.pow_pos_nonneg; lia|].
    rewrite <- Heq. lia. }
  destruct Hm2 as [Hm2|[Hm2 _]]; lia.
Qed.

(** Rounding does not go above a float that bounds the exact value. *)
Lemma binary_round_le :
  Z.pos m <= Z.pos my * 2 ^ (ey - e) ->
  exists m2 e2,
    binary_round prec emax s m e = S754_finite s m2 e2 /\
    (e2 < ey \/ (e2 = ey /\ Z.pos m2 <= Z.pos my)).
Proof.
  intros Hval. destruct y_range as ([Hey1 Hey2] & Hmy & Hnorm).
  pose proof (digits2_pos_bounds m) as [Dlo Dhi].
  set (dm := Z.pos (digits2_pos m)) in *.
  destruct (binary_round_cases s m e e_low) as (m2 & e2 & Hres & Hcases).
  cbv zeta in Hcases. fold dm in Hcases.
  set (f0 := fexp prec emax (dm + e)) in *.
  assert (Hf0 : f0 = Z.max (dm + e - 53) (-1074)) by reflexivity.
  assert (Pk : 0 < 2 ^ (ey - e)) by (apply Z.pow_pos_nonneg; lia).
  assert (Hle : f0 <= ey).
  { assert (H1 : Z.pos m < 2 ^ (53 + (ey - e))).
    { rewrite pow2_split by lia. nia. }
    assert (H2 : dm - 1 < 53 + (ey - e)).
    { apply (Z.pow_lt_mono_r_iff 2); lia. }
    lia. }
  assert (Hfinite : e2 <= ey ->
            binary_round prec emax s m e = S754_finite s m2 e2).
  { intros H. rewrite Hres.
    destruct (e2 <=? 971) eqn:E; [reflexivity|]. apply Z.leb_gt in E. lia. }
  destruct (Z.eq_dec f0 ey) as [Heq|Hne].
  - (* the exact value is in the binade of [y] *)
    replace (Z.min e f0) with e in Hcases by lia.
    replace (e - e) with 0 in Hcases by lia.
    change (2 ^ 0) with 1 in Hcases. rewrite Z.mul_1_r in Hcases.
    rewrite Heq in Hcases.
    assert (Hq : Z.pos m / 2 ^ (ey - e) <= Z.pos my).
    { apply Z.lt_succ_r. apply Z.div_lt_upper_bound; [exact Pk|]. lia. }
    assert (Hstrict : Z.pos m mod 2 ^ (ey - e) <> 0 ->
                      Z.pos m / 2 ^ (ey - e) + 1 <= Z.pos my).
    { intros Hmod.
      assert (Hne : Z.pos m <> Z.pos my * 2 ^ (ey - e)).
      { intros E. apply Hmod. rewrite E. apply Z.mod_mul. lia. }
      assert (Z.pos m / 2 ^ (ey - e) < Z.pos my); [|lia].
      apply Z.div_lt_upper_bound; [exact Pk|]. lia. }
    destruct Hcases as [(-> & _ & Hm2)|(-> & _ & Hm1 & Hmod)].
    + exists m2, ey. split; [apply Hfinite; lia|]. right.
      split; [reflexivity|]. destruct Hm2 as [Hm2|[Hm2 Hmod]];
        [lia|specialize (Hstrict Hmod); lia].
    + specialize (Hstrict Hmod). lia.
  - destruct Hcases as [(-> & _ & _)|(-> & Hm2 & _ & _)].
    + exists m2, f0. split; [apply Hfinite; lia|]. left. lia.
    + exists m2, (f0 + 1). split; [apply Hfinite; lia|].
      destruct (Z.eq_dec (f0 + 1) ey) as [E|E]; [|left; lia].
      right. split; [exact E|]. rewrite Hm2. apply Hnorm. lia.
Qed.

End RoundBounds.

Lemma shr_fexp_general (m e : Z) (l : location) :
  0 <= m ->
  0 <= shr_m (fst (shr_fexp prec emax m e l)) <= m /\
  (0 < m -> -1074 <= snd (shr_fexp prec emax m e l)).
Proof.
  intros Hm. unfold shr_fexp, shr.
  pose proof (fexp_ge_emin (Zdigits2 m + e)) as Hf.
  destruct (fexp prec emax (Zdigits2 m + e) - e) as [|p|p] eqn:Hn;
    cbn [fst snd]; rewrite ?shr_m_of_loc; try (split; lia).
  rewrite iter_pos_shr_1_m by (rewrite shr_m_of_loc; exact Hm).
  rewrite shr_m_of_loc.
  assert (Pp : 0 < 2 ^ Z.pos p) by (apply Z.pow_pos_nonneg; lia).
  split; [|lia]. split; [apply Z.div_pos; lia|].
  apply Z.div_le_upper_bound; [exact Pp|]. nia.
Qed.

Lemma binary_round_aux_shape (s : bool) (m e : Z) (l : location) :
  0 < m ->
  binary_round_aux prec emax s m e l = S754_zero s \/
  binary_round_aux prec emax s m e l = S754_infinity s \/
  exists m2 e2,
    binary_round_aux prec emax s m e l = S754_finite s m2 e2 /\ -1074 <= e2.
Proof.
  intros Hm. unfold binary_round_aux.
  pose proof (shr_fexp_general m e l ltac:(lia)) as [[H1 _] H2].
  specialize (H2 Hm).
  destruct (shr_fexp prec emax m e l) as [mrs' e']. cbn [fst snd] in H1, H2.
  pose proof (round_nearest_even_ge (shr_m mrs') (loc_of_shr_record mrs')) as Hr.
  set (m1' := round_nearest_even (shr_m mrs') (loc_of_shr_record mrs')) in *.
  pose proof (shr_fexp_general m1' e' loc_Exact ltac:(lia)) as [[H3 H4] H5].
  destruct (shr_fexp prec emax m1' e' loc_Exact) as [mrs'' e''].
  cbn [fst snd] in H3, H4, H5.
  destruct (shr_m mrs'') as [|q|q]; [left; reflexivity| |lia].
  right. destruct (e'' <=? emax - prec); [right|left; reflexivity].
  exists q, e''. split; [reflexivity|]. lia.
Qed.

Lemma binary_round_shape (s : bool) (m : positive) (e : Z) :
  -1074 <= e ->
  binary_round prec emax s m e = S754_infinity s \/
  exists m2 e2,
    binary_round prec emax s m e = S754_finite s m2 e2 /\ -1074 <= e2.
Proof.
  intros He. destruct (binary_round_cases s m e He) as (m2 & e2 & Hres & Hc).
  cbv zeta in Hc.
  pose proof (fexp_ge_emin (Z.pos (digits2_pos m) + e)) as Hf.
  rewrite Hres. destruct (e2 <=? 971); [right|left; reflexivity].
  exists m2, e2. split; [reflexivity|].
  destruct Hc as [(-> & _)|(-> & _)]; lia.
Qed.

Lemma unit_float_shape (k : N) : nonneg_shape (unit_float k).
Proof.
  unfold unit_float, binary_normalize.
  pose proof (Z.mod_pos_bound (Z.of_N k) (2 ^ 53) ltac:(lia)) as Hk.
  destruct (Z.of_N k mod 2 ^ 53) as [|p|p]; [exact I| |lia].
  destruct (binary_round_shape false p (-53) ltac:(lia))
    as [->|(m2 & e2 & -> & He2)]; cbn; auto.
Qed.

Lemma fmul_shape (d r : float) :
  nonneg_shape d -> nonneg_shape r -> nonneg_shape (fmul d r).
Proof.
  unfold fmul.
  destruct d as [sd|sd| |sd md ed], r as [sr|sr| |sr mr er]; cbn [SFmul nonneg_shape];
    try (intros; exact I);
    try (intros -> ->; reflexivity);
    try (intros -> [-> _]; reflexivity);
    try (intros [-> _] ->; reflexivity).
  intros [-> _] [-> _]. cbn [xorb].
  destruct (binary_round_aux_shape false (Z.pos (md * mr)) (ed + er) loc_Exact
              ltac:(lia)) as [->|[->|(m2 & e2 & -> & He2)]]; cbn; auto.
Qed.

Lemma fle_finite_pos (m1 m2 : positive) (e1 e2 : Z) :
  fle (S754_finite false m1 e1) (S754_finite false m2 e2) = true <->
  e1 < e2 \/ (e1 = e2 /\ Z.pos m1 <= Z.pos m2).
Proof.
  unfold fle, SFleb. cbn [SFcompare].
  change (Pos.compare_cont Eq m1 m2) with (Pos.compare m1 m2).
  destruct (Z.compare_spec e1 e2); [destruct (Pos.compare_spec m1 m2)| |];
    split; intros H'; try reflexivity; try discriminate; try lia.
Qed.

Lemma fle_finite_neg (m1 m2 : positive) (e1 e2 : Z) :
  fle (S754_finite true m1 e1) (S754_finite true m2 e2) = true <->
  e2 < e1 \/ (e2 = e1 /\ Z.pos m2 <= Z.pos m1).
Proof.
  unfold fle, SFleb. cbn [SFcompare].
  change (Pos.compare_cont Eq m1 m2) with (Pos.compare m1 m2).
  destruct (Z.compare_spec e1 e2); [destruct (Pos.compare_spec m1 m2)| |];
    cbn [CompOpp]; split; intros H'; try reflexivity; try discriminate; try lia.
Qed.

(** For valid floats the order on (exponent, mantissa) is the order of
    the aligned mantissas. *)
Lemma lex_aligned (s1 s2 : bool) (m1 m2 : positive) (e1 e2 : Z) :
  is_float (S754_finite s1 m1 e1) -> is_float (S754_finite s2 m2 e2) ->
  e1 < e2 \/ (e1 = e2 /\ Z.pos m1 <= Z.pos m2) ->
  Z.pos (fst (shl_align m1 e1 (Z.min e1 e2)))
  <= Z.pos (fst (shl_align m2 e2 (Z.min e1 e2))).
Proof.
  intros V1 V2 Hlex.
  apply valid_finite_range in V1 as (R1 & B1 & N1).
  apply valid_finite_range in V2 as (R2 & B2 & N2).
  pose proof (shl_align_spec m1 e1 (Z.min e1 e2)) as [-> _].
  pose proof (shl_align_spec m2 e2 (Z.min e1 e2)) as [-> _].
  destruct Hlex as [Hlt|[-> Hm]].
  - replace (Z.max 0 (e1 - Z.min e1 e2)) with 0 by lia.
    replace (Z.max 0 (e2 - Z.min e1 e2)) with (e2 - e1) by lia.
    change (2 ^ 0) with 1. rewrite Z.mul_1_r.
    assert (2 ^ 1 <= 2 ^ (e2 - e1)) by (apply Z.pow_le_mono_r; lia).
    change (2 ^ 1) with 2 in *. specialize (N2 ltac:(lia)).
    change (2 ^ 53) with (2 * 2 ^ 52) in B1. nia.
  - replace (Z.max 0 (e2 - Z.min e2 e2)) with 0 by lia.
    change (2 ^ 0) with 1. lia.
Qed.

Lemma fsub_shape (a b : float) :
  finite_float a -> finite_float b -> fle a b = true ->
  nonneg_shape (fsub b a).
Proof.
  intros [Va Fa] [Vb Fb] Hle. unfold fsub.
  destruct a as [sa|sa| |sa ma ea]; try contradiction;
    destruct b as [sb|sb| |sb mb eb]; try contradiction.
  - cbn. destruct sb, sa; exact I.
  - cbn [SFsub]. destruct sb; cbn in Hle; [discriminate|].
    apply valid_finite_range in Vb as (R & _). cbn. split; [reflexivity|lia].
  - cbn [SFsub]. destruct sa; cbn in Hle; [|discriminate].
    apply valid_finite_range in Va as (R & _). cbn. split; [reflexivity|lia].
  - cbn [SFsub].
    pose proof (valid_finite_range _ _ _ Va) as (Ra & _).
    pose proof (valid_finite_range _ _ _ Vb) as (Rb & _).
    set (ez := Z.min eb ea).
    set (xb := Z.pos (fst (shl_align mb eb ez))).
    set (xa := Z.pos (fst (shl_align ma ea ez))).
    assert (Hpos : 0 < xb /\ 0 < xa) by (unfold xb, xa; lia).
    assert (HM : 0 <= cond_Zopp sb xb - cond_Zopp sa xa).
    { destruct sa, sb; cbn [cond_Zopp].
      - apply fle_finite_neg in Hle.
        pose proof (lex_aligned true true mb ma eb ea Vb Va Hle) as H.
        fold ez in H. fold xb in H. fold xa in H. lia.
      - lia.
      - cbn in Hle. discriminate.
      - apply fle_finite_pos in Hle.
        pose proof (lex_aligned false false ma mb ea eb Va Vb Hle) as H.
        rewrite (Z.min_comm ea eb) in H.
        fold ez in H. fold xb in H. fold xa in H. lia. }
    unfold binary_normalize.
    destruct (cond_Zopp sb xb - cond_Zopp sa xa) as [|q|q]; [exact I| |lia].
    destruct (binary_round_shape false q ez ltac:(unfold ez; lia))
      as [->|(m2 & e2 & -> & He2)]; cbn; auto.
Qed.

(** Adding a non-negative number to a float does not give less. *)
Lemma fadd_lower (a t : float) :
  finite_float a -> nonneg_shape t -> is_nan (fadd a t) = false ->
  fle a (fadd a t) = true.
Proof.
  intros [Va Fa] Ht Hnan. unfold fadd in *.
  destruct a as [sa|sa| |sa ma ea]; try contradiction;
    destruct t as [st|st| |st mt et]; cbn [nonneg_shape] in Ht;
    try discriminate Hnan.
  - cbn. destruct sa, st; reflexivity.
  - subst st. cbn. reflexivity.
  - destruct Ht as [-> _]. cbn. reflexivity.
  - cbn [SFadd]. apply fle_refl. reflexivity.
  - subst st. cbn. reflexivity.
  - destruct Ht as [-> Het]. cbn [SFadd] in *.
    pose proof (valid_finite_range _ _ _ Va) as Ra.
    set (ez := Z.min ea et) in *.
    pose proof (shl_align_spec ma ea ez) as [Hxa _].
    pose proof (shl_align_spec mt et ez) as [Hxt _].
    set (xa := Z.pos (fst (shl_align ma ea ez))) in *.
    set (xt := Z.pos (fst (shl_align mt et ez))) in *.
    replace (Z.max 0 (ea - ez)) with (ea - ez) in Hxa by (unfold ez; lia).
    assert (Hpos : 0 < xa /\ 0 < xt) by (unfold xa, xt; lia).
    assert (Hez : -1074 <= ez <= ea) by (unfold ez; lia).
    cbn [cond_Zopp]. unfold binary_normalize.
    destruct sa; cbn [cond_Zopp].
    + (* a negative *)
      destruct (- xa + xt) as [|q|q] eqn:HM.
      * reflexivity.
      * destruct (binary_round_shape false q ez ltac:(lia))
          as [->|(m2 & e2 & -> & _)]; reflexivity.
      * destruct (binary_round_le true q ez ma ea Ra ltac:(lia) ltac:(lia))
          as (m2 & e2 & -> & Hlex); [lia|].
        apply fle_finite_neg. exact Hlex.
    + (* a positive *)
      destruct (xa + xt) as [|q|q] eqn:HM; try lia.
      destruct (binary_round_ge false q ez ma ea Ra ltac:(lia) ltac:(lia))
        as [->|(m2 & e2 & -> & Hlex)]; [lia|reflexivity|].
      apply fle_finite_pos. exact Hlex.
Qed.

(** [uniform(a, b)] does not fall below [a] when [a <= b]. *)
Lemma uniform_at_lower (a b : float) (k : N) :
  finite_float a -> finite_float b -> fle a b = true ->
  is_nan (uniform_at a b k) = false ->
  fle a (uniform_at a b k) = true.
Proof.
  intros Ha Hb Hab Hnan. unfold uniform_at in *.
  apply fadd_lower; [exact Ha| |exact Hnan].
  apply fmul_shape; [apply fsub_shape; assumption|apply unit_float_shape].
Qed.

(** ** The membership test *)

Section PointInPolygon.

Variables lat lon : float.

(** No float lies strictly above and at most at the same bound: an
    edge whose endpoints have equal longitude fails the guards. *)
Lemma equal_longitude_out_of_range (p1 p2 : point) :
  equal_longitude p1 p2 = true -> in_lon_range lon p1 p2 = false.
Proof.
  unfold equal_longitude, in_lon_range. intros Heq.
  rewrite (feq_py_min _ _ Heq), (feq_py_max _ _ Heq).
  unfold fgt. fold (flt (snd p1) lon).
  destruct (flt (snd p1) lon) eqn:Hlt; [|reflexivity].
  rewrite (flt_not_fle _ _ Hlt). reflexivity.
Qed.

Lemma in_range_lon_differ (p1 p2 : point) :
  in_lon_range lon p1 p2 = true -> fne (snd p1) (snd p2) = true.
Proof.
  intros Hr. unfold fne. fold (feq (snd p1) (snd p2)).
  destruct (feq (snd p1) (snd p2)) eqn:Heq; [|reflexivity].
  rewrite (equal_longitude_out_of_range p1 p2 Heq) in Hr. discriminate.
Qed.

(** Outside the guards the step changes nothing. *)
Lemma edge_step_unexamined (p1 p2 : point) (inside : bool)
    (xinters : option float) :
  edge_examined lat lon p1 p2 = false ->
  edge_step lat lon p1 p2 inside xinters = inr (inside, xinters).
Proof.
  unfold edge_examined, in_lon_range, edge_step.
  destruct p1 as [p1_lat p1_lon], p2 as [p2_lat p2_lon]; cbn [fst snd].
  destruct (fgt lon (py_min p1_lon p2_lon)); [|reflexivity].
  destruct (fle lon (py_max p1_lon p2_lon)); [|reflexivity].
  destruct (fle lat (py_max p1_lat p2_lat)); [discriminate|reflexivity].
Qed.

(** Under the guards the step divides by a nonzero number, assigns
    [xinters] and decides the toggle from the fresh value. *)
Lemma edge_step_examined (p1 p2 : point) (inside : bool)
    (xinters : option float) :
  valid_point p1 -> valid_point p2 ->
  edge_examined lat lon p1 p2 = true ->
  exists q,
    fdiv (fmul (fsub lon (snd p1)) (fsub (fst p2) (fst p1)))
         (fsub (snd p2) (snd p1)) = inr q /\
    edge_step lat lon p1 p2 inside xinters =
      inr (if equal_latitude p1 p2 || fle lat (fadd q (fst p1))
           then negb inside else inside,
           Some (fadd q (fst p1))).
Proof.
  intros [_ Hv1] [_ Hv2] Hex.
  unfold edge_examined in Hex. apply andb_prop in Hex as [Hr Hlat].
  pose proof (in_range_lon_differ p1 p2 Hr) as Hne.
  pose proof (fsub_nonzero (snd p2) (snd p1) Hv2 Hv1 Hne) as Hnz.
  unfold in_lon_range in Hr. apply andb_prop in Hr as [Hr1 Hr2].
  unfold equal_latitude, edge_step.
  destruct p1 as [p1_lat p1_lon], p2 as [p2_lat p2_lon]; cbn [fst snd] in *.
  rewrite Hr1, Hr2, Hlat, Hne. unfold fdiv. rewrite Hnz.
  eexists; split; [reflexivity|]. cbn [rbind].
  destruct (feq p1_lat p2_lat); reflexivity.
Qed.

(** The outcome of a step never depends on the value [xinters] held
    before it. *)
Lemma edge_step_total (p1 p2 : point) (inside : bool) :
  valid_point p1 -> valid_point p2 ->
  exists inside',
    forall xinters, exists xinters',
      edge_step lat lon p1 p2 inside xinters = inr (inside', xinters').
Proof.
  intros Hv1 Hv2.
  destruct (edge_examined lat lon p1 p2) eqn:Hex.
  - destruct (edge_step_examined p1 p2 inside None Hv1 Hv2 Hex) as (q & Hq & _).
    exists (if equal_latitude p1 p2 || fle lat (fadd q (fst p1))
            then negb inside else inside).
    intros xinters.
    destruct (edge_step_examined p1 p2 inside xinters Hv1 Hv2 Hex)
      as (q' & Hq' & Hstep).
    assert (q' = q) by congruence. subst q'.
    eexists. exact Hstep.
  - exists inside. intros xinters. exists xinters.
    apply edge_step_unexamined. exact Hex.
Qed.

Lemma polygon_lookup_mod (polygon : list point) (i : nat) :
  polygon <> [] -> Forall valid_point polygon ->
  exists p, polygon !! (i mod length polygon)%nat = Some p /\ valid_point p.
Proof.
  intros Hne Hall.
  assert (Hlen : (length polygon <> 0)%nat) by (destruct polygon; cbn; congruence).
  pose proof (Nat.mod_upper_bound i (length polygon) Hlen) as Hlt.
  destruct (lookup_lt_is_Some_2 polygon _ Hlt) as [p Hp].
  exists p. split; [exact Hp|].
  rewrite Forall_forall in Hall. apply Hall.
  eapply list_elem_of_lookup_2. exact Hp.
Qed.

Lemma pip_loop_total (polygon : list point) (idxs : list nat) :
  polygon <> [] -> Forall valid_point polygon ->
  forall inside xinters p1, valid_point p1 ->
  exists b, pip_loop lat lon polygon idxs inside xinters p1 = inr b.
Proof.
  intros Hne Hall.
  induction idxs as [|i idxs IH]; intros inside xinters p1 Hp1; cbn [pip_loop].
  - eexists; reflexivity.
  - destruct (polygon_lookup_mod polygon i Hne Hall) as (p2 & Hp2 & Hv2).
    rewrite Hp2.
    destruct (edge_step_total p1 p2 inside Hp1 Hv2) as (inside' & Hstep).
    destruct (Hstep xinters) as (xinters' & ->). cbn [rbind fst snd].
    apply IH. exact Hv2.
Qed.

(** Deleting the toggles of the equal-longitude edges changes
    nothing: such an edge is never examined. *)
Lemma pip_loop_without_equal_longitude (polygon : list point)
    (idxs : list nat) :
  forall inside xinters p1,
    pip_loop_without equal_longitude lat lon polygon idxs inside xinters p1
    = pip_loop lat lon polygon idxs inside xinters p1.
Proof.
  induction idxs as [|i idxs IH]; intros inside xinters p1;
    cbn [pip_loop pip_loop_without]; [reflexivity|].
  destruct (polygon !! (i mod length polygon)%nat) as [p2|]; [|reflexivity].
  destruct (equal_longitude p1 p2) eqn:Heq.
  - rewrite edge_step_unexamined.
    + cbn [rbind fst snd]. apply IH.
    + unfold edge_examined.
      rewrite (equal_longitude_out_of_range p1 p2 Heq). reflexivity.
  - destruct (edge_step lat lon p1 p2 inside xinters) as [e|st];
      cbn [rbind]; [reflexivity|apply IH].
Qed.

End PointInPolygon.

(** On a polygon with a vertex the test returns a boolean. *)
Lemma point_in_polygon_returns (pt : point) (polygon : list point) :
  polygon <> [] -> Forall valid_point polygon ->
  exists b, _point_in_polygon pt polygon = inr b.
Proof.
  intros Hne Hall. destruct pt as [lat lon]. unfold _point_in_polygon.
  destruct polygon as [|p0 polygon']; [congruence|]. cbn [lookup list_lookup].
  apply pip_loop_total; [exact Hne|exact Hall|].
  inversion Hall; assumption.
Qed.

(** C10.  The membership test returns a boolean on every non-empty
    polygon and every candidate point.  In an iteration that gets past
    the three guards the two longitudes differ, the divisor
    [p2_lon - p1_lon] is not zero, the division yields a number and
    [xinters] is assigned before it is read; in every other iteration
    nothing is divided and [xinters] is not read. *)
Theorem point_in_polygon_total (pt : point) (polygon : list point) :
  polygon <> [] -> Forall valid_point polygon ->
  (exists b, _point_in_polygon pt polygon = inr b) /\
  (forall p1 p2 inside xinters,
      valid_point p1 -> valid_point p2 ->
      edge_examined (fst pt) (snd pt) p1 p2 = true ->
      fne (snd p1) (snd p2) = true /\
      is_zero (fsub (snd p2) (snd p1)) = false /\
      exists q inside',
        fdiv (fmul (fsub (snd pt) (snd p1)) (fsub (fst p2) (fst p1)))
             (fsub (snd p2) (snd p1)) = inr q /\
        edge_step (fst pt) (snd pt) p1 p2 inside xinters =
          inr (inside', Some (fadd q (fst p1)))) /\
  (forall p1 p2 inside xinters,
      edge_examined (fst pt) (snd pt) p1 p2 = false ->
      edge_step (fst pt) (snd pt) p1 p2 inside xinters = inr (inside, xinters)).
Proof.
  intros Hne Hall. split; [|split].
  - apply point_in_polygon_returns; assumption.
  - intros p1 p2 inside xinters Hv1 Hv2 Hex.
    assert (Hne12 : fne (snd p1) (snd p2) = true).
    { apply in_range_lon_differ with (lon := snd pt).
      unfold edge_examined in Hex. apply andb_prop in Hex as [Hr _]. exact Hr. }
    split; [exact Hne12|]. split.
    + apply fsub_nonzero; [apply Hv2|apply Hv1|exact Hne12].
    + destruct (edge_step_examined (fst pt) (snd pt) p1 p2 inside xinters
                  Hv1 Hv2 Hex) as (q & Hq & Hstep).
      exists q. eexists. split; [exact Hq|exact Hstep].
  - intros p1 p2 inside xinters Hex. apply edge_step_unexamined. exact Hex.
Qed.

Lemma unit_square_valid : Forall valid_point unit_square.
Proof. repeat constructor. Qed.

Lemma point_in_polygon_total_witness :
  exists b, _point_in_polygon centre unit_square = inr b.
Proof.
  apply (point_in_polygon_total centre unit_square).
  - discriminate.
  - exact unit_square_valid.
Defined.

(** C2, as stated, fails: in the unit square the edge from (1, 1) to
    (1, 0) has equal latitudes, and deleting its toggle turns the
    answer for the centre from inside to outside. *)
Lemma equal_latitude_edge_contributes :
  _point_in_polygon centre unit_square = inr true /\
  point_in_polygon_without equal_latitude centre unit_square = inr false.
Proof. split; vm_compute; reflexivity. Qed.

(** C2, amended.  The ray of the test runs along the latitude axis, so
    the edges that contribute nothing are those whose endpoints have
    equal longitude: such an edge leaves the state as it is and deleting
    its toggle never changes the result.  An edge with equal latitudes
    that passes the guards always toggles. *)
Theorem equal_longitude_edge_non_contributing (pt : point)
    (polygon : list point) :
  point_in_polygon_without equal_longitude pt polygon
    = _point_in_polygon pt polygon /\
  (forall p1 p2 inside xinters,
      equal_longitude p1 p2 = true ->
      edge_step (fst pt) (snd pt) p1 p2 inside xinters
        = inr (inside, xinters)) /\
  (forall p1 p2 inside xinters,
      valid_point p1 -> valid_point p2 ->
      equal_latitude p1 p2 = true ->
      edge_examined (fst pt) (snd pt) p1 p2 = true ->
      exists x, edge_step (fst pt) (snd pt) p1 p2 inside xinters
                = inr (negb inside, Some x)).
Proof.
  destruct pt as [lat lon]. cbn [fst snd]. split; [|split].
  - unfold point_in_polygon_without, _point_in_polygon. cbn [fst snd].
    destruct (polygon !! 0%nat); [|reflexivity].
    apply pip_loop_without_equal_longitude.
  - intros p1 p2 inside xinters Heq. apply edge_step_unexamined.
    unfold edge_examined.
    rewrite (equal_longitude_out_of_range lon p1 p2 Heq). reflexivity.
  - intros p1 p2 inside xinters Hv1 Hv2 Heq Hex.
    destruct (edge_step_examined lat lon p1 p2 inside xinters Hv1 Hv2 Hex)
      as (q & _ & Hstep).
    rewrite Heq in Hstep. cbn [orb] in Hstep. eexists. exact Hstep.
Qed.

Lemma equal_longitude_edge_non_contributing_witness :
  exists x,
    edge_step (fst centre) (snd centre)
      (float_of_Z 1, float_of_Z 1) (float_of_Z 1, float_of_Z 0) false None
    = inr (negb false, Some x).
Proof.
  apply (equal_longitude_edge_non_contributing centre unit_square).
  - split; reflexivity.
  - split; reflexivity.
  - vm_compute. reflexivity.
  - vm_compute. reflexivity.
Defined.

(** When the loop of the test changes its answer, some edge of the
    polygon passed the three guards. *)
Lemma pip_loop_examined (lat lon : float) (polygon : list point)
    (idxs : list nat) : forall inside xinters p1 b,
  pip_loop lat lon polygon idxs inside xinters p1 = inr b ->
  b <> inside ->
  exists q1 q2, (q1 = p1 \/ In q1 polygon) /\ In q2 polygon /\
                edge_examined lat lon q1 q2 = true.
Proof.
  induction idxs as [|i idxs IH]; intros inside xinters p1 b Hrun Hb;
    cbn [pip_loop] in Hrun.
  - congruence.
  - destruct (polygon !! (i mod length polygon)%nat) as [p2|] eqn:Hp2;
      [|discriminate].
    assert (Hin2 : In p2 polygon).
    { apply list_elem_of_In. eapply list_elem_of_lookup_2. exact Hp2. }
    destruct (edge_examined lat lon p1 p2) eqn:Hex.
    + exists p1, p2. split; [left; reflexivity|]. split; assumption.
    + rewrite (edge_step_unexamined lat lon p1 p2 inside xinters Hex) in Hrun.
      cbn [rbind fst snd] in Hrun.
      destruct (IH inside xinters p2 b Hrun Hb) as (q1 & q2 & Hq1 & Hq2 & Hq).
      exists q1, q2. split; [|split; assumption].
      right. destruct Hq1 as [->|Hq1]; assumption.
Qed.

Lemma point_in_polygon_examined (pt : point) (polygon : list point) :
  _point_in_polygon pt polygon = inr true ->
  exists q1 q2, In q1 polygon /\ In q2 polygon /\
                edge_examined (fst pt) (snd pt) q1 q2 = true.
Proof.
  destruct pt as [lat lon]. unfold _point_in_polygon. cbn [fst snd].
  destruct (polygon !! 0%nat) as [p1|] eqn:Hp1; [|discriminate].
  intros Hrun.
  destruct (pip_loop_examined lat lon polygon _ false None p1 true Hrun
              ltac:(discriminate)) as (q1 & q2 & Hq1 & Hq2 & Hq).
  exists q1, q2. split; [|split; assumption].
  destruct Hq1 as [->|Hq1]; [|exact Hq1].
  apply list_elem_of_In. eapply list_elem_of_lookup_2. exact Hp1.
Qed.

(** ** The zone sampler *)

Lemma random_uniform_eq (a b : float) (w : world) :
  random_uniform a b w = (inr (uniform_at a b (draws w (cursor w))), advance w 1).
Proof.
  unfold random_uniform, random_random, next_raw, bind, ret, advance,
    uniform_at, unit_float.
  f_equal. f_equal. lia.
Qed.

Lemma advance_advance (w : world) (n m : nat) :
  advance (advance w n) m = advance w (n + m).
Proof. unfold advance; cbn. f_equal. lia. Qed.

Section RetryLoop.

Variable bounds : list point.
Variable bx : box.

Let retry (k : nat) : M world (option point) :=
  retry_loop k (min_lat bx) (max_lat bx) (min_lon bx) (max_lon bx) bounds.

Lemma candidate_shift (w : world) (j : nat) :
  candidate bx (advance w 2) j = candidate bx w (S j).
Proof.
  unfold candidate, advance; cbn [draws cursor].
  replace (cursor w + 2 + 2 * j)%nat with (cursor w + 2 * S j)%nat by lia.
  reflexivity.
Qed.

(** One round of the loop. *)
Lemma retry_loop_step (k : nat) (w : world) :
  retry (S k) w =
    match _point_in_polygon (candidate bx w 0) bounds with
    | inl e => (inl e, advance w 2)
    | inr true => (inr (Some (candidate bx w 0)), advance w 2)
    | inr false => retry k (advance w 2)
    end.
Proof.
  unfold retry. cbn [retry_loop]. unfold bind at 1.
  rewrite random_uniform_eq. unfold bind at 1.
  rewrite random_uniform_eq. rewrite advance_advance.
  change (1 + 1)%nat with 2%nat.
  unfold bind, lift, candidate.
  change (cursor (advance w 1)) with (cursor w + 1)%nat.
  rewrite Nat.mul_0_r, !Nat.add_0_r.
  destruct (_point_in_polygon _ bounds) as [e|[|]]; reflexivity.
Qed.

(** Whatever the loop returns from inside passed the test. *)
Lemma retry_loop_sound (k : nat) : forall w p w',
  retry k w = (inr (Some p), w') -> _point_in_polygon p bounds = inr true.
Proof.
  induction k as [|k IH]; intros w p w' Hrun.
  - discriminate.
  - rewrite retry_loop_step in Hrun.
    destruct (_point_in_polygon (candidate bx w 0) bounds) as [e|[|]] eqn:Hpip.
    + discriminate.
    + injection Hrun as <- _. exact Hpip.
    + eapply IH. exact Hrun.
Qed.

(** The loop returns the first candidate that passes, having drawn
    two numbers per candidate tried, or runs out after [k]. *)
Lemma retry_loop_spec (k : nat) :
  polygon_ok bounds ->
  forall w,
    (exists i, (i < k)%nat /\
       (forall j, (j < i)%nat ->
          _point_in_polygon (candidate bx w j) bounds = inr false) /\
       _point_in_polygon (candidate bx w i) bounds = inr true /\
       retry k w = (inr (Some (candidate bx w i)), advance w (2 * S i))) \/
    ((forall j, (j < k)%nat ->
          _point_in_polygon (candidate bx w j) bounds = inr false) /\
     retry k w = (inr None, advance w (2 * k))).
Proof.
  intros [Hne Hall].
  induction k as [|k IH]; intros w.
  - right. split; [intros j Hj; lia|].
    unfold retry, advance. cbn [retry_loop ret Nat.mul].
    rewrite Nat.add_0_r. destruct w; reflexivity.
  - rewrite retry_loop_step.
    destruct (point_in_polygon_returns (candidate bx w 0) bounds Hne Hall)
      as [b Hb].
    rewrite Hb. destruct b.
    + left. exists 0%nat. repeat split; [lia|intros j Hj; lia|exact Hb].
    + destruct (IH (advance w 2)) as [(i & Hi & Hbefore & Hhit & Hrun)|[Hnone Hrun]].
      * left. exists (S i). rewrite candidate_shift in Hhit, Hrun.
        rewrite advance_advance in Hrun.
        replace (2 + 2 * S i)%nat with (2 * S (S i))%nat in Hrun by lia.
        repeat split; [lia| |exact Hhit|exact Hrun].
        intros [|j] Hj; [exact Hb|].
        rewrite <- candidate_shift. apply Hbefore. lia.
      * right. rewrite advance_advance in Hrun.
        replace (2 + 2 * k)%nat with (2 * S k)%nat in Hrun by lia.
        split; [|exact Hrun].
        intros [|j] Hj; [exact Hb|].
        rewrite <- candidate_shift. apply Hnone. lia.
Qed.

End RetryLoop.

Lemma bounding_box_nonempty (bounds : list point) :
  bounds <> [] -> exists bx, bounding_box bounds = inr bx.
Proof.
  destruct bounds as [|p0 rest]; [congruence|]. intros _.
  eexists. reflexivity.
Qed.

Lemma float_of_Z_nonzero (z : Z) : z <> 0 -> is_zero (float_of_Z z) = false.
Proof.
  intros Hz. unfold float_of_Z, binary_normalize.
  destruct z as [|q|q]; [congruence| |]; apply binary_round_nonzero; lia.
Qed.

(** The mean of a non-empty list divides by a nonzero length. *)
Lemma mean_nonempty (l : list float) :
  l <> [] ->
  mean l = inr (SFdiv prec emax (sum l) (float_of_Z (Z.of_nat (length l)))).
Proof.
  intros Hl. unfold mean, fdiv.
  rewrite float_of_Z_nonzero; [reflexivity|].
  destruct l; [congruence|cbn [length]; lia].
Qed.

(** The sampler in terms of its loop. *)
Lemma generate_point_unfold (bounds : list point) (bx : box) (w : world) :
  bounding_box bounds = inr bx ->
  _generate_point_in_bounds bounds w =
    match retry_loop 100 (min_lat bx) (max_lat bx) (min_lon bx) (max_lon bx)
                     bounds w with
    | (inl e, w') => (inl e, w')
    | (inr (Some p), w') => (inr p, w')
    | (inr None, w') =>
        match mean (map fst bounds), mean (map snd bounds) with
        | inr c_lat, inr c_lon => (inr (c_lat, c_lon), w')
        | inl e, _ => (inl e, w')
        | inr _, inl e => (inl e, w')
        end
    end.
Proof.
  unfold bounding_box, _generate_point_in_bounds, rbind, bind, lift, ret.
  destruct (min_list (map fst bounds)) as [e|a]; [discriminate|].
  destruct (max_list (map fst bounds)) as [e|b]; [discriminate|].
  destruct (min_list (map snd bounds)) as [e|c]; [discriminate|].
  destruct (max_list (map snd bounds)) as [e|d]; [discriminate|].
  intros [= <-]. cbn [min_lat max_lat min_lon max_lon].
  destruct (retry_loop 100 a b c d bounds w) as [[e|[p|]] w']; reflexivity.
Qed.

(** What the loop returns is one of the candidates it drew. *)
Lemma retry_loop_candidate (bounds : list point) (bx : box) (k : nat) :
  forall w p w',
    retry_loop k (min_lat bx) (max_lat bx) (min_lon bx) (max_lon bx) bounds w
      = (inr (Some p), w') ->
    exists i, (i < k)%nat /\ p = candidate bx w i.
Proof.
  induction k as [|k IH]; intros w p w' Hrun.
  - discriminate.
  - rewrite retry_loop_step in Hrun.
    destruct (_point_in_polygon (candidate bx w 0) bounds) as [e|[|]].
    + discriminate.
    + injection Hrun as <- _. exists 0%nat. split; [lia|reflexivity].
    + destruct (IH _ _ _ Hrun) as (i & Hi & ->).
      exists (S i). split; [lia|apply candidate_shift].
Qed.

(** The two ways out of the sampler. *)
Lemma generate_point_cases (bounds : list point) (bx : box)
    (w w' : world) (p : point) :
  bounding_box bounds = inr bx ->
  _generate_point_in_bounds bounds w = (inr p, w') ->
  retry_loop 100 (min_lat bx) (max_lat bx) (min_lon bx) (max_lon bx) bounds w
    = (inr (Some p), w') \/
  (retry_loop 100 (min_lat bx) (max_lat bx) (min_lon bx) (max_lon bx) bounds w
     = (inr None, w') /\
   mean (map fst bounds) = inr (fst p) /\
   mean (map snd bounds) = inr (snd p)).
Proof.
  intros Hbx Hrun. rewrite (generate_point_unfold bounds bx w Hbx) in Hrun.
  destruct (retry_loop 100 _ _ _ _ bounds w) as [[e|[q|]] w1].
  - discriminate.
  - injection Hrun as <- <-. left. reflexivity.
  - right.
    destruct (mean (map fst bounds)) as [e|c_lat]; [discriminate|].
    destruct (mean (map snd bounds)) as [e|c_lon]; [discriminate|].
    injection Hrun as <- <-. repeat split.
Qed.

(** C1.  A point that the sampler returns from its retry loop, rather
    than through the centroid fallback, passes the membership test for
    the same polygon. *)
Theorem sampler_retry_point_inside (bounds : list point) (bx : box)
    (w w' : world) (p : point) :
  bounding_box bounds = inr bx ->
  retry_loop 100 (min_lat bx) (max_lat bx) (min_lon bx) (max_lon bx) bounds w
    = (inr (Some p), w') ->
  _generate_point_in_bounds bounds w = (inr p, w') /\
  _point_in_polygon p bounds = inr true.
Proof.
  intros Hbx Hrun. split.
  - rewrite (generate_point_unfold bounds bx w Hbx), Hrun. reflexivity.
  - eapply retry_loop_sound. exact Hrun.
Qed.

Lemma sampler_retry_point_inside_witness :
  _generate_point_in_bounds unit_square halves = (inr centre, advance halves 2) /\
  _point_in_polygon centre unit_square = inr true.
Proof.
  apply (sampler_retry_point_inside unit_square
           (Box (float_of_Z 0) (float_of_Z 1) (float_of_Z 0) (float_of_Z 1))).
  - reflexivity.
  - vm_compute. reflexivity.
Defined.

Lemma unit_square_ok : polygon_ok unit_square.
Proof. split; [discriminate|exact unit_square_valid]. Qed.

(** ** The bounding box *)

Lemma bounding_box_inv (bounds : list point) (bx : box) :
  bounding_box bounds = inr bx ->
  min_list (map fst bounds) = inr (min_lat bx) /\
  max_list (map fst bounds) = inr (max_lat bx) /\
  min_list (map snd bounds) = inr (min_lon bx) /\
  max_list (map snd bounds) = inr (max_lon bx).
Proof.
  unfold bounding_box, rbind.
  destruct (min_list (map fst bounds)) as [e|a]; [discriminate|].
  destruct (max_list (map fst bounds)) as [e|b]; [discriminate|].
  destruct (min_list (map snd bounds)) as [e|c]; [discriminate|].
  destruct (max_list (map snd bounds)) as [e|d]; [discriminate|].
  intros [= <-]. repeat split.
Qed.

(** Every vertex lies in the bounding box. *)
Lemma bounding_box_vertices (bounds : list point) (bx : box) (q : point) :
  Forall real_point bounds -> bounding_box bounds = inr bx -> In q bounds ->
  fle (min_lat bx) (fst q) = true /\ fle (fst q) (max_lat bx) = true /\
  fle (min_lon bx) (snd q) = true /\ fle (snd q) (max_lon bx) = true.
Proof.
  intros Hreal Hbx Hq.
  destruct (bounding_box_inv bounds bx Hbx) as (H1 & H2 & H3 & H4).
  assert (Hlats : Forall not_nan (map fst bounds)).
  { apply Forall_map. eapply Forall_impl; [exact Hreal|]. intros x [Hx _]. exact Hx. }
  assert (Hlons : Forall not_nan (map snd bounds)).
  { apply Forall_map. eapply Forall_impl; [exact Hreal|]. intros x [_ Hx]. exact Hx. }
  pose proof (min_list_spec _ _ Hlats H1) as M1.
  pose proof (max_list_spec _ _ Hlats H2) as M2.
  pose proof (min_list_spec _ _ Hlons H3) as M3.
  pose proof (max_list_spec _ _ Hlons H4) as M4.
  rewrite Forall_forall in M1, M2, M3, M4.
  assert (Hlat : fst q ∈ map fst bounds).
  { apply list_elem_of_In. apply in_map. exact Hq. }
  assert (Hlon : snd q ∈ map snd bounds).
  { apply list_elem_of_In. apply in_map. exact Hq. }
  repeat split; auto.
Qed.

(** A point that passes the test lies within the longitudes of the
    box and not above its latitudes. *)
Lemma accepted_point_bounds (bounds : list point) (bx : box) (p : point) :
  Forall real_point bounds -> bounding_box bounds = inr bx ->
  _point_in_polygon p bounds = inr true ->
  fle (fst p) (max_lat bx) = true /\
  fle (min_lon bx) (snd p) = true /\ fle (snd p) (max_lon bx) = true.
Proof.
  intros Hreal Hbx Hpip.
  destruct (point_in_polygon_examined p bounds Hpip) as (q1 & q2 & Hq1 & Hq2 & Hex).
  destruct (bounding_box_vertices bounds bx q1 Hreal Hbx Hq1) as (_ & A1 & B1 & C1).
  destruct (bounding_box_vertices bounds bx q2 Hreal Hbx Hq2) as (_ & A2 & B2 & C2).
  unfold edge_examined, in_lon_range in Hex.
  apply andb_prop in Hex as [Hex Hlat]. apply andb_prop in Hex as [Hlo Hhi].
  unfold fgt in Hlo. fold (flt (py_min (snd q1) (snd q2)) (snd p)) in Hlo.
  split; [|split].
  - destruct (py_max_either (fst q1) (fst q2)) as [E|E]; rewrite E in Hlat.
    + apply (fle_trans _ (fst q1)); assumption.
    + apply (fle_trans _ (fst q2)); assumption.
  - apply flt_fle.
    destruct (py_min_either (snd q1) (snd q2)) as [E|E]; rewrite E in Hlo.
    + apply (fle_flt_trans _ (snd q1)); assumption.
    + apply (fle_flt_trans _ (snd q2)); assumption.
  - destruct (py_max_either (snd q1) (snd q2)) as [E|E]; rewrite E in Hhi.
    + apply (fle_trans _ (snd q1)); assumption.
    + apply (fle_trans _ (snd q2)); assumption.
Qed.

Lemma finite_points_real (bounds : list point) :
  Forall finite_point bounds -> Forall real_point bounds.
Proof.
  intros H. eapply Forall_impl; [exact H|].
  intros p [H1 H2]. split; apply finite_float_not_nan; assumption.
Qed.

(** The latitudes of the box are finite, in order, and belong to
    vertices. *)
Lemma bounding_box_latitudes (bounds : list point) (bx : box) :
  Forall finite_point bounds -> bounding_box bounds = inr bx ->
  finite_float (min_lat bx) /\ finite_float (max_lat bx) /\
  fle (min_lat bx) (max_lat bx) = true.
Proof.
  intros Hfin Hbx.
  destruct (bounding_box_inv bounds bx Hbx) as (H1 & H2 & _ & _).
  apply min_list_in in H1 as I1. apply max_list_in in H2 as I2.
  apply in_map_iff in I1 as (q1 & E1 & Q1).
  apply in_map_iff in I2 as (q2 & E2 & Q2).
  rewrite Forall_forall in Hfin.
  pose proof (Hfin q1 ltac:(apply list_elem_of_In; exact Q1)) as [F1 _].
  pose proof (Hfin q2 ltac:(apply list_elem_of_In; exact Q2)) as [F2 _].
  rewrite E1 in F1. rewrite E2 in F2.
  split; [exact F1|]. split; [exact F2|].
  assert (Hreal : Forall real_point bounds).
  { apply finite_points_real. rewrite Forall_forall. exact Hfin. }
  destruct (bounding_box_vertices bounds bx q2 Hreal Hbx Q2) as (A & _).
  rewrite E2 in A. exact A.
Qed.

(** C9, as stated, fails: on three vertices of latitude 0.1 the
    sampler falls back to the centroid, whose latitude is the float
    next above 0.1, outside the box. *)
Lemma centroid_outside_bounding_box :
  match bounding_box thin, fst (_generate_point_in_bounds thin halves) with
  | inr bx, inr p =>
      max_lat bx = S754_finite false 7205759403792794 (-56) /\
      fst p = S754_finite false 7205759403792795 (-56) /\
      in_box bx p = false
  | _, _ => False
  end.
Proof. vm_compute. repeat split; reflexivity. Qed.

(** C9, amended.  On a polygon with finite coordinates, every point
    that the sampler returns from its retry loop is a candidate that
    passed the membership test and lies within the bounding box of the
    vertices.  The centroid fallback is the rounded mean of the vertex
    coordinates, about which nothing more is promised. *)
Theorem sampler_retry_point_in_bounding_box (bounds : list point) (bx : box)
    (w w' : world) (p : point) :
  Forall finite_point bounds ->
  bounding_box bounds = inr bx ->
  _generate_point_in_bounds bounds w = (inr p, w') ->
  ((exists i, (i < 100)%nat /\ p = candidate bx w i) /\
   _point_in_polygon p bounds = inr true /\
   in_box bx p = true) \/
  (retry_loop 100 (min_lat bx) (max_lat bx) (min_lon bx) (max_lon bx) bounds w
     = (inr None, w') /\
   mean (map fst bounds) = inr (fst p) /\
   mean (map snd bounds) = inr (snd p)).
Proof.
  intros Hfin Hbx Hrun.
  destruct (generate_point_cases bounds bx w w' p Hbx Hrun) as [Hloop|Hfall];
    [left|right; exact Hfall].
  pose proof (retry_loop_sound bounds bx 100 w p w' Hloop) as Hpip.
  pose proof (retry_loop_candidate bounds bx 100 w p w' Hloop) as Hcand.
  split; [exact Hcand|]. split; [exact Hpip|].
  destruct (accepted_point_bounds bounds bx p (finite_points_real bounds Hfin)
              Hbx Hpip) as (Hlat & Hlon1 & Hlon2).
  destruct (bounding_box_latitudes bounds bx Hfin Hbx) as (Fa & Fb & Hab).
  assert (Hlow : fle (min_lat bx) (fst p) = true).
  { destruct Hcand as (i & _ & ->). cbn [candidate fst] in *.
    apply uniform_at_lower; try assumption.
    apply fle_not_nan in Hlat. apply Hlat. }
  unfold in_box. rewrite Hlow, Hlat, Hlon1, Hlon2. reflexivity.
Qed.

Lemma unit_square_finite : Forall finite_point unit_square.
Proof. repeat constructor. Qed.

Lemma sampler_retry_point_in_bounding_box_witness :
  let bx := Box (float_of_Z 0) (float_of_Z 1) (float_of_Z 0) (float_of_Z 1) in
  ((exists i, (i < 100)%nat /\ centre = candidate bx halves i) /\
   _point_in_polygon centre unit_square = inr true /\
   in_box bx centre = true) \/
  (retry_loop 100 (min_lat bx) (max_lat bx) (min_lon bx) (max_lon bx)
              unit_square halves
     = (inr None, advance halves 2) /\
   mean (map fst unit_square) = inr (fst centre) /\
   mean (map snd unit_square) = inr (snd centre)).
Proof.
  intros bx.
  apply (sampler_retry_point_in_bounding_box unit_square bx halves
           (advance halves 2) centre).
  - exact unit_square_finite.
  - reflexivity.
  - vm_compute. reflexivity.
Defined.

(** ** The centroid fallback *)

Lemma mean_arithmetic_mean (l : list float) :
  l <> [] -> mean l = inr (arithmetic_mean l).
Proof. intros Hl. rewrite (mean_nonempty l Hl). reflexivity. Qed.

(** Every bound of the box is a coordinate of a vertex. *)
Lemma bounding_box_attained (bounds : list point) (bx : box) :
  bounding_box bounds = inr bx ->
  In (min_lat bx) (map fst bounds) /\ In (max_lat bx) (map fst bounds) /\
  In (min_lon bx) (map snd bounds) /\ In (max_lon bx) (map snd bounds).
Proof.
  intros Hbx. destruct (bounding_box_inv bounds bx Hbx) as (H1 & H2 & H3 & H4).
  repeat split;
    [apply min_list_in|apply max_list_in|apply min_list_in|apply max_list_in];
    assumption.
Qed.

Lemma bounding_box_holds_vertices (bounds : list point) (bx : box) (q : point) :
  Forall real_point bounds -> bounding_box bounds = inr bx -> In q bounds ->
  in_box bx q = true.
Proof.
  intros Hreal Hbx Hq.
  destruct (bounding_box_vertices bounds bx q Hreal Hbx Hq) as (H1 & H2 & H3 & H4).
  unfold in_box. rewrite H1, H2, H3, H4. reflexivity.
Qed.

(** C3.  On a polygon with at least one vertex the sampler never
    raises.  It draws candidates from the bounding box of the
    vertices, two numbers each: every bound of the box is a coordinate
    of a vertex and, when the coordinates are numbers, the box holds
    every vertex.  The sampler returns the first candidate that passes
    the membership test, at the latest the hundredth; when all hundred
    fail it returns the centroid of the vertices, the mean latitude
    and the mean longitude as binary64 computes them. *)
Theorem sampler_first_hit_or_centroid (bounds : list point) (w : world) :
  polygon_ok bounds ->
  exists bx, bounding_box bounds = inr bx /\
    (In (min_lat bx) (map fst bounds) /\ In (max_lat bx) (map fst bounds) /\
     In (min_lon bx) (map snd bounds) /\ In (max_lon bx) (map snd bounds)) /\
    (Forall real_point bounds -> forall q, In q bounds -> in_box bx q = true) /\
    ((exists i, (i < 100)%nat /\
        (forall j, (j < i)%nat ->
           _point_in_polygon (candidate bx w j) bounds = inr false) /\
        _point_in_polygon (candidate bx w i) bounds = inr true /\
        _generate_point_in_bounds bounds w
          = (inr (candidate bx w i), advance w (2 * S i))) \/
     ((forall j, (j < 100)%nat ->
           _point_in_polygon (candidate bx w j) bounds = inr false) /\
      _generate_point_in_bounds bounds w
        = (inr (centroid bounds), advance w 200))).
Proof.
  intros Hok. pose proof Hok as [Hne Hall].
  destruct (bounding_box_nonempty bounds Hne) as [bx Hbx].
  exists bx. split; [exact Hbx|].
  split; [exact (bounding_box_attained bounds bx Hbx)|].
  split; [intros Hreal q Hq; exact (bounding_box_holds_vertices bounds bx q Hreal Hbx Hq)|].
  rewrite (generate_point_unfold bounds bx w Hbx).
  destruct (retry_loop_spec bounds bx 100 Hok w)
    as [(i & Hi & Hbefore & Hhit & Hrun)|[Hnone Hrun]].
  - left. exists i. rewrite Hrun. repeat split; assumption.
  - right. split; [exact Hnone|]. rewrite Hrun.
    assert (Hlat : map fst bounds <> []) by (destruct bounds; cbn; congruence).
    assert (Hlon : map snd bounds <> []) by (destruct bounds; cbn; congruence).
    rewrite (mean_arithmetic_mean _ Hlat), (mean_arithmetic_mean _ Hlon).
    reflexivity.
Qed.

Lemma thin_ok : polygon_ok thin.
Proof. split; [discriminate|repeat constructor]. Qed.

(** On the three vertices of latitude 0.1 no candidate passes in the
    world [halves]: the sampler returns the centroid, of latitude
    0.10000000000000002 and longitude 1. *)
Lemma sampler_first_hit_or_centroid_witness :
  _generate_point_in_bounds thin halves
  = (inr (S754_finite false 7205759403792795 (-56), float_of_Z 1),
     advance halves 200).
Proof.
  destruct (sampler_first_hit_or_centroid thin halves thin_ok)
    as (bx & Hbx & _ & _ & [(i & _ & _ & Hhit & _)|(_ & Hrun)]).
  - exfalso. injection Hbx as <-. unfold candidate in Hhit.
    cbn [draws halves min_lat max_lat min_lon max_lon] in Hhit.
    vm_compute in Hhit. discriminate.
  - exact Hrun.
Defined.

(** ** The synthetic incident generator *)

Lemma returns_ret {A} (a : A) (P : A -> Prop) : P a -> returns (ret a) P.
Proof. intros Ha w. exists a, w. split; [reflexivity|exact Ha]. Qed.

Lemma returns_bind {A B} (m : M world A) (k : A -> M world B)
    (P : A -> Prop) (Q : B -> Prop) :
  returns m P -> (forall a, P a -> returns (k a) Q) -> returns (bind m k) Q.
Proof.
  intros Hm Hk w. destruct (Hm w) as (a & w1 & Hrun & Ha).
  destruct (Hk a Ha w1) as (b & w2 & Hrun2 & Hb).
  exists b, w2. unfold bind. rewrite Hrun. split; assumption.
Qed.

Lemma returns_lift {A} (r : result A) (a : A) (P : A -> Prop) :
  r = inr a -> P a -> returns (lift r) P.
Proof. intros -> Ha w. exists a, w. split; [reflexivity|exact Ha]. Qed.

Lemma returns_next_raw : returns next_raw (fun _ => True).
Proof. intros w. eexists. eexists. split; [reflexivity|exact I]. Qed.

Lemma returns_random : returns random_random (fun _ => True).
Proof.
  unfold random_random. eapply returns_bind; [apply returns_next_raw|].
  intros k _. apply returns_ret. exact I.
Qed.

Lemma returns_randint (a b : Z) :
  a <= b -> returns (random_randint a b) (fun z => a <= z <= b).
Proof.
  intros Hab. unfold random_randint.
  destruct (b <? a) eqn:Hlt; [apply Z.ltb_lt in Hlt; lia|].
  eapply returns_bind; [apply returns_next_raw|].
  intros k _. apply returns_ret.
  pose proof (Z.mod_pos_bound (Z.of_N k) (b - a + 1) ltac:(lia)). lia.
Qed.

Lemma returns_choice {A} (l : list A) :
  l <> [] -> returns (random_choice l) (fun x => In x l).
Proof.
  intros Hl. destruct l as [|x l']; [congruence|]. unfold random_choice.
  eapply returns_bind; [apply returns_next_raw|].
  intros k _. apply returns_ret. apply nth_In.
  assert (Hpos : (N.of_nat (length (x :: l')) <> 0)%N) by (cbn [length]; lia).
  pose proof (N.mod_upper_bound k _ Hpos). lia.
Qed.

Lemma returns_time_millis : returns time_millis (fun _ => True).
Proof. intros w. eexists. eexists. split; [reflexivity|exact I]. Qed.

(** The sampler returns a point on every polygon with a vertex. *)
Lemma returns_generate_point (bounds : list point) :
  polygon_ok bounds ->
  returns (_generate_point_in_bounds bounds) (fun _ => True).
Proof.
  intros Hok w. pose proof Hok as [Hne Hall].
  destruct (bounding_box_nonempty bounds Hne) as [bx Hbx].
  rewrite (generate_point_unfold bounds bx w Hbx).
  destruct (retry_loop_spec bounds bx 100 Hok w)
    as [(i & _ & _ & _ & Hrun)|[_ Hrun]]; rewrite Hrun.
  - eexists. eexists. split; [reflexivity|exact I].
  - assert (Hlat : map fst bounds <> []) by (destruct bounds; cbn; congruence).
    assert (Hlon : map snd bounds <> []) by (destruct bounds; cbn; congruence).
    rewrite (mean_nonempty _ Hlat), (mean_nonempty _ Hlon).
    eexists. eexists. split; [reflexivity|exact I].
Qed.

Lemma dict_get_crime_types_nonempty (primary : string) :
  dict_get CRIME_TYPES_AREQUIPA primary ["Incidente"] <> [].
Proof.
  unfold CRIME_TYPES_AREQUIPA. cbn [dict_get].
  repeat match goal with
         | |- context [String.eqb ?a ?b] => destruct (String.eqb a b)
         end; discriminate.
Qed.

Lemma datetime_sub_in_range (now delta : Z) :
  0 <= now - delta <= datetime_max ->
  datetime_sub now delta = inr (now - delta).
Proof.
  intros [H1 H2]. unfold datetime_sub.
  apply Z.leb_le in H1, H2. rewrite H1, H2. reflexivity.
Qed.

Section Generator.

Variables (now days_back : Z) (zone_bounds : list point).
Variable crime_types : list string.
Hypothesis bounds_ok : polygon_ok zone_bounds.
Hypothesis types_ok : crime_types <> [].
Hypothesis days_ok : 0 <= days_back.
Hypothesis now_ok : timedelta days_back 23 59 0 <= now <= datetime_max.

(** One row is built without raising, dated at most [days_back] days,
    23 hours and 59 minutes before [now]. *)
Lemma returns_generate_row (i : Z) :
  returns (generate_row now zone_bounds crime_types days_back i)
          (row_dated (now - timedelta days_back 23 59 0) now).
Proof.
  unfold generate_row.
  eapply returns_bind; [apply returns_generate_point; exact bounds_ok|].
  intros pt _.
  eapply returns_bind; [apply returns_choice; exact types_ok|].
  intros primary _.
  eapply returns_bind;
    [apply returns_choice; apply dict_get_crime_types_nonempty|].
  intros description _.
  eapply returns_bind; [apply returns_randint; exact days_ok|].
  intros days_ago Hdays.
  eapply returns_bind; [apply returns_randint; lia|].
  intros hours_ago Hhours.
  eapply returns_bind; [apply returns_randint; lia|].
  intros minutes_ago Hminutes. cbv beta in Hdays, Hhours, Hminutes.
  assert (Hdelta : 0 <= timedelta days_ago hours_ago minutes_ago 0
                   <= timedelta days_back 23 59 0).
  { unfold timedelta, us_per_day, us_per_hour, us_per_minute, us_per_second. lia. }
  eapply returns_bind.
  { eapply returns_lift with (P := fun t => now - timedelta days_back 23 59 0 <= t <= now).
    - apply datetime_sub_in_range. lia.
    - lia. }
  intros record_date Hdate. cbv beta in Hdate.
  eapply returns_bind; [apply returns_time_millis|]. intros ms _.
  eapply returns_bind; [apply returns_choice; discriminate|]. intros street _.
  eapply returns_bind; [apply returns_randint; lia|]. intros number _.
  eapply returns_bind; [apply returns_randint; lia|]. intros iucr _.
  eapply returns_bind; [apply returns_choice; discriminate|]. intros place _.
  eapply returns_bind; [apply returns_random|]. intros arrest _.
  eapply returns_bind; [apply returns_random|]. intros domestic _.
  eapply returns_bind; [apply returns_randint; lia|]. intros beat _.
  eapply returns_bind; [apply returns_randint; lia|]. intros district _.
  eapply returns_bind; [apply returns_randint; lia|]. intros ward _.
  eapply returns_bind; [apply returns_randint; lia|]. intros community_area _.
  apply returns_ret. exists record_date. split; [|exact Hdate].
  unfold list_to_map. cbn [foldr fst snd].
  rewrite !(lookup_insert_ne _ _ "date") by discriminate.
  apply lookup_insert_eq.
Qed.

Lemma returns_generate_rows (idxs : list nat) :
  returns (generate_rows now zone_bounds crime_types days_back idxs)
          (fun rows =>
             length rows = length idxs /\
             Forall (row_dated (now - timedelta days_back 23 59 0) now) rows).
Proof.
  induction idxs as [|i idxs IH]; cbn [generate_rows].
  - apply returns_ret. split; [reflexivity|constructor].
  - eapply returns_bind; [apply returns_generate_row|]. intros row Hrow.
    eapply returns_bind; [apply IH|]. intros rows [Hlen Hall].
    apply returns_ret. split; [cbn [length]; congruence|].
    constructor; assumption.
Qed.

End Generator.

(** The frame keeps the date of a row, as a datetime. *)
Lemma frame_row_dated (lo hi : Z) (r : record) :
  row_dated lo hi r -> frame_dated lo hi (frame_row r).
Proof.
  intros (t & Hr & Ht). exists t. split; [|exact Ht].
  unfold frame_row, SCHEMA_COLUMNS, list_to_map. cbn [map foldr fst snd].
  rewrite !(lookup_insert_ne _ _ "date") by discriminate.
  rewrite lookup_insert_eq, Hr. reflexivity.
Qed.

Lemma records_to_dataframe_spec (lo hi : Z) (rows : list record) :
  Forall (row_dated lo hi) rows ->
  length (_records_to_dataframe rows) = length rows /\
  Forall (frame_dated lo hi) (_records_to_dataframe rows).
Proof.
  intros Hall.
  assert (Heq : _records_to_dataframe rows = map frame_row rows)
    by (destruct rows; reflexivity).
  rewrite Heq, length_map. split; [reflexivity|]. clear Heq.
  induction Hall as [|r rows Hr _ IH]; cbn [map]; constructor.
  - apply frame_row_dated. exact Hr.
  - exact IH.
Qed.

(** The generator on usable arguments: a frame of [n] rows, each dated
    at most [days_back] days, 23 hours and 59 minutes before the
    generation time. *)
Lemma generate_records_spec (n : Z) (zone_bounds : list point)
    (crime_types : option (list string)) (days_back : Z) (w : world) :
  let now := utc w (utc_cursor w) in
  polygon_ok zone_bounds ->
  crime_types <> Some [] ->
  0 <= days_back ->
  timedelta days_back 23 59 0 <= now <= datetime_max ->
  exists df w',
    generate_random_records_in_zone n zone_bounds crime_types days_back w
      = (inr df, w') /\
    length df = Z.to_nat n /\
    Forall (frame_dated (now - timedelta days_back 23 59 0) now) df.
Proof.
  intros now Hbounds Htypes Hdays Hnow.
  assert (Hcats : categories crime_types <> []).
  { destruct crime_types as [l|]; [cbn; congruence|discriminate]. }
  unfold generate_random_records_in_zone. unfold bind at 1.
  unfold datetime_utcnow at 1. fold now. fold (categories crime_types).
  set (w1 := World _ _ _ _ _ _).
  destruct (returns_generate_rows now days_back zone_bounds
              (categories crime_types) Hbounds Hcats Hdays Hnow
              (seq 0 (Z.to_nat n)) w1)
    as (rows & w' & Hrun & Hlen & Hall).
  unfold bind. rewrite Hrun. unfold ret.
  destruct (records_to_dataframe_spec _ _ rows Hall) as [Hlen' Hall'].
  eexists. eexists. split; [reflexivity|]. split; [|exact Hall'].
  rewrite Hlen', Hlen. apply length_seq.
Qed.

(** C4, as stated, fails: an empty category list, a negative
    [days_back] and a polygon without vertices each make the generator
    raise. *)
Lemma generator_raises_on_unusable_arguments :
  fst (generate_random_records_in_zone 1 unit_square (Some []) 30 halves)
    = inl IndexError /\
  fst (generate_random_records_in_zone 1 unit_square None (-1) halves)
    = inl ValueError /\
  fst (generate_random_records_in_zone 1 [] None 30 halves)
    = inl ValueError.
Proof. vm_compute. repeat split; reflexivity. Qed.

(** C4, amended.  For every [n], every polygon with at least one
    vertex, every non-empty category list (or none) and every
    [days_back >= 0] that leaves [now - days_back days - 23 h 59 min] a
    date, the generator returns a frame of exactly [n] rows ([0] rows
    for a negative [n]) and does not raise. *)
Theorem generator_returns_n_records (n : Z) (zone_bounds : list point)
    (crime_types : option (list string)) (days_back : Z) (w : world) :
  polygon_ok zone_bounds ->
  crime_types <> Some [] ->
  0 <= days_back ->
  timedelta days_back 23 59 0 <= utc w (utc_cursor w) <= datetime_max ->
  exists df w',
    generate_random_records_in_zone n zone_bounds crime_types days_back w
      = (inr df, w') /\
    length df = Z.to_nat n.
Proof.
  intros Hbounds Htypes Hdays Hnow.
  destruct (generate_records_spec n zone_bounds crime_types days_back w
              Hbounds Htypes Hdays Hnow) as (df & w' & Hrun & Hlen & _).
  exists df, w'. split; assumption.
Qed.

Lemma generator_returns_n_records_witness :
  exists df w',
    generate_random_records_in_zone 3 unit_square None 30 halves
      = (inr df, w') /\
    length df = Z.to_nat 3.
Proof.
  apply (generator_returns_n_records 3 unit_square None 30 halves).
  - exact unit_square_ok.
  - discriminate.
  - lia.
  - vm_compute. split; discriminate.
Defined.

(** C6, as stated, fails: with [days_back = 0] the record generated in
    the world [halves] is dated 16 h 16 min before the generation
    time. *)
Lemma generated_date_before_days_back :
  match fst (generate_random_records_in_zone 1 unit_square None 0 halves) with
  | inr [r] =>
      r !! "date" = Some (VDatetime 63899941440000000) /\
      63899941440000000 < utc halves 0 - timedelta 0 0 0 0
  | _ => False
  end.
Proof. vm_compute. split; reflexivity. Qed.

(** C6, amended.  The hours and minutes are drawn on top of the days:
    every generated record is dated between
    [now - days_back days - 23 h 59 min] and [now], where [now] is the
    generation time. *)
Theorem generated_dates_within_days_back_and_a_day (n : Z)
    (zone_bounds : list point) (crime_types : option (list string))
    (days_back : Z) (w : world) :
  let now := utc w (utc_cursor w) in
  polygon_ok zone_bounds ->
  crime_types <> Some [] ->
  0 <= days_back ->
  timedelta days_back 23 59 0 <= now <= datetime_max ->
  exists df w',
    generate_random_records_in_zone n zone_bounds crime_types days_back w
      = (inr df, w') /\
    Forall (frame_dated (now - timedelta days_back 23 59 0) now) df.
Proof.
  intros now Hbounds Htypes Hdays Hnow.
  destruct (generate_records_spec n zone_bounds crime_types days_back w
              Hbounds Htypes Hdays Hnow) as (df & w' & Hrun & _ & Hall).
  exists df, w'. split; assumption.
Qed.

Lemma generated_dates_within_days_back_and_a_day_witness :
  exists df w',
    generate_random_records_in_zone 3 unit_square None 30 halves
      = (inr df, w') /\
    Forall (frame_dated (utc halves 0 - timedelta 30 23 59 0) (utc halves 0)) df.
Proof.
  apply (generated_dates_within_days_back_and_a_day 3 unit_square None 30 halves).
  - exact unit_square_ok.
  - discriminate.
  - lia.
  - vm_compute. split; discriminate.
Defined.

(** ** The storage step *)

Lemma field_alter_ne (h : gmap ref record) (f : record -> record)
    (l0 l : ref) (k : string) :
  l <> l0 -> field (alter f l0 h) l k = field h l k.
Proof.
  intros Hl. unfold field. rewrite lookup_alter_ne by congruence. reflexivity.
Qed.

Lemma field_alter_stamp_other (h : gmap ref record) (now t : Z)
    (l0 l : ref) (k : string) :
  stamped_field k = false ->
  field (alter (stamp now t) l0 h) l k = field h l k.
Proof.
  intros Hk. unfold stamped_field in Hk.
  apply orb_false_elim in Hk as [Hk Hyear].
  apply orb_false_elim in Hk as [Hdate Hupd].
  apply String.eqb_neq in Hdate, Hupd, Hyear.
  destruct (decide (l = l0)) as [->|Hl]; [|apply field_alter_ne; exact Hl].
  unfold field. rewrite lookup_alter_eq.
  destruct (h !! l0) as [d|]; [|reflexivity]. cbn [fmap option_fmap option_map].
  unfold stamp. rewrite !lookup_insert_ne by congruence. reflexivity.
Qed.

Lemma field_alter_stamp_same (h : gmap ref record) (now t : Z) (l : ref) :
  is_Some (h !! l) ->
  field (alter (stamp now t) l h) l "date" = Some (VDatetime t) /\
  field (alter (stamp now t) l h) l "updated_on" = Some (VDatetime now) /\
  field (alter (stamp now t) l h) l "year" = Some (VInt (datetime_year t)).
Proof.
  intros [d Hd]. unfold field. rewrite lookup_alter_eq, Hd.
  cbn [fmap option_fmap option_map]. unfold stamp. repeat split.
  - rewrite !lookup_insert_ne by discriminate. apply lookup_insert_eq.
  - rewrite lookup_insert_ne by discriminate. apply lookup_insert_eq.
  - apply lookup_insert_eq.
Qed.

(** One call of [_enforce_recent_date]: it reads the clock once and the
    generator twice, then either stamps the record or raises before
    touching it. *)
Lemma enforce_recent_date_run (l : ref) (s : state) :
  let w := the_world s in
  let now := utc w (utc_cursor w) in
  let extra_minutes := Z.of_N (draws w (cursor w)) mod 60 in
  let extra_seconds := Z.of_N (draws w (S (cursor w))) mod 60 in
  let w' := World (draws w) (S (S (cursor w))) (utc w) (S (utc_cursor w))
                  (millis w) (millis_cursor w) in
  _enforce_recent_date l s =
    match datetime_sub now (timedelta 0 1 extra_minutes extra_seconds) with
    | inr t => (inr tt, State w' (alter (stamp now t) l (heap s)))
    | inl e => (inl e, State w' (heap s))
    end.
Proof.
  destruct s as [w h]. cbn [the_world heap].
  unfold _enforce_recent_date, in_world, datetime_utcnow, random_randint.
  change (59 <? 0) with false. cbv iota.
  unfold next_raw, lift, setitem, bind, ret.
  cbn [the_world heap draws cursor utc utc_cursor millis millis_cursor].
  change (59 - 0 + 1) with 60. rewrite !Z.add_0_l.
  destruct (datetime_sub _ _) as [e|t]; [reflexivity|].
  cbn [the_world heap]. rewrite !alter_alter_eq. reflexivity.
Qed.

(** What one guarded call leaves behind: the same clock and generator
    stream, every field but the three stamps as it was, and the record
    at [l] stamped when the clock is sound. *)
Lemma try_enforce_spec (l : ref) (s : state) :
  exists s',
    try_pass (_enforce_recent_date l) s = (inr tt, s') /\
    utc (the_world s') = utc (the_world s) /\
    (forall l' k, stamped_field k = false ->
                  field (heap s') l' k = field (heap s) l' k) /\
    (forall l', is_Some (heap s' !! l') <-> is_Some (heap s !! l')) /\
    (forall l', l' <> l -> heap s' !! l' = heap s !! l') /\
    (clock_ok (the_world s) -> is_Some (heap s !! l) ->
     stamped_record (the_world s) (heap s') l).
Proof.
  unfold try_pass. rewrite enforce_recent_date_run.
  set (w := the_world s). set (now := utc w (utc_cursor w)).
  set (mi := Z.of_N (draws w (cursor w)) mod 60).
  set (se := Z.of_N (draws w (S (cursor w))) mod 60).
  assert (Hmi : 0 <= mi < 60) by (apply Z.mod_pos_bound; lia).
  assert (Hse : 0 <= se < 60) by (apply Z.mod_pos_bound; lia).
  unfold datetime_sub.
  destruct ((0 <=? now - timedelta 0 1 mi se)
            && (now - timedelta 0 1 mi se <=? datetime_max)) eqn:Hrange.
  - eexists. split; [reflexivity|]. cbn [the_world heap utc].
    split; [reflexivity|]. split; [|split; [|split]].
    + intros l' k Hk. apply field_alter_stamp_other. exact Hk.
    + intros l'. destruct (decide (l' = l)) as [->|Hl].
      * rewrite lookup_alter_eq. rewrite fmap_is_Some. reflexivity.
      * rewrite lookup_alter_ne by congruence. reflexivity.
    + intros l' Hl. rewrite lookup_alter_ne by congruence. reflexivity.
    + intros _ Hsome. exists (utc_cursor w), (now - timedelta 0 1 mi se).
      fold now. split.
      * unfold timedelta, us_per_hour, us_per_minute, us_per_second. lia.
      * apply field_alter_stamp_same. exact Hsome.
  - eexists. split; [reflexivity|]. cbn [the_world heap utc].
    split; [reflexivity|]. split; [reflexivity|]. split; [reflexivity|].
    split; [reflexivity|].
    intros Hclock _. exfalso. specialize (Hclock (utc_cursor w)). fold now in Hclock.
    apply andb_false_iff in Hrange as [H|H];
      [apply Z.leb_gt in H|apply Z.leb_gt in H];
      unfold timedelta, us_per_hour, us_per_minute, us_per_second,
        datetime_max, us_per_day in *; lia.
Qed.

Lemma stamped_record_ext (w w' : world) (h h' : gmap ref record) (l : ref) :
  utc w' = utc w -> h' !! l = h !! l ->
  stamped_record w h l -> stamped_record w' h' l.
Proof.
  intros Hw Hh (i & t & Hb & H1 & H2 & H3). exists i, t. rewrite Hw.
  unfold field in *. rewrite Hh. repeat split; assumption || apply Hb.
Qed.

Lemma enforce_all_spec (records : list ref) : forall s,
  exists s',
    enforce_all records s = (inr tt, s') /\
    utc (the_world s') = utc (the_world s) /\
    (forall l k, stamped_field k = false ->
                 field (heap s') l k = field (heap s) l k) /\
    (forall l, is_Some (heap s' !! l) <-> is_Some (heap s !! l)) /\
    (clock_ok (the_world s) ->
     forall l, In l records \/ stamped_record (the_world s) (heap s) l ->
               is_Some (heap s !! l) ->
               stamped_record (the_world s) (heap s') l).
Proof.
  induction records as [|r records IH]; intros s.
  - exists s. split; [reflexivity|]. repeat split; try tauto.
    intros _ l [[]|H] _. exact H.
  - destruct (try_enforce_spec r s)
      as (s1 & Hrun1 & Hutc1 & Hframe1 & Hdom1 & Hother1 & Hstamp1).
    destruct (IH s1) as (s' & Hrun & Hutc & Hframe & Hdom & Hstamp).
    exists s'. split.
    { cbn [enforce_all]. unfold bind at 1. rewrite Hrun1. exact Hrun. }
    split; [congruence|]. split; [|split].
    + intros l k Hk. rewrite (Hframe l k Hk). apply Hframe1. exact Hk.
    + intros l. rewrite Hdom. apply Hdom1.
    + intros Hclock l Hl Hsome.
      assert (Hclock1 : clock_ok (the_world s1)).
      { intros i. rewrite Hutc1. apply Hclock. }
      assert (Hsome1 : is_Some (heap s1 !! l)) by (apply Hdom1; exact Hsome).
      apply (stamped_record_ext (the_world s1) _ (heap s') (heap s') l
               (eq_sym Hutc1) eq_refl).
      apply (Hstamp Hclock1); [|exact Hsome1].
      destruct (decide (l = r)) as [->|Hne].
      * right.
        apply (stamped_record_ext (the_world s) _ (heap s1) (heap s1) r
                 Hutc1 eq_refl).
        apply Hstamp1; assumption.
      * destruct Hl as [[Hl|Hl]|Hl]; [congruence|left; exact Hl|].
        right.
        apply (stamped_record_ext (the_world s) _ (heap s) (heap s1) l
                 Hutc1 (Hother1 l Hne)).
        exact Hl.
Qed.

(** C7, as stated, fails: the record the generator makes in the world
    [halves] carries one date before the storage step and another
    after it. *)
Lemma insert_crimes_changes_date :
  match generate_random_records_in_zone 1 unit_square None 30 halves with
  | (inr df, w) =>
      let '(refs, h) := to_dict_records df in
      match insert_crimes Sqlite refs (State w h) with
      | (inr _, s') =>
          field h 0%nat "date" = Some (VDatetime 63899595840000000) /\
          field (heap s') 0%nat "date" = Some (VDatetime 63899995424000000)
      | _ => False
      end
  | _ => False
  end.
Proof. vm_compute. split; reflexivity. Qed.

(** ** The hotspot aggregator *)

Lemma key_eqb_refl (k : key) : key_isna k = false -> key_eqb k k = true.
Proof.
  unfold key_isna, key_eqb. intros H. apply orb_false_elim in H as [H1 H2].
  rewrite (feq_refl _ H1), (feq_refl _ H2). reflexivity.
Qed.

Lemma key_eqb_sym (a b : key) : key_eqb a b = key_eqb b a.
Proof.
  unfold key_eqb. rewrite (feq_sym (fst a)), (feq_sym (snd a)). reflexivity.
Qed.

Lemma key_eqb_trans (a b c : key) :
  key_eqb a b = true -> key_eqb b c = true -> key_eqb a c = true.
Proof.
  unfold key_eqb. intros Hab Hbc.
  apply andb_prop in Hab as [H1 H2]. apply andb_prop in Hbc as [H3 H4].
  rewrite (feq_trans _ _ _ H1 H3), (feq_trans _ _ _ H2 H4). reflexivity.
Qed.

(** A key with a [NaN] belongs to no bucket. *)
Lemma key_eqb_isna (a b : key) : key_isna b = true -> key_eqb a b = false.
Proof.
  unfold key_isna, key_eqb. intros H. apply orb_prop in H as [H|H].
  - rewrite (feq_nan_r _ _ H). reflexivity.
  - rewrite (feq_nan_r _ _ H). apply andb_false_r.
Qed.

Lemma bucket_size_snoc (k x : key) (l : list key) :
  bucket_size k (l ++ [x])
  = bucket_size k l + (if key_eqb k x then 1 else 0).
Proof.
  unfold bucket_size. rewrite List.filter_app, length_app. cbn [List.filter].
  destruct (key_eqb k x); cbn [length]; lia.
Qed.

Section Bump.

Variable x : key.
Hypothesis x_notna : key_isna x = false.

(** A bucket of [bump x g] is a bucket of [g], one larger when it is
    the bucket of [x], or the new bucket of [x] when [g] had none. *)
Lemma bump_inv (g : list bucket) (k : key) (c : Z) :
  distinct_keys g ->
  In (k, c) (bump x g) ->
  (exists c0, In (k, c0) g /\
              c = c0 + (if key_eqb k x then 1 else 0)) \/
  ((k, c) = (x, 1) /\ Forall (fun b => key_eqb (fst b) x = false) g).
Proof.
  induction g as [|[k' c'] g IH]; intros Hd Hin.
  - cbn in Hin. destruct Hin as [Heq|[]]. right. split; [congruence|constructor].
  - cbn [bump] in Hin. destruct Hd as [Hfirst Hd].
    destruct (key_eqb k' x) eqn:Hk'.
    + left. destruct Hin as [Heq|Hin].
      * injection Heq as <- <-. exists c'. rewrite Hk'. split; [left; reflexivity|lia].
      * exists c. split; [right; exact Hin|].
        rewrite Forall_forall in Hfirst.
        assert (Hkk : key_eqb k' k = false).
        { apply (Hfirst (k, c)). apply list_elem_of_In. exact Hin. }
        destruct (key_eqb k x) eqn:Hk; [|lia].
        rewrite (key_eqb_sym k x) in Hk.
        rewrite (key_eqb_trans k' x k Hk' Hk) in Hkk. discriminate.
    + destruct Hin as [Heq|Hin].
      * injection Heq as <- <-. left. exists c'. rewrite Hk'.
        split; [left; reflexivity|lia].
      * destruct (IH Hd Hin) as [(c0 & Hc0 & Hc)|[Heq Hall]].
        -- left. exists c0. split; [right; exact Hc0|exact Hc].
        -- right. split; [exact Heq|]. constructor; [exact Hk'|exact Hall].
Qed.

Lemma bump_keeps_keys (g : list bucket) (k : key) (c0 : Z) :
  In (k, c0) g -> exists c, In (k, c) (bump x g).
Proof.
  induction g as [|[k' c'] g IH]; intros Hin; [destruct Hin|].
  cbn [bump]. destruct Hin as [Heq|Hin].
  - injection Heq as -> ->. destruct (key_eqb k x); eexists; left; reflexivity.
  - destruct (key_eqb k' x).
    + exists c0. right. exact Hin.
    + destruct (IH Hin) as [c Hc]. exists c. right. exact Hc.
Qed.

Lemma bump_has_key (g : list bucket) :
  exists k c, In (k, c) (bump x g) /\ key_eqb k x = true.
Proof.
  induction g as [|[k' c'] g IH]; cbn [bump].
  - exists x, 1. split; [left; reflexivity|apply key_eqb_refl; exact x_notna].
  - destruct (key_eqb k' x) eqn:Hk'.
    + exists k', (c' + 1). split; [left; reflexivity|exact Hk'].
    + destruct IH as (k & c & Hin & Hk). exists k, c.
      split; [right; exact Hin|exact Hk].
Qed.

Lemma bump_keys_from (g : list bucket) (b : bucket) :
  In b (bump x g) -> fst b = x \/ exists b0, In b0 g /\ fst b0 = fst b.
Proof.
  induction g as [|[k' c'] g IH]; cbn [bump]; intros Hin.
  - destruct Hin as [<-|[]]. left. reflexivity.
  - destruct (key_eqb k' x).
    + destruct Hin as [<-|Hin].
      * right. exists (k', c'). split; [left; reflexivity|reflexivity].
      * right. exists b. split; [right; exact Hin|reflexivity].
    + destruct Hin as [<-|Hin].
      * right. exists (k', c'). split; [left; reflexivity|reflexivity].
      * destruct (IH Hin) as [Hx|(b0 & Hb0 & Hf)]; [left; exact Hx|].
        right. exists b0. split; [right; exact Hb0|exact Hf].
Qed.

Lemma bump_distinct (g : list bucket) :
  distinct_keys g -> distinct_keys (bump x g).
Proof.
  induction g as [|[k' c'] g IH]; intros Hd.
  - cbn. split; [constructor|exact I].
  - cbn [bump]. destruct Hd as [Hfirst Hd].
    destruct (key_eqb k' x) eqn:Hk'.
    + split; [exact Hfirst|exact Hd].
    + split; [|apply IH; exact Hd].
      rewrite Forall_forall. intros b Hb. cbn [fst].
      apply list_elem_of_In in Hb.
      destruct (bump_keys_from g b Hb) as [->|(b0 & Hb0 & <-)]; [exact Hk'|].
      rewrite Forall_forall in Hfirst. apply (Hfirst b0).
      apply list_elem_of_In. exact Hb0.
Qed.

End Bump.

Lemma counts_of_step (seen : list key) (g : list bucket) (x : key) :
  counts_of seen g -> counts_of (seen ++ [x]) (count_key g x).
Proof.
  intros (Hd & Hc & Hall). unfold count_key.
  destruct (key_isna x) eqn:Hx.
  - split; [exact Hd|]. split.
    + intros k c Hin. destruct (Hc k c Hin) as [-> H1].
      rewrite bucket_size_snoc, (key_eqb_isna k x Hx). split; lia.
    + intros y Hy Hyna. apply in_app_or in Hy as [Hy|[<-|[]]].
      * apply Hall; assumption.
      * congruence.
  - split; [apply bump_distinct; exact Hd|]. split.
    + intros k c Hin.
      destruct (bump_inv x g k c Hd Hin) as [(c0 & Hc0 & ->)|[Heq Hnone]].
      * destruct (Hc k c0 Hc0) as [-> H1]. rewrite bucket_size_snoc.
        destruct (key_eqb k x); split; lia.
      * injection Heq as -> ->. rewrite bucket_size_snoc, (key_eqb_refl x Hx).
        assert (Hz : bucket_size x seen = 0).
        { unfold bucket_size.
          destruct (List.filter (key_eqb x) seen) as [|y l] eqn:Hf; [reflexivity|].
          exfalso.
          assert (Hy : In y (List.filter (key_eqb x) seen)) by (rewrite Hf; left; reflexivity).
          apply List.filter_In in Hy as [Hy Hxy].
          assert (Hyna : key_isna y = false).
          { destruct (key_isna y) eqn:E; [|reflexivity].
            rewrite (key_eqb_isna x y E) in Hxy. discriminate. }
          destruct (Hall y Hy Hyna) as (k & c & Hin' & Hky).
          rewrite Forall_forall in Hnone.
          assert (Hkx : key_eqb k x = false).
          { apply (Hnone (k, c)). apply list_elem_of_In. exact Hin'. }
          rewrite (key_eqb_sym x y) in Hxy.
          rewrite (key_eqb_trans k y x Hky Hxy) in Hkx. discriminate. }
        rewrite Hz. split; lia.
    + intros y Hy Hyna. apply in_app_or in Hy as [Hy|[<-|[]]].
      * destruct (Hall y Hy Hyna) as (k & c0 & Hin & Hk).
        destruct (bump_keeps_keys x g k c0 Hin) as [c Hc'].
        exists k, c. split; assumption.
      * apply bump_has_key. exact Hx.
Qed.

Lemma counts_of_fold (bins : list key) : forall seen g,
  counts_of seen g -> counts_of (seen ++ bins) (fold_left count_key bins g).
Proof.
  induction bins as [|x bins IH]; intros seen g Hg; cbn [fold_left].
  - rewrite app_nil_r. exact Hg.
  - replace (seen ++ x :: bins)%list with ((seen ++ [x]) ++ bins)%list
      by (rewrite <- app_assoc; reflexivity).
    apply IH. apply counts_of_step. exact Hg.
Qed.

Lemma counts_of_nil : counts_of [] [].
Proof.
  split; [exact I|]. split.
  - intros k c [].
  - intros x [].
Qed.

Lemma insert_sorted_In (b x : bucket) (g : list bucket) :
  In b (insert_sorted x g) <-> b = x \/ In b g.
Proof.
  induction g as [|y g IH]; cbn [insert_sorted].
  - cbn. intuition congruence.
  - destruct (key_ltb (fst y) (fst x)); cbn [In]; [rewrite IH|];
      intuition congruence.
Qed.

Lemma sort_buckets_In (b : bucket) (g : list bucket) :
  In b (fold_right insert_sorted [] g) <-> In b g.
Proof.
  induction g as [|y g IH]; cbn [fold_right]; [reflexivity|].
  rewrite insert_sorted_In, IH. cbn [In]. intuition congruence.
Qed.

(** The grouped frame lists every bucket with its size. *)
Lemma groupby_size_In (bins : list key) (k : key) (c : Z) :
  In (k, c) (groupby_size bins) ->
  c = bucket_size k bins /\ 1 <= c.
Proof.
  unfold groupby_size. rewrite sort_buckets_In. intros Hin.
  destruct (counts_of_fold bins [] [] counts_of_nil) as (_ & Hc & _).
  apply Hc. exact Hin.
Qed.

Lemma groupby_size_covers (bins : list key) (x : key) :
  In x bins -> key_isna x = false ->
  exists k c, In (k, c) (groupby_size bins) /\ key_eqb k x = true.
Proof.
  intros Hx Hna.
  destruct (counts_of_fold bins [] [] counts_of_nil) as (_ & _ & Hall).
  destruct (Hall x Hx Hna) as (k & c & Hin & Hk).
  exists k, c. split; [|exact Hk].
  unfold groupby_size. rewrite sort_buckets_In. exact Hin.
Qed.

Lemma dropna_all_missing (df : dataframe) :
  (forall r, In r df ->
             is_nan (latitude r) = true \/ is_nan (longitude r) = true) ->
  dropna df = [].
Proof.
  induction df as [|r df IH]; intros Hall; [reflexivity|].
  unfold dropna. cbn [List.filter].
  assert (Hr : negb (is_nan (latitude r)) && negb (is_nan (longitude r)) = false).
  { destruct (Hall r (or_introl eq_refl)) as [-> | ->];
      [reflexivity|apply andb_false_r]. }
  rewrite Hr. apply IH. intros r' Hr'. apply Hall. right. exact Hr'.
Qed.

(** * Further properties *)

(** ** Degenerate zones *)

Lemma edge_step_on_meridian (c lat lon : float) (p1 p2 : point)
    (inside : bool) (xinters : option float) :
  on_meridian c p1 -> on_meridian c p2 ->
  edge_step lat lon p1 p2 inside xinters = inr (inside, xinters).
Proof.
  unfold on_meridian. intros H1 H2. apply edge_step_unexamined.
  unfold edge_examined.
  rewrite (equal_longitude_out_of_range lon p1 p2); [reflexivity|].
  unfold equal_longitude. apply (feq_trans _ c); [exact H1|].
  rewrite feq_sym. exact H2.
Qed.

Lemma pip_loop_on_meridian (c lat lon : float) (polygon : list point)
    (idxs : list nat) :
  polygon <> [] -> Forall (on_meridian c) polygon ->
  forall inside xinters p1, on_meridian c p1 ->
    pip_loop lat lon polygon idxs inside xinters p1 = inr inside.
Proof.
  intros Hne Hall.
  assert (Hlen : (length polygon <> 0)%nat) by (destruct polygon; cbn; congruence).
  induction idxs as [|i idxs IH]; intros inside xinters p1 Hp1; cbn [pip_loop].
  - reflexivity.
  - pose proof (Nat.mod_upper_bound i (length polygon) Hlen) as Hlt.
    destruct (lookup_lt_is_Some_2 polygon _ Hlt) as [p2 Hp2]. rewrite Hp2.
    assert (Hc2 : on_meridian c p2).
    { rewrite Forall_forall in Hall. apply Hall.
      apply (list_elem_of_lookup_2 _ _ _ Hp2). }
    rewrite (edge_step_on_meridian c lat lon p1 p2 inside xinters Hp1 Hc2).
    cbn [rbind fst snd]. apply IH. exact Hc2.
Qed.

Lemma point_in_polygon_on_meridian (c : float) (pt : point)
    (polygon : list point) :
  polygon <> [] -> Forall (on_meridian c) polygon ->
  _point_in_polygon pt polygon = inr false.
Proof.
  intros Hne Hall. destruct pt as [lat lon]. unfold _point_in_polygon.
  destruct polygon as [|p0 polygon'] eqn:Hp; [congruence|].
  cbn [lookup list_lookup]. rewrite <- Hp in *.
  apply (pip_loop_on_meridian c); [exact Hne|exact Hall|].
  rewrite Hp in Hall. inversion Hall; assumption.
Qed.

(** X1.  A polygon whose vertices all lie on one meridian (their
    longitudes compare equal) contains no point: no edge passes the two
    longitude guards, so the membership test returns [False] for every
    point. *)
Theorem polygon_on_one_meridian_contains_nothing (c : float) (pt : point)
    (polygon : list point) :
  polygon <> [] -> Forall (on_meridian c) polygon ->
  _point_in_polygon pt polygon = inr false.
Proof. apply point_in_polygon_on_meridian. Qed.

Lemma polygon_on_one_meridian_contains_nothing_witness :
  _point_in_polygon centre [(float_of_Z 0, float_of_Z 1); (float_of_Z 1, float_of_Z 1)]
    = inr false.
Proof.
  apply (polygon_on_one_meridian_contains_nothing (float_of_Z 1)).
  - discriminate.
  - repeat constructor.
Defined.

Lemma retry_loop_on_meridian (c : float) (bounds : list point) (bx : box)
    (k : nat) :
  bounds <> [] -> Forall (on_meridian c) bounds ->
  forall w,
    retry_loop k (min_lat bx) (max_lat bx) (min_lon bx) (max_lon bx) bounds w
      = (inr None, advance w (2 * k)).
Proof.
  intros Hne Hall. induction k as [|k IH]; intros w.
  - unfold advance. cbn [retry_loop ret Nat.mul]. rewrite Nat.add_0_r.
    destruct w; reflexivity.
  - rewrite retry_loop_step.
    rewrite (point_in_polygon_on_meridian c _ bounds Hne Hall).
    rewrite IH, advance_advance. f_equal. f_equal. lia.
Qed.

(** X2.  On a polygon whose vertices lie on one meridian the sampler
    rejects all hundred candidates, draws two hundred numbers and
    returns the centroid of the vertices: the mean latitude and the
    mean longitude as binary64 computes them. *)
Theorem sampler_on_one_meridian_returns_centroid (c : float)
    (bounds : list point) (w : world) :
  bounds <> [] -> Forall (on_meridian c) bounds ->
  _generate_point_in_bounds bounds w = (inr (centroid bounds), advance w 200).
Proof.
  intros Hne Hall.
  destruct (bounding_box_nonempty bounds Hne) as [bx Hbx].
  rewrite (generate_point_unfold bounds bx w Hbx).
  rewrite (retry_loop_on_meridian c bounds bx 100 Hne Hall).
  assert (Hlat : map fst bounds <> []) by (destruct bounds; cbn; congruence).
  assert (Hlon : map snd bounds <> []) by (destruct bounds; cbn; congruence).
  rewrite (mean_arithmetic_mean _ Hlat), (mean_arithmetic_mean _ Hlon).
  reflexivity.
Qed.

(** Between the vertices (0, 1) and (1, 1) the sampler returns
    (0.5, 1). *)
Lemma sampler_on_one_meridian_returns_centroid_witness :
  _generate_point_in_bounds on_meridian_one halves
  = (inr (decimal 5 1, float_of_Z 1), advance halves 200).
Proof.
  apply (sampler_on_one_meridian_returns_centroid (float_of_Z 1)
           on_meridian_one halves).
  - discriminate.
  - repeat constructor.
Defined.

(** X3.  The empty polygon.  The membership test raises [IndexError];
    the sampler raises [ValueError] before it draws anything; the zone
    generator, once it has read the clock, raises that [ValueError]
    when asked for one record or more and returns the empty frame when
    asked for none. *)
Theorem empty_zone_raises (pt : point) (n : Z)
    (crime_types : option (list string)) (days_back : Z) (w : world) :
  let w1 := World (draws w) (cursor w) (utc w) (S (utc_cursor w))
                  (millis w) (millis_cursor w) in
  _point_in_polygon pt [] = inl IndexError /\
  _generate_point_in_bounds [] w = (inl ValueError, w) /\
  (1 <= n ->
   generate_random_records_in_zone n [] crime_types days_back w
     = (inl ValueError, w1)) /\
  (n <= 0 ->
   generate_random_records_in_zone n [] crime_types days_back w
     = (inr [], w1)).
Proof.
  intros w1. split; [destruct pt; reflexivity|]. split; [reflexivity|]. split.
  - intros Hn. unfold generate_random_records_in_zone. unfold bind at 1.
    unfold datetime_utcnow at 1. fold w1.
    destruct (Z.to_nat n) as [|k] eqn:Hk; [lia|]. reflexivity.
  - intros Hn. unfold generate_random_records_in_zone. unfold bind at 1.
    unfold datetime_utcnow at 1. fold w1.
    replace (Z.to_nat n) with 0%nat by lia. reflexivity.
Qed.

(** ** The frame of records *)

Lemma lookup_columns_in (f : string -> value) (l : list string) (c : string) :
  In c l ->
  (list_to_map (map (fun c => (c, f c)) l) : record) !! c = Some (f c).
Proof.
  induction l as [|x l IH]; intros Hin; [destruct Hin|].
  cbn [map list_to_map foldr fst snd].
  destruct (decide (x = c)) as [->|Hne].
  - apply lookup_insert_eq.
  - rewrite lookup_insert_ne by exact Hne. apply IH.
    destruct Hin as [Heq|Hin]; [congruence|exact Hin].
Qed.

Lemma lookup_columns_out (f : string -> value) (l : list string) (c : string) :
  ~ In c l ->
  (list_to_map (map (fun c => (c, f c)) l) : record) !! c = None.
Proof.
  induction l as [|x l IH]; intros Hin; [apply lookup_empty|].
  cbn [map list_to_map foldr fst snd].
  rewrite lookup_insert_ne by (intros ->; apply Hin; left; reflexivity).
  apply IH. intros H. apply Hin. right. exact H.
Qed.

Lemma records_to_dataframe_map (records : list record) :
  _records_to_dataframe records = map frame_row records.
Proof. destruct records; reflexivity. Qed.

(** X4.  [_records_to_dataframe] keeps the number of records and gives
    every row exactly the columns of the schema: a key outside the
    schema is dropped and a schema column the record lacks is added. *)
Theorem frame_has_exactly_the_schema_columns (records : list record) :
  length (_records_to_dataframe records) = length records /\
  Forall (fun row => forall c, is_Some (row !! c) <-> In c SCHEMA_COLUMNS)
         (_records_to_dataframe records).
Proof.
  rewrite records_to_dataframe_map, length_map. split; [reflexivity|].
  induction records as [|r records IH]; cbn [map]; constructor; [|exact IH].
  intros c. unfold frame_row. split.
  - intros Hsome. destruct (in_dec string_dec c SCHEMA_COLUMNS) as [Hin|Hout];
      [exact Hin|].
    rewrite (lookup_columns_out _ _ _ Hout) in Hsome.
    destruct Hsome; discriminate.
  - intros Hin. rewrite (lookup_columns_in _ _ _ Hin). eexists. reflexivity.
Qed.

(** ** The records of the zone generator *)

Section GeneratorFields.

Variables (now days_back : Z) (zone_bounds : list point).
Variable crime_types : list string.
Variable good : point -> Prop.
Hypothesis sampler_good : returns (_generate_point_in_bounds zone_bounds) good.
Hypothesis types_ok : crime_types <> [].
Hypothesis days_ok : 0 <= days_back.
Hypothesis now_ok : timedelta days_back 23 59 0 <= now <= datetime_max.

Lemma returns_generate_row_fields (i : Z) :
  returns (generate_row now zone_bounds crime_types days_back i)
          (zone_record VIso good now crime_types i).
Proof.
  unfold generate_row.
  eapply returns_bind; [exact sampler_good|].
  intros pt Hpt.
  eapply returns_bind; [apply returns_choice; exact types_ok|].
  intros primary Hprimary.
  eapply returns_bind;
    [apply returns_choice; apply dict_get_crime_types_nonempty|].
  intros description Hdescription.
  eapply returns_bind; [apply returns_randint; exact days_ok|].
  intros days_ago Hdays.
  eapply returns_bind; [apply returns_randint; lia|].
  intros hours_ago Hhours.
  eapply returns_bind; [apply returns_randint; lia|].
  intros minutes_ago Hminutes. cbv beta in Hdays, Hhours, Hminutes.
  assert (Hdelta : 0 <= timedelta days_ago hours_ago minutes_ago 0
                   <= timedelta days_back 23 59 0).
  { unfold timedelta, us_per_day, us_per_hour, us_per_minute, us_per_second. lia. }
  eapply returns_bind.
  { eapply returns_lift with (P := fun t => t <= now).
    - apply datetime_sub_in_range. lia.
    - lia. }
  intros record_date Hdate. cbv beta in Hdate.
  eapply returns_bind; [apply returns_time_millis|]. intros ms _.
  eapply returns_bind; [apply returns_choice; discriminate|]. intros street _.
  eapply returns_bind; [apply returns_randint; lia|]. intros number _.
  eapply returns_bind; [apply returns_randint; lia|]. intros iucr _.
  eapply returns_bind; [apply returns_choice; discriminate|]. intros place _.
  eapply returns_bind; [apply returns_random|]. intros arrest _.
  eapply returns_bind; [apply returns_random|]. intros domestic _.
  eapply returns_bind; [apply returns_randint; lia|]. intros beat _.
  eapply returns_bind; [apply returns_randint; lia|]. intros district _.
  eapply returns_bind; [apply returns_randint; lia|]. intros ward _.
  eapply returns_bind; [apply returns_randint; lia|]. intros community_area _.
  apply returns_ret.
  exists (fst pt), (snd pt), primary, description, record_date, ms.
  split; [destruct pt; exact Hpt|]. split; [exact Hprimary|]. split; [exact Hdescription|].
  split; [exact Hdate|].
  unfold list_to_map. cbn [foldr fst snd].
  repeat split;
    repeat (first [ apply lookup_insert_eq
                  | rewrite lookup_insert_ne by discriminate ]).
Qed.

Lemma returns_generate_rows_fields (idxs : list nat) :
  returns (generate_rows now zone_bounds crime_types days_back idxs)
          (Forall2
             (fun i r => zone_record VIso good now crime_types (Z.of_nat i) r)
             idxs).
Proof.
  induction idxs as [|i idxs IH]; cbn [generate_rows].
  - apply returns_ret. constructor.
  - eapply returns_bind; [apply returns_generate_row_fields|]. intros row Hrow.
    eapply returns_bind; [apply IH|]. intros rows Hrows.
    apply returns_ret. constructor; assumption.
Qed.

End GeneratorFields.

Lemma frame_row_zone_record (good : point -> Prop) (now : Z)
    (crime_types : list string) (i : Z) (r : record) :
  zone_record VIso good now crime_types i r ->
  zone_record VDatetime good now crime_types i (frame_row r).
Proof.
  intros (lat & lon & primary & description & t & ms & H0 & H1 & H2 & H3 & Hid
          & Hcase & Hdate & Hprim & Hdesc & Hyear & Hupd & Hlat & Hlon & Hloc).
  exists lat, lon, primary, description, t, ms.
  split; [exact H0|]. split; [exact H1|]. split; [exact H2|].
  split; [exact H3|]. unfold frame_row.
  rewrite !lookup_columns_in by (unfold SCHEMA_COLUMNS; cbn; tauto).
  cbn [String.eqb Ascii.eqb Bool.eqb orb andb].
  rewrite Hid, Hcase, Hdate, Hprim, Hdesc, Hyear, Hupd, Hlat, Hlon, Hloc.
  repeat split.
Qed.

(** The generator on usable arguments: the frame it returns, row by
    row. *)
Lemma generate_records_fields (good : point -> Prop) (n : Z)
    (zone_bounds : list point) (crime_types : option (list string))
    (days_back : Z) (w : world) :
  let now := utc w (utc_cursor w) in
  usable zone_bounds crime_types days_back now ->
  returns (_generate_point_in_bounds zone_bounds) good ->
  exists df w',
    generate_random_records_in_zone n zone_bounds crime_types days_back w
      = (inr df, w') /\
    Forall2 (fun i r =>
               zone_record VDatetime good now (categories crime_types)
                 (Z.of_nat i) r)
            (seq 0 (Z.to_nat n)) df.
Proof.
  intros now (Hbounds & Htypes & Hdays & Hnow) Hgood.
  assert (Hcats : categories crime_types <> []).
  { destruct crime_types as [l|]; [cbn; congruence|discriminate]. }
  unfold generate_random_records_in_zone. unfold bind at 1.
  unfold datetime_utcnow at 1. fold now. fold (categories crime_types).
  set (w1 := World _ _ _ _ _ _).
  destruct (returns_generate_rows_fields now days_back zone_bounds
              (categories crime_types) good Hgood Hcats Hdays Hnow
              (seq 0 (Z.to_nat n)) w1)
    as (rows & w' & Hrun & Hall).
  unfold bind. rewrite Hrun. unfold ret.
  eexists. eexists. split; [reflexivity|].
  rewrite records_to_dataframe_map. clear Hrun.
  induction Hall as [|i r idxs rows Hr _ IH]; cbn [map]; constructor.
  - apply frame_row_zone_record. exact Hr.
  - exact IH.
Qed.

Lemma Forall2_Forall_right {A B} (P : A -> B -> Prop) (Q : B -> Prop)
    (l : list A) (k : list B) :
  Forall2 P l k -> (forall x y, P x y -> Q y) -> Forall Q k.
Proof.
  intros H HPQ. induction H as [|x y l k Hxy _ IH]; constructor.
  - exact (HPQ x y Hxy).
  - exact IH.
Qed.

Lemma usable_unit_square : usable unit_square None 30 (utc halves 0).
Proof.
  split; [exact unit_square_ok|]. split; [discriminate|].
  split; [lia|]. vm_compute. split; discriminate.
Qed.

(** X6.  On usable arguments every record of the zone generator has a
    [primary_type] among the categories it was given (the six of
    [CRIME_TYPES_AREQUIPA] when none are given) and a [description]
    from the list of that category, or ["Incidente"] for a category
    the table does not know. *)
Theorem generated_category_and_description (n : Z) (zone_bounds : list point)
    (crime_types : option (list string)) (days_back : Z) (w : world) :
  usable zone_bounds crime_types days_back (utc w (utc_cursor w)) ->
  exists df w',
    generate_random_records_in_zone n zone_bounds crime_types days_back w
      = (inr df, w') /\
    Forall (fun r =>
              exists primary description,
                r !! "primary_type" = Some (VStr primary) /\
                In primary (categories crime_types) /\
                r !! "description" = Some (VStr description) /\
                In description
                   (dict_get CRIME_TYPES_AREQUIPA primary ["Incidente"]))
           df.
Proof.
  intros Hok.
  destruct (generate_records_fields (fun _ => True) n zone_bounds crime_types
              days_back w Hok (returns_generate_point _ (proj1 Hok)))
    as (df & w' & Hrun & Hall).
  exists df, w'. split; [exact Hrun|].
  apply (Forall2_Forall_right _ _ _ _ Hall).
  intros i r (lat & lon & primary & description & t & ms & _ & H1 & H2 & _ & _
              & _ & _ & Hprim & Hdesc & _).
  exists primary, description. repeat split; assumption.
Qed.

Lemma generated_category_and_description_witness :
  exists df w',
    generate_random_records_in_zone 3 unit_square None 30 halves
      = (inr df, w') /\
    Forall (fun r =>
              exists primary description,
                r !! "primary_type" = Some (VStr primary) /\
                In primary (categories None) /\
                r !! "description" = Some (VStr description) /\
                In description
                   (dict_get CRIME_TYPES_AREQUIPA primary ["Incidente"]))
           df.
Proof.
  apply (generated_category_and_description 3 unit_square None 30 halves).
  exact usable_unit_square.
Defined.

(** X7.  On usable arguments the [year] of every generated record is
    the year of its [date], the date is not after the generation time,
    and [updated_on] is that one generation time in every record. *)
Theorem generated_year_and_update_time (n : Z) (zone_bounds : list point)
    (crime_types : option (list string)) (days_back : Z) (w : world) :
  let now := utc w (utc_cursor w) in
  usable zone_bounds crime_types days_back now ->
  exists df w',
    generate_random_records_in_zone n zone_bounds crime_types days_back w
      = (inr df, w') /\
    Forall (fun r =>
              exists t,
                r !! "date" = Some (VDatetime t) /\
                r !! "year" = Some (VInt (datetime_year t)) /\
                r !! "updated_on" = Some (VDatetime now) /\
                t <= now)
           df.
Proof.
  intros now Hok.
  destruct (generate_records_fields (fun _ => True) n zone_bounds crime_types
              days_back w Hok (returns_generate_point _ (proj1 Hok)))
    as (df & w' & Hrun & Hall).
  exists df, w'. split; [exact Hrun|].
  apply (Forall2_Forall_right _ _ _ _ Hall).
  intros i r (lat & lon & primary & description & t & ms & _ & _ & _ & Ht & _
              & _ & Hdate & _ & _ & Hyear & Hupd & _).
  exists t. repeat split; assumption.
Qed.

Lemma generated_year_and_update_time_witness :
  exists df w',
    generate_random_records_in_zone 3 unit_square None 30 halves
      = (inr df, w') /\
    Forall (fun r =>
              exists t,
                r !! "date" = Some (VDatetime t) /\
                r !! "year" = Some (VInt (datetime_year t)) /\
                r !! "updated_on" = Some (VDatetime (utc halves 0)) /\
                t <= utc halves 0)
           df.
Proof.
  apply (generated_year_and_update_time 3 unit_square None 30 halves).
  exact usable_unit_square.
Defined.

(** X8.  On usable arguments the [k]-th record of the frame carries
    [k] at the end of its [id] and, padded to six digits, at the end of
    its [case_number], after the year its [year] field holds. *)
Theorem generated_identifiers_carry_row_index (n : Z)
    (zone_bounds : list point) (crime_types : option (list string))
    (days_back : Z) (w : world) :
  usable zone_bounds crime_types days_back (utc w (utc_cursor w)) ->
  exists df w',
    generate_random_records_in_zone n zone_bounds crime_types days_back w
      = (inr df, w') /\
    forall k, (k < Z.to_nat n)%nat ->
      exists r ms year,
        df !! k = Some r /\
        r !! "id"
          = Some (VFmt [Lit "ARQ-"; Dec ms; Lit "-"; Dec (Z.of_nat k)]) /\
        r !! "case_number"
          = Some (VFmt [Lit "AQP"; Dec year; DecPad 6 (Z.of_nat k)]) /\
        r !! "year" = Some (VInt year).
Proof.
  intros Hok.
  destruct (generate_records_fields (fun _ => True) n zone_bounds crime_types
              days_back w Hok (returns_generate_point _ (proj1 Hok)))
    as (df & w' & Hrun & Hall).
  exists df, w'. split; [exact Hrun|]. intros k Hk.
  assert (Hseq : seq 0 (Z.to_nat n) !! k = Some k).
  { apply lookup_seq. split; [reflexivity|exact Hk]. }
  destruct (Forall2_lookup_l _ _ _ _ _ Hall Hseq) as (r & Hr & Hrec).
  destruct Hrec as (lat & lon & primary & description & t & ms & _ & _ & _ & _
                    & Hid & Hcase & _ & _ & _ & Hyear & _).
  exists r, ms, (datetime_year t). repeat split; assumption.
Qed.

Lemma generated_identifiers_carry_row_index_witness :
  exists df w',
    generate_random_records_in_zone 3 unit_square None 30 halves
      = (inr df, w') /\
    forall k, (k < Z.to_nat 3)%nat ->
      exists r ms year,
        df !! k = Some r /\
        r !! "id"
          = Some (VFmt [Lit "ARQ-"; Dec ms; Lit "-"; Dec (Z.of_nat k)]) /\
        r !! "case_number"
          = Some (VFmt [Lit "AQP"; Dec year; DecPad 6 (Z.of_nat k)]) /\
        r !! "year" = Some (VInt year).
Proof.
  apply (generated_identifiers_carry_row_index 3 unit_square None 30 halves).
  exact usable_unit_square.
Defined.

(** ** The original generator *)

Lemma returns_uniform (a b : float) :
  returns (random_uniform a b) (fun _ => True).
Proof.
  unfold random_uniform. eapply returns_bind; [apply returns_random|].
  intros r _. apply returns_ret. exact I.
Qed.

Lemma returns_generate_random_row (now : Z) (base_lat base_lon : option float)
    (i : Z) :
  returns (Session.generate_random_row now base_lat base_lon i)
          (test_record VIso VNone now base_lat base_lon).
Proof.
  unfold Session.generate_random_row.
  eapply returns_bind with
    (P := fun coords =>
            match base_lat, base_lon with
            | Some _, Some _ =>
                exists lat lon, coords = (VFloat lat, VFloat lon)
            | _, _ => coords = (VNone, VNone)
            end).
  { destruct base_lat as [a|], base_lon as [b|];
      try (apply returns_ret; reflexivity).
    eapply returns_bind; [apply returns_uniform|]. intros u _.
    eapply returns_bind; [apply returns_uniform|]. intros v _.
    apply returns_ret. eexists. eexists. reflexivity. }
  intros coords Hcoords.
  eapply returns_bind; [apply returns_time_millis|]. intros ms _.
  eapply returns_bind; [apply returns_choice; discriminate|]. intros primary _.
  eapply returns_bind; [apply returns_choice; discriminate|]. intros arrest _.
  eapply returns_bind; [apply returns_choice; discriminate|]. intros domestic _.
  apply returns_ret. unfold test_record, list_to_map. cbn [foldr fst snd].
  split; [|split; [|split]];
    try (repeat (first [ apply lookup_insert_eq
                       | rewrite lookup_insert_ne by discriminate ])).
  destruct base_lat as [a|], base_lon as [b|];
    try (destruct Hcoords as (lat & lon & ->); exists lat, lon);
    try (rewrite Hcoords); cbn [fst snd];
    (split;
     repeat (first [ apply lookup_insert_eq
                   | rewrite lookup_insert_ne by discriminate ])).
Qed.

Lemma returns_generate_random_rows (now : Z) (base_lat base_lon : option float)
    (idxs : list nat) :
  returns (Session.generate_random_rows now base_lat base_lon idxs)
          (fun rows =>
             length rows = length idxs /\
             Forall (test_record VIso VNone now base_lat base_lon) rows).
Proof.
  induction idxs as [|i idxs IH]; cbn [Session.generate_random_rows].
  - apply returns_ret. split; [reflexivity|constructor].
  - eapply returns_bind; [apply returns_generate_random_row|]. intros row Hrow.
    eapply returns_bind; [apply IH|]. intros rows [Hlen Hall].
    apply returns_ret. split; [cbn [length]; congruence|].
    constructor; assumption.
Qed.

Lemma frame_row_test_record (now : Z) (base_lat base_lon : option float)
    (r : record) :
  test_record VIso VNone now base_lat base_lon r ->
  test_record VDatetime (VFloat S754_nan) now base_lat base_lon (frame_row r).
Proof.
  intros (Hdate & Hupd & Hyear & Hcoords). unfold test_record, frame_row.
  rewrite !lookup_columns_in by (unfold SCHEMA_COLUMNS; cbn; tauto).
  cbn [String.eqb Ascii.eqb Bool.eqb orb andb].
  rewrite Hdate, Hupd, Hyear. repeat split.
  destruct base_lat as [a|], base_lon as [b|];
    try (destruct Hcoords as (lat & lon & -> & ->); exists lat, lon);
    try (destruct Hcoords as [-> ->]); split; reflexivity.
Qed.

Lemma generate_random_records_spec (n : Z) (base_lat base_lon : option float)
    (w : world) :
  exists df w',
    Session.generate_random_records n base_lat base_lon w = (inr df, w') /\
    length df = Z.to_nat n /\
    Forall (test_record VDatetime (VFloat S754_nan) (utc w (utc_cursor w))
              base_lat base_lon) df.
Proof.
  unfold Session.generate_random_records. unfold bind at 1.
  unfold datetime_utcnow at 1.
  set (now := utc w (utc_cursor w)). set (w1 := World _ _ _ _ _ _).
  destruct (returns_generate_random_rows now base_lat base_lon
              (seq 0 (Z.to_nat n)) w1) as (rows & w' & Hrun & Hlen & Hall).
  unfold bind. rewrite Hrun. unfold ret.
  eexists. eexists. split; [reflexivity|].
  rewrite records_to_dataframe_map, length_map, Hlen, length_seq.
  split; [reflexivity|]. clear Hrun Hlen.
  induction Hall as [|r rows Hr _ IH]; cbn [map]; constructor.
  - apply frame_row_test_record. exact Hr.
  - exact IH.
Qed.

(** X9.  [generate_random_records] never raises: for every [n] and
    every base point it returns exactly [n] records (none for a
    negative [n]), each dated at the generation time, with that time as
    [updated_on] and its year as [year]. *)
Theorem original_generator_returns_n_records (n : Z)
    (base_lat base_lon : option float) (w : world) :
  let now := utc w (utc_cursor w) in
  exists df w',
    Session.generate_random_records n base_lat base_lon w = (inr df, w') /\
    length df = Z.to_nat n /\
    Forall (fun r =>
              r !! "date" = Some (VDatetime now) /\
              r !! "updated_on" = Some (VDatetime now) /\
              r !! "year" = Some (VInt (datetime_year now)))
           df.
Proof.
  intros now.
  destruct (generate_random_records_spec n base_lat base_lon w)
    as (df & w' & Hrun & Hlen & Hall).
  exists df, w'. split; [exact Hrun|]. split; [exact Hlen|].
  apply (Forall_impl _ _ _ Hall). intros r (H1 & H2 & H3 & _).
  repeat split; assumption.
Qed.

(** ** The session *)

(** X11.  The records of the session.  Records added as Arequipa
    records come before those already held; records added as Chicago
    records leave them alone; clearing leaves none and does not touch
    the Chicago frame; what is added after clearing is all that is
    held. *)
Theorem session_records_round_trip (df df' : dataframe)
    (ss : Session.session) :
  Session.get_arequipa_records (Session.add_records_to_session df true ss)
    = (df ++ Session.get_arequipa_records ss)%list /\
  Session.get_arequipa_records (Session.add_records_to_session df false ss)
    = Session.get_arequipa_records ss /\
  Session.get_arequipa_records
    (Session.add_records_to_session df' true
       (Session.add_records_to_session df true ss))
    = (df' ++ df ++ Session.get_arequipa_records ss)%list /\
  Session.get_arequipa_records (Session.clear_arequipa_records ss) = [] /\
  Session._chicago_last_df (Session.clear_arequipa_records ss)
    = Session._chicago_last_df ss /\
  Session.get_arequipa_records
    (Session.add_records_to_session df true
       (Session.clear_arequipa_records ss)) = df.
Proof.
  destruct ss as [[a|] c]; cbn; rewrite ?app_nil_r; repeat split; reflexivity.
Qed.

(** X12.  The zone generator with [store_in_session].  When it returns
    a frame, that frame is what it has put in front of the session's
    Arequipa records (nothing when [store_in_session] is off); when it
    raises, the session is as it was. *)
Theorem zone_generator_stores_its_frame (n : Z) (zone_bounds : list point)
    (crime_types : option (list string)) (days_back : Z)
    (store_in_session : bool) (w : world) (ss : Session.session) :
  match Session.generate_random_records_in_zone n zone_bounds crime_types
          days_back store_in_session (w, ss) with
  | (inr df, (w', ss')) =>
      generate_random_records_in_zone n zone_bounds crime_types days_back w
        = (inr df, w') /\
      Session.get_arequipa_records ss'
        = (if store_in_session
           then df ++ Session.get_arequipa_records ss
           else Session.get_arequipa_records ss)%list /\
      Session._chicago_last_df ss' = Session._chicago_last_df ss
  | (inl e, (w', ss')) =>
      generate_random_records_in_zone n zone_bounds crime_types days_back w
        = (inl e, w') /\
      ss' = ss
  end.
Proof.
  unfold Session.generate_random_records_in_zone. cbn [fst snd].
  destruct (generate_random_records_in_zone n zone_bounds crime_types
              days_back w) as [[e|df] w'].
  - split; reflexivity.
  - split; [reflexivity|]. destruct store_in_session; split; reflexivity.
Qed.

(** ** The storage step, continued *)

Lemma try_enforce_world (l : ref) (s : state) :
  exists s',
    try_pass (_enforce_recent_date l) s = (inr tt, s') /\
    the_world s' = after_stamps (the_world s) 1.
Proof.
  unfold try_pass. rewrite enforce_recent_date_run.
  destruct (datetime_sub _ _) as [e|t]; eexists; (split; [reflexivity|]);
    cbn [the_world]; unfold after_stamps; f_equal; lia.
Qed.

Lemma after_stamps_add (w : world) (n m : nat) :
  after_stamps (after_stamps w n) m = after_stamps w (n + m).
Proof. unfold after_stamps; cbn. f_equal; lia. Qed.

Lemma enforce_all_world (records : list ref) : forall s,
  exists s',
    enforce_all records s = (inr tt, s') /\
    the_world s' = after_stamps (the_world s) (length records).
Proof.
  induction records as [|r records IH]; intros s.
  - exists s. split; [reflexivity|]. unfold after_stamps. cbn [length].
    rewrite Nat.mul_0_r, !Nat.add_0_r. destruct (the_world s); reflexivity.
  - destruct (try_enforce_world r s) as (s1 & Hrun1 & Hw1).
    destruct (IH s1) as (s' & Hrun & Hw).
    exists s'. split.
    + cbn [enforce_all]. unfold bind at 1. rewrite Hrun1. exact Hrun.
    + rewrite Hw, Hw1, after_stamps_add. reflexivity.
Qed.

Lemma insert_crimes_run (mode : db_mode) (records : list ref) (s : state) :
  exists s',
    enforce_all records s = (inr tt, s') /\
    insert_crimes mode records s =
      (inr (map (fun r =>
                   map (fun col =>
                          match mode with
                          | Sqlite => _normalize_value
                          | Postgres => _pg_norm
                          end (rec_get (default ∅ (heap s' !! r)) col))
                       columns)
                records), s').
Proof.
  destruct (enforce_all_world records s) as (s' & Hrun & _).
  exists s'. split; [exact Hrun|].
  destruct records as [|r records].
  - cbn in Hrun. injection Hrun as <-. reflexivity.
  - unfold insert_crimes. unfold bind at 1. rewrite Hrun. reflexivity.
Qed.

(** X13.  The stamping and normalising steps of [insert_crimes] never
    raise.  It returns one tuple per record and takes exactly one
    reading of the clock and two draws per record, also for a record
    whose new date could not be computed; an empty batch takes none. *)
Theorem insert_crimes_clock_and_draws (mode : db_mode) (records : list ref)
    (s : state) :
  exists rows s',
    insert_crimes mode records s = (inr rows, s') /\
    length rows = length records /\
    the_world s' = after_stamps (the_world s) (length records).
Proof.
  destruct (insert_crimes_run mode records s) as (s' & Hall & Hrun).
  destruct (enforce_all_world records s) as (s2 & Hall2 & Hw).
  rewrite Hall in Hall2. injection Hall2 as <-.
  eexists. exists s'. split; [exact Hrun|]. split; [apply length_map|exact Hw].
Qed.

(** X14.  In sqlite mode every tuple has twenty values and none of
    them is a bool or a datetime: bools are sent as integers and
    datetimes as ISO text. *)
Theorem sqlite_tuples_are_normalized (records : list ref) (s : state) :
  exists rows s',
    insert_crimes Sqlite records s = (inr rows, s') /\
    Forall (fun row =>
              length row = 20%nat /\
              Forall (fun v => sqlite_value v = true) row)
           rows.
Proof.
  destruct (insert_crimes_run Sqlite records s) as (s' & _ & Hrun).
  eexists. exists s'. split; [exact Hrun|].
  rewrite Forall_forall. intros row Hrow.
  apply list_elem_of_In, in_map_iff in Hrow as (r & <- & _).
  split; [reflexivity|].
  rewrite Forall_forall. intros v Hv.
  apply list_elem_of_In, in_map_iff in Hv as (col & <- & _).
  destruct (rec_get _ col); reflexivity.
Qed.

Lemma stamped_record_tuple (mode : db_mode) (w : world)
    (h : gmap ref record) (l : ref) :
  stamped_record w h l ->
  stamped_tuple mode w
    (map (fun col =>
            match mode with
            | Sqlite => _normalize_value
            | Postgres => _pg_norm
            end (rec_get (default ∅ (h !! l)) col))
         columns).
Proof.
  intros (i & t & Hb & Hdate & Hupd & Hyear). exists i, t.
  split; [exact Hb|]. unfold field in Hdate, Hupd, Hyear.
  destruct (h !! l) as [d|]; [|discriminate]. cbn [default].
  unfold columns, rec_get, id. cbn [map].
  rewrite Hdate, Hupd, Hyear. destruct mode; repeat split.
Qed.

(** With a sound clock, the tuples of records held in the store carry
    the dates the storage step has just written. *)
Lemma insert_crimes_stamped_tuples (mode : db_mode) (records : list ref)
    (s : state) :
  clock_ok (the_world s) ->
  Forall (fun l => is_Some (heap s !! l)) records ->
  exists rows s',
    insert_crimes mode records s = (inr rows, s') /\
    Forall (stamped_tuple mode (the_world s)) rows.
Proof.
  intros Hclock Hin.
  destruct (insert_crimes_run mode records s) as (s' & Hall & Hrun).
  destruct (enforce_all_spec records s) as (s2 & Hall2 & _ & _ & _ & Hstamp).
  rewrite Hall in Hall2. injection Hall2 as <-.
  eexists. exists s'. split; [exact Hrun|].
  rewrite Forall_forall. intros row Hrow.
  apply list_elem_of_In, in_map_iff in Hrow as (r & <- & Hr).
  apply stamped_record_tuple. apply (Hstamp Hclock).
  - left. exact Hr.
  - rewrite Forall_forall in Hin. apply Hin, list_elem_of_In, Hr.
Qed.

(** X15.  With a sound clock, the tuples of records held in the store
    carry the dates the storage step has just written: under [date] a
    datetime between 1 h 59 min 59 s and 1 h before a reading of the
    clock, that reading under [updated_on] and the year of the date
    under [year]; as ISO text for sqlite, as datetimes for postgres. *)
Theorem sent_tuples_carry_the_new_dates (mode : db_mode)
    (records : list ref) (s : state) :
  clock_ok (the_world s) ->
  Forall (fun l => is_Some (heap s !! l)) records ->
  exists rows s',
    insert_crimes mode records s = (inr rows, s') /\
    Forall (stamped_tuple mode (the_world s)) rows.
Proof. apply insert_crimes_stamped_tuples. Qed.

Lemma clock_ok_halves : clock_ok halves.
Proof. intros i. vm_compute. split; discriminate. Qed.

Lemma sent_tuples_carry_the_new_dates_witness :
  exists rows s',
    insert_crimes Sqlite [0%nat] (State halves {[ 0%nat := latitude_only ]})
      = (inr rows, s') /\
    Forall (stamped_tuple Sqlite halves) rows.
Proof.
  apply (sent_tuples_carry_the_new_dates Sqlite [0%nat]
           (State halves {[ 0%nat := latitude_only ]})).
  - exact clock_ok_halves.
  - repeat constructor. eexists. apply lookup_singleton_eq.
Defined.

(** ** The storage step, record by record *)

(** One guarded call: the record is stamped when the new date is a
    date, and left alone when computing it overflows. *)
Lemma try_enforce_run (l : ref) (s : state) :
  let w := the_world s in
  try_pass (_enforce_recent_date l) s =
    (inr tt,
     State (after_stamps w 1)
           (if (0 <=? recent_date w 0) && (recent_date w 0 <=? datetime_max)
            then alter (stamp (insertion_time w 0) (recent_date w 0)) l (heap s)
            else heap s)).
Proof.
  intros w. unfold try_pass. rewrite enforce_recent_date_run. fold w.
  unfold datetime_sub, recent_date, insertion_time.
  rewrite !Nat.mul_0_r, !Nat.add_0_r.
  replace (cursor w + 1)%nat with (S (cursor w)) by lia.
  assert (Htd : forall a b, timedelta 0 1 a b
                            = 3600000000 + a * 60000000 + b * 1000000).
  { intros a b. unfold timedelta, us_per_day, us_per_hour, us_per_minute,
      us_per_second. lia. }
  rewrite Htd.
  assert (Hw : World (draws w) (S (S (cursor w))) (utc w) (S (utc_cursor w))
                 (millis w) (millis_cursor w) = after_stamps w 1).
  { unfold after_stamps. f_equal; lia. }
  rewrite Hw.
  destruct ((0 <=? _) && (_ <=? datetime_max)); reflexivity.
Qed.

Lemma insertion_time_after (w : world) (j : nat) :
  insertion_time (after_stamps w 1) j = insertion_time w (S j).
Proof.
  unfold insertion_time, after_stamps.
  cbn [utc utc_cursor]. f_equal. lia.
Qed.

Lemma recent_date_after (w : world) (j : nat) :
  recent_date (after_stamps w 1) j = recent_date w (S j).
Proof.
  unfold recent_date. rewrite insertion_time_after.
  unfold after_stamps. cbn [draws cursor].
  replace (cursor w + 2 * 1 + 2 * j)%nat with (cursor w + 2 * S j)%nat by lia.
  reflexivity.
Qed.

Lemma recent_date_window (w : world) (j : nat) :
  insertion_time w j - timedelta 0 1 59 59 <= recent_date w j
  <= insertion_time w j - timedelta 0 1 0 0.
Proof.
  unfold recent_date, timedelta, us_per_day, us_per_hour, us_per_minute,
    us_per_second.
  pose proof (Z.mod_pos_bound (Z.of_N (draws w (cursor w + 2 * j))) 60
                ltac:(lia)).
  pose proof (Z.mod_pos_bound (Z.of_N (draws w (cursor w + 2 * j + 1))) 60
                ltac:(lia)).
  lia.
Qed.

Lemma recent_date_valid (w : world) (j : nat) :
  clock_ok w -> 0 <= recent_date w j <= datetime_max.
Proof.
  intros Hclock. pose proof (recent_date_window w j) as Hwin.
  specialize (Hclock (utc_cursor w + j)%nat). fold (insertion_time w j) in Hclock.
  unfold timedelta, us_per_day, us_per_hour, us_per_minute, us_per_second in *.
  lia.
Qed.

(** The loop over the batch: every record is stamped from its own
    reading of the clock and its own two draws; a record listed once
    more later is stamped again. *)
Lemma enforce_all_stamps (records : list ref) : forall s,
  exists s',
    enforce_all records s = (inr tt, s') /\
    (forall l, ~ In l records -> heap s' !! l = heap s !! l) /\
    (forall l, is_Some (heap s' !! l) <-> is_Some (heap s !! l)) /\
    (forall j l,
       records !! j = Some l -> ~ In l (drop (S j) records) ->
       is_Some (heap s !! l) ->
       0 <= recent_date (the_world s) j <= datetime_max ->
       field (heap s') l "date"
         = Some (VDatetime (recent_date (the_world s) j)) /\
       field (heap s') l "updated_on"
         = Some (VDatetime (insertion_time (the_world s) j)) /\
       field (heap s') l "year"
         = Some (VInt (datetime_year (recent_date (the_world s) j)))).
Proof.
  induction records as [|r records IH]; intros s.
  - exists s. split; [reflexivity|]. split; [reflexivity|].
    split; [reflexivity|]. intros j l Hj. rewrite lookup_nil in Hj.
    discriminate.
  - pose proof (try_enforce_run r s) as Hrun1. cbv zeta in Hrun1.
    set (w := the_world s) in *.
    set (h1 := if (0 <=? recent_date w 0) && (recent_date w 0 <=? datetime_max)
               then alter (stamp (insertion_time w 0) (recent_date w 0)) r
                          (heap s)
               else heap s) in *.
    assert (Hother1 : forall l, l <> r -> h1 !! l = heap s !! l).
    { intros l Hl. unfold h1. destruct (_ && _); [|reflexivity].
      apply lookup_alter_ne. congruence. }
    assert (Hdom1 : forall l, is_Some (h1 !! l) <-> is_Some (heap s !! l)).
    { intros l. unfold h1. destruct (_ && _); [|reflexivity].
      destruct (decide (l = r)) as [->|Hl].
      - rewrite lookup_alter_eq, fmap_is_Some. reflexivity.
      - rewrite lookup_alter_ne by congruence. reflexivity. }
    destruct (IH (State (after_stamps w 1) h1))
      as (s' & Hrun & Hout & Hdom & Hstamp).
    cbn [the_world heap] in Hout, Hdom, Hstamp.
    exists s'. split.
    { cbn [enforce_all]. unfold bind at 1. rewrite Hrun1. exact Hrun. }
    split; [|split].
    + intros l Hl. rewrite Hout by (intros H; apply Hl; right; exact H).
      apply Hother1. intros ->. apply Hl. left. reflexivity.
    + intros l. rewrite Hdom. apply Hdom1.
    + intros [|j] l Hj Hlast Hsome Hvalid.
      * cbn in Hj. injection Hj as ->. cbn [drop] in Hlast.
        unfold field. rewrite (Hout l Hlast). unfold h1.
        replace ((0 <=? recent_date w 0) && (recent_date w 0 <=? datetime_max))
          with true
          by (symmetry; apply andb_true_iff; split; apply Z.leb_le; lia).
        apply field_alter_stamp_same. exact Hsome.
      * cbn in Hj. cbn [drop] in Hlast.
        rewrite <- insertion_time_after, <- recent_date_after.
        apply Hstamp; [exact Hj|exact Hlast|apply Hdom1; exact Hsome|].
        rewrite recent_date_after. exact Hvalid.
Qed.

(** The database comes after the stamping: it decides whether the
    step raises, not what the records become. *)
Lemma insert_crimes_into_run (b : backend) (mode : db_mode)
    (records : list ref) (s : state) (sent : list (list value)) (s' : state) :
  insert_crimes mode records s = (inr sent, s') ->
  insert_crimes_into b mode records s =
    match b, records with
    | Down, _ :: _ => (inl DatabaseError, s')
    | _, _ => (inr sent, s')
    end.
Proof.
  intros Hins. destruct records as [|r records].
  - cbn in Hins. injection Hins as <- <-. destruct b; reflexivity.
  - unfold insert_crimes_into, bind. rewrite Hins. destruct b; reflexivity.
Qed.

(** C7, amended.  The storage step builds one parameter tuple per
    record; it raises only when the database does, and whether or not
    the database takes the batch it has by then overwritten, in place,
    the [date], [updated_on] and [year] of the records of the batch.
    Every other field of every record, and every record outside the
    batch, is as it was.  The records are stamped one after the other,
    each from its own reading of the clock, its insertion time: the
    record ends with a date between 1 h and 1 h 59 min 59 s before its
    insertion time (one hour and the drawn minutes and seconds before
    it), with its insertion time as [updated_on] and with the year of
    the new date, whenever that new date is a date at all; it is one
    when the clock reads at least two hours after [datetime.min].  For
    a record the batch lists more than once the last listing counts. *)
Theorem insert_crimes_restamps_dates (b : backend) (mode : db_mode)
    (records : list ref) (s : state) :
  exists rows s',
    insert_crimes_into b mode records s
      = (match b, records with
         | Down, _ :: _ => inl DatabaseError
         | _, _ => inr rows
         end, s') /\
    length rows = length records /\
    (forall l k, stamped_field k = false ->
                 field (heap s') l k = field (heap s) l k) /\
    (forall l, ~ In l records -> heap s' !! l = heap s !! l) /\
    (forall j l,
       records !! j = Some l -> ~ In l (drop (S j) records) ->
       is_Some (heap s !! l) ->
       let now := insertion_time (the_world s) j in
       let t := recent_date (the_world s) j in
       0 <= t <= datetime_max ->
       now - timedelta 0 1 59 59 <= t <= now - timedelta 0 1 0 0 /\
       field (heap s') l "date" = Some (VDatetime t) /\
       field (heap s') l "updated_on" = Some (VDatetime now) /\
       field (heap s') l "year" = Some (VInt (datetime_year t))) /\
    (clock_ok (the_world s) ->
     forall j, 0 <= recent_date (the_world s) j <= datetime_max).
Proof.
  destruct (insert_crimes_run mode records s) as (s' & Hall & Hrun).
  destruct (enforce_all_spec records s) as (s1 & Hall1 & _ & Hframe & _).
  destruct (enforce_all_stamps records s) as (s2 & Hall2 & Hout & _ & Hstamp).
  rewrite Hall in Hall1, Hall2.
  injection Hall1 as <-. injection Hall2 as <-.
  eexists. exists s'. split.
  { rewrite (insert_crimes_into_run b mode _ _ _ _ Hrun).
    destruct b, records; reflexivity. }
  split; [apply length_map|].
  split; [exact Hframe|]. split; [exact Hout|]. split.
  - intros j l Hj Hlast Hsome now t Hvalid.
    split; [apply recent_date_window|].
    apply Hstamp; assumption.
  - intros Hclock j. apply recent_date_valid. exact Hclock.
Qed.

(** A batch of two records handed over at 63900000000000000, with the
    draws of [halves] (16 minutes, 16 seconds), to a database that is
    down: the step raises, and the second record is left with the date
    1 h 16 min 16 s before instead of the generated one, and with its
    coordinates as they were. *)
Lemma insert_crimes_restamps_dates_witness :
  exists s',
    insert_crimes_into Down Sqlite [0%nat; 1%nat] (State halves two_records)
      = (inl DatabaseError, s') /\
    field two_records 1%nat "date" = Some (VDatetime 63899595840000000) /\
    field (heap s') 1%nat "date" = Some (VDatetime 63899995424000000) /\
    field (heap s') 1%nat "updated_on" = Some (VDatetime 63900000000000000) /\
    field (heap s') 1%nat "year" = Some (VInt 2025) /\
    field (heap s') 1%nat "latitude" = Some (VFloat (decimal 105 1)).
Proof.
  destruct (insert_crimes_restamps_dates Down Sqlite [0%nat; 1%nat]
              (State halves two_records))
    as (rows & s' & Hrun & _ & Hframe & _ & Hstamp & _).
  exists s'. split; [exact Hrun|]. split; [reflexivity|].
  destruct (Hstamp 1%nat 1%nat) as (_ & Hdate & Hupd & Hyear).
  - reflexivity.
  - intros [].
  - eexists. reflexivity.
  - vm_compute. split; discriminate.
  - split; [exact Hdate|]. split; [exact Hupd|]. split; [exact Hyear|].
    rewrite (Hframe 1%nat "latitude"); reflexivity.
Defined.

(** ** The hotspot aggregator, continued *)

Lemma shr_fexp_nonneg (m e : Z) (l : location) :
  0 <= m -> 0 <= shr_m (fst (shr_fexp prec emax m e l)).
Proof.
  intros Hm. unfold shr_fexp, shr.
  destruct (fexp prec emax (Zdigits2 m + e) - e) as [|q|q];
    cbn [fst]; rewrite ?shr_m_of_loc; try exact Hm.
  rewrite iter_pos_shr_1_m by (rewrite shr_m_of_loc; exact Hm).
  rewrite shr_m_of_loc. apply Z.div_pos; lia.
Qed.

(** Rounding a non-negative mantissa never yields [NaN]. *)
Lemma binary_round_aux_not_nan (s : bool) (m e : Z) (l : location) :
  0 <= m -> is_nan (binary_round_aux prec emax s m e l) = false.
Proof.
  intros Hm. unfold binary_round_aux.
  pose proof (shr_fexp_nonneg m e l Hm) as H1.
  destruct (shr_fexp prec emax m e l) as [mrs' e']. cbn [fst] in H1.
  pose proof (round_nearest_even_ge (shr_m mrs') (loc_of_shr_record mrs')) as Hr.
  pose proof (shr_fexp_nonneg
                (round_nearest_even (shr_m mrs') (loc_of_shr_record mrs'))
                e' loc_Exact ltac:(lia)) as H2.
  destruct (shr_fexp prec emax _ e' loc_Exact) as [mrs'' e'']. cbn [fst] in H2.
  destruct (shr_m mrs'') as [|q|q]; try lia; [reflexivity|].
  destruct (e'' <=? emax - prec); reflexivity.
Qed.

Lemma binary_round_not_nan (s : bool) (m : positive) (e : Z) :
  is_nan (binary_round prec emax s m e) = false.
Proof.
  unfold binary_round. destruct (shl_align _ _ _) as [mz ez].
  apply binary_round_aux_not_nan. lia.
Qed.

Lemma binary_normalize_not_nan (m e : Z) (s : bool) :
  is_nan (binary_normalize prec emax m e s) = false.
Proof.
  destruct m; cbn [binary_normalize]; [reflexivity| |];
    apply binary_round_not_nan.
Qed.

Lemma fmul_finite_not_nan (x : float) (s : bool) (m : positive) (e : Z) :
  is_nan (fmul x (S754_finite s m e)) = is_nan x.
Proof.
  destruct x as [sx|sx| |sx mx ex]; try reflexivity.
  unfold fmul, SFmul. apply binary_round_aux_not_nan. lia.
Qed.

Lemma SFdiv_finite_not_nan (x : float) (s : bool) (m : positive) (e : Z) :
  is_nan (SFdiv prec emax x (S754_finite s m e)) = is_nan x.
Proof.
  destruct x as [sx|sx| |sx mx ex]; try reflexivity.
  unfold SFdiv, SFdiv_core_binary.
  set (m' := match _ with 0 => Z.pos mx | Z.pos _ => _ | Z.neg _ => 0 end).
  assert (Hm' : 0 <= m').
  { subst m'. destruct (_ - _ - _); try lia. apply Z.shiftl_nonneg. lia. }
  pose proof (Z.div_pos m' (Z.pos m) Hm' ltac:(lia)) as Hq.
  unfold Z.div in Hq. change IntDef.Z.div_eucl with Z.div_eucl.
  destruct (Z.div_eucl m' (Z.pos m)) as [q r]. cbn [is_nan].
  apply binary_round_aux_not_nan. exact Hq.
Qed.

Lemma rint_not_nan (x : float) : is_nan (rint x) = is_nan x.
Proof.
  destruct x as [sx|sx| |sx mx ex]; try reflexivity.
  unfold rint. destruct (0 <=? ex); [reflexivity|].
  apply binary_normalize_not_nan.
Qed.

(** Rounding to two decimals keeps numbers numbers. *)
Lemma round2_not_nan (x : float) : is_nan (round2 x) = is_nan x.
Proof.
  unfold round2.
  change (float_of_Z 100) with (S754_finite false 7036874417766400 (-46)).
  rewrite SFdiv_finite_not_nan, rint_not_nan, fmul_finite_not_nan.
  reflexivity.
Qed.

Lemma bin_notna (r : record) :
  is_nan (latitude r) = false -> is_nan (longitude r) = false ->
  key_isna (bin r) = false.
Proof.
  intros H1 H2. unfold key_isna, bin. cbn [fst snd].
  rewrite !round2_not_nan, H1, H2. reflexivity.
Qed.

Lemma total_count_bump (k : key) (g : list bucket) :
  total_count (bump k g) = total_count g + 1.
Proof.
  induction g as [|[k' c] g IH]; cbn [bump total_count fold_right snd].
  - lia.
  - destruct (key_eqb k' k); cbn [total_count fold_right snd].
    + fold (total_count g). lia.
    + fold (total_count (bump k g)) (total_count g). lia.
Qed.

Lemma total_count_insert_sorted (b : bucket) (g : list bucket) :
  total_count (insert_sorted b g) = snd b + total_count g.
Proof.
  induction g as [|b' g IH]; cbn [insert_sorted]; [reflexivity|].
  destruct (key_ltb (fst b') (fst b)); [|reflexivity].
  cbn [total_count fold_right]. fold (total_count (insert_sorted b g)).
  fold (total_count g). lia.
Qed.

Lemma total_count_sort (g : list bucket) :
  total_count (fold_right insert_sorted [] g) = total_count g.
Proof.
  induction g as [|b g IH]; [reflexivity|]. cbn [fold_right].
  rewrite total_count_insert_sorted, IH. reflexivity.
Qed.

Lemma total_count_fold (bins : list key) : forall g,
  total_count (fold_left count_key bins g)
  = total_count g
    + Z.of_nat (length (List.filter (fun k => negb (key_isna k)) bins)).
Proof.
  induction bins as [|k bins IH]; intros g; cbn [fold_left List.filter].
  - cbn [length]. lia.
  - rewrite IH. unfold count_key.
    destruct (key_isna k); cbn [negb length]; [lia|].
    rewrite total_count_bump. lia.
Qed.

Lemma total_count_groupby (bins : list key) :
  total_count (groupby_size bins)
  = Z.of_nat (length (List.filter (fun k => negb (key_isna k)) bins)).
Proof.
  unfold groupby_size. rewrite total_count_sort.
  change (fold_left _ bins []) with (fold_left count_key bins []).
  rewrite total_count_fold. reflexivity.
Qed.

Lemma dropna_bins_notna (df : dataframe) :
  List.filter (fun k => negb (key_isna k)) (map bin (dropna df))
  = map bin (dropna df).
Proof.
  unfold dropna. induction df as [|r df IH]; [reflexivity|].
  cbn [List.filter].
  destruct (negb (is_nan (latitude r)) && negb (is_nan (longitude r))) eqn:Hr;
    [|exact IH].
  apply andb_prop in Hr as [H1 H2]. apply negb_true_iff in H1, H2.
  cbn [map List.filter]. rewrite (bin_notna r H1 H2). cbn [negb].
  f_equal. exact IH.
Qed.


Lemma bucket_size_le (k : key) (l : list key) :
  bucket_size k l <= Z.of_nat (length l).
Proof.
  unfold bucket_size. apply inj_le. apply filter_length_le.
Qed.

Lemma dropna_length_le (df : dataframe) :
  (length (dropna df) <= length df)%nat.
Proof. unfold dropna. apply filter_length_le. Qed.

Lemma distinct_keys_insert_sorted (b : bucket) (g : list bucket) :
  distinct_keys g ->
  Forall (fun b' => key_eqb (fst b) (fst b') = false) g ->
  distinct_keys (insert_sorted b g).
Proof.
  induction g as [|b' g IH]; intros Hd Hb; cbn [insert_sorted].
  - split; [constructor|exact I].
  - destruct (key_ltb (fst b') (fst b)); [|split; assumption].
    destruct Hd as [Hfirst Hd]. inversion Hb as [|? ? Hbb' Hbg]; subst.
    split; [|apply IH; assumption].
    rewrite Forall_forall. intros x Hx.
    apply list_elem_of_In, insert_sorted_In in Hx as [->|Hx].
    + rewrite key_eqb_sym. exact Hbb'.
    + rewrite Forall_forall in Hfirst. apply Hfirst, list_elem_of_In, Hx.
Qed.

Lemma distinct_keys_sort (g : list bucket) :
  distinct_keys g -> distinct_keys (fold_right insert_sorted [] g).
Proof.
  induction g as [|b g IH]; intros Hd; [exact I|]. cbn [fold_right].
  destruct Hd as [Hfirst Hd]. apply distinct_keys_insert_sorted; [apply IH, Hd|].
  rewrite Forall_forall. intros x Hx.
  apply list_elem_of_In in Hx. apply (proj1 (sort_buckets_In _ _)) in Hx.
  rewrite Forall_forall in Hfirst. apply Hfirst, list_elem_of_In, Hx.
Qed.

Lemma distinct_keys_filter (f : bucket -> bool) (g : list bucket) :
  distinct_keys g -> distinct_keys (List.filter f g).
Proof.
  induction g as [|b g IH]; intros Hd; [exact I|]. cbn [List.filter].
  destruct Hd as [Hfirst Hd]. destruct (f b); [|apply IH, Hd].
  split; [|apply IH, Hd].
  rewrite Forall_forall. intros x Hx.
  apply list_elem_of_In, List.filter_In in Hx as [Hx _].
  rewrite Forall_forall in Hfirst. apply Hfirst, list_elem_of_In, Hx.
Qed.

(** ** Rounding to two decimals *)

Lemma shifted_1 (mrs : shr_record) :
  0 <= shr_m mrs -> shifted 1 mrs (shr_1 mrs).
Proof.
  intros Hm. unfold shifted. rewrite shr_1_m by exact Hm.
  change (2 ^ (1 - 1)) with 1. rewrite Z.div_1_r, Z.mod_1_r.
  change (2 ^ 1) with 2. split; [reflexivity|].
  destruct mrs as [m r s]; cbn [shr_m shr_r shr_s] in *.
  destruct m as [|[p|p|]|p]; cbn [shr_1 shr_m shr_r shr_s]; try lia;
    split; try reflexivity; cbn; rewrite ?orb_false_r; reflexivity.
Qed.

Lemma odd_mod (x : Z) : Z.odd x = negb (x mod 2 =? 0).
Proof.
  rewrite Zmod_odd. destruct (Z.odd x); reflexivity.
Qed.

Lemma shifted_compose (a b : Z) (mrs mrs1 mrs2 : shr_record) :
  0 <= shr_m mrs -> 1 <= a -> 1 <= b ->
  shifted a mrs mrs1 -> shifted b mrs1 mrs2 -> shifted (a + b) mrs mrs2.
Proof.
  intros Hm Ha Hb (Hm1 & Hr1 & Hs1) (Hm2 & Hr2 & Hs2). unfold shifted.
  rewrite Hm2, Hr2, Hs2, Hm1, Hr1, Hs1. clear Hm2 Hr2 Hs2 Hm1 Hr1 Hs1.
  set (m := shr_m mrs) in *.
  assert (Pa : 0 < 2 ^ a) by (apply Z.pow_pos_nonneg; lia).
  split; [|split].
  - rewrite Z.div_div by (try apply Z.pow_pos_nonneg; lia).
    rewrite <- Z.pow_add_r by lia. reflexivity.
  - rewrite Z.div_div by (try apply Z.pow_pos_nonneg; lia).
    rewrite <- Z.pow_add_r by lia. f_equal. f_equal. f_equal. lia.
  - replace (a + b - 1) with (a + (b - 1)) by lia.
    rewrite (mod_pow_split m a (b - 1)) by lia.
    replace a with ((a - 1) + 1) at 4 by lia.
    rewrite (mod_pow_split m (a - 1) 1) by lia.
    change (2 ^ 1) with 2. rewrite odd_mod.
    destruct (shr_r mrs), (shr_s mrs), (m mod 2 ^ (a - 1) =? 0),
      ((m / 2 ^ (a - 1)) mod 2 =? 0), ((m / 2 ^ a) mod 2 ^ (b - 1) =? 0);
      reflexivity.
Qed.

Lemma shifted_nonneg (n : Z) (mrs mrs' : shr_record) :
  0 <= shr_m mrs -> 0 <= n -> shifted n mrs mrs' -> 0 <= shr_m mrs'.
Proof.
  intros Hm Hn (-> & _). apply Z.div_pos; [exact Hm|].
  apply Z.pow_pos_nonneg; lia.
Qed.

Lemma iter_pos_shifted (p : positive) : forall mrs,
  0 <= shr_m mrs -> shifted (Z.pos p) mrs (SpecFloat.iter_pos shr_1 p mrs).
Proof.
  induction p as [p IH | p IH |]; intros mrs Hm; cbn [SpecFloat.iter_pos].
  - pose proof (shifted_1 mrs Hm) as H1.
    assert (Hm1 : 0 <= shr_m (shr_1 mrs))
      by (apply (shifted_nonneg 1 mrs); [exact Hm|lia|exact H1]).
    pose proof (IH _ Hm1) as H2.
    assert (Hm2 : 0 <= shr_m (SpecFloat.iter_pos shr_1 p (shr_1 mrs)))
      by (apply (shifted_nonneg (Z.pos p) (shr_1 mrs)); [exact Hm1|lia|exact H2]).
    pose proof (IH _ Hm2) as H3.
    replace (Z.pos p~1) with (1 + Z.pos p + Z.pos p) by lia.
    pose proof (shifted_compose 1 (Z.pos p) mrs _ _ Hm ltac:(lia) ltac:(lia)
                  H1 H2) as H12.
    exact (shifted_compose (1 + Z.pos p) (Z.pos p) mrs _ _ Hm ltac:(lia)
             ltac:(lia) H12 H3).
  - pose proof (IH _ Hm) as H1.
    assert (Hm1 : 0 <= shr_m (SpecFloat.iter_pos shr_1 p mrs))
      by (apply (shifted_nonneg (Z.pos p) mrs); [exact Hm|lia|exact H1]).
    pose proof (IH _ Hm1) as H2.
    replace (Z.pos p~0) with (Z.pos p + Z.pos p) by lia.
    exact (shifted_compose (Z.pos p) (Z.pos p) mrs _ _ Hm ltac:(lia)
             ltac:(lia) H1 H2).
  - apply shifted_1. exact Hm.
Qed.

(** What the round bit and the sticky bit say of the remainder. *)
Lemma remainder_of_bits (m p : Z) :
  0 <= m -> 1 <= p ->
  let half := 2 ^ (p - 1) in
  let low := m mod half in
  m mod 2 ^ p = (if Z.odd (m / half) then half else 0) + low /\
  0 <= low < half /\ 2 ^ p = 2 * half.
Proof.
  intros Hm Hp half low.
  assert (Ph : 0 < half) by (apply Z.pow_pos_nonneg; lia).
  assert (H2 : 2 ^ p = 2 * half).
  { unfold half. replace p with (1 + (p - 1)) at 1 by lia.
    rewrite Z.pow_add_r by lia. reflexivity. }
  pose proof (Z.mod_pos_bound m half Ph) as Hlow. fold low in Hlow.
  split; [|split; [exact Hlow|exact H2]].
  pose proof (Z.div_mod m half ltac:(lia)) as Hdm. fold low in Hdm.
  pose proof (Z.div_mod (m / half) 2 ltac:(lia)) as Hdb.
  pose proof (Z.mod_pos_bound (m / half) 2 ltac:(lia)) as Hb.
  rewrite Zmod_odd in Hdb, Hb.
  symmetry. apply Z.mod_unique with (m / half / 2).
  - left. rewrite H2. clearbody low half. destruct (Z.odd (m / half)); lia.
  - rewrite H2. clearbody low half.
    set (q := m / half) in *. set (q2 := q / 2) in *.
    destruct (Z.odd q); nia.
Qed.

Lemma round_nearest_even_shifted (m : positive) (p : positive)
    (mrs' : shr_record) :
  shifted (Z.pos p) (Build_shr_record (Z.pos m) false false) mrs' ->
  round_nearest_even (shr_m mrs') (loc_of_shr_record mrs')
  = nearest_even (Z.pos m) (Z.pos p).
Proof.
  intros (Hm & Hr & Hs). cbn [shr_m shr_r shr_s orb] in Hm, Hr, Hs.
  destruct (remainder_of_bits (Z.pos m) (Z.pos p) ltac:(lia) ltac:(lia))
    as (Hrem & Hlow & Hpow).
  unfold nearest_even. cbv zeta. rewrite <- Hm, Hrem, Hpow.
  destruct mrs' as [m' r' s']. cbn [shr_m shr_r shr_s] in *.
  rewrite <- Hr.
  set (half := 2 ^ (Z.pos p - 1)) in *.
  set (low := Z.pos m mod half) in *.
  clearbody low half. clear Hr Hrem Hpow Hm.
  destruct r', s'; cbn [loc_of_shr_record round_nearest_even];
    symmetry in Hs; try apply negb_true_iff in Hs;
    try apply negb_false_iff in Hs;
    try apply Z.eqb_neq in Hs; try apply Z.eqb_eq in Hs.
  - replace (2 * (half + low) ?= 2 * half) with Gt; [reflexivity|].
    symmetry. apply Z.compare_gt_iff. lia.
  - replace (2 * (half + low) ?= 2 * half) with Eq; [reflexivity|].
    symmetry. apply Z.compare_eq_iff. lia.
  - replace (2 * (0 + low) ?= 2 * half) with Lt; [reflexivity|].
    symmetry. apply Z.compare_lt_iff. lia.
  - replace (2 * (0 + low) ?= 2 * half) with Lt; [reflexivity|].
    symmetry. apply Z.compare_lt_iff. lia.
Qed.

(** [rint] rounds to the nearest integer, ties to even. *)
Lemma rint_nearest_integer (x : float) : rint x = nearest_integer x.
Proof.
  destruct x as [s|s| |s m e]; try reflexivity.
  unfold rint, nearest_integer.
  destruct (Z.leb_spec 0 e) as [He|He], (Z.ltb_spec e 0) as [He'|He'];
    try lia; [reflexivity|].
  destruct e as [|e|e]; try lia. cbn [Z.opp]. unfold shr. cbn [fst].
  rewrite (round_nearest_even_shifted m e).
  - reflexivity.
  - apply iter_pos_shifted. cbn. lia.
Qed.

Lemma round2_two_decimals (x : float) : round2 x = two_decimals x.
Proof. unfold round2. rewrite rint_nearest_integer. reflexivity. Qed.

Lemma bin_cell (r : record) : bin r = cell r.
Proof. unfold bin, cell. rewrite !round2_two_decimals. reflexivity. Qed.

(** ** The hotspots of a frame *)

(** The function raises [KeyError] on a frame that lacks a coordinate
    column, and nothing else. *)
Lemma show_map_points_and_heat_run (df : dataframe) (t : Z) :
  show_map_points_and_heat df t
  = if coordinate_columns df then inr (hotspots (dropna df) t)
    else inl KeyError.
Proof.
  unfold show_map_points_and_heat, dropna_subset.
  destruct (coordinate_columns df); [|reflexivity].
  cbn [rbind]. destruct (dropna df); reflexivity.
Qed.

Lemma has_column_spec (df : dataframe) (c : string) :
  has_column df c = true <-> forall r, In r df -> is_Some (r !! c).
Proof.
  unfold has_column. rewrite forallb_forall. split; intros H r Hr.
  - specialize (H r Hr). destruct (r !! c); [eexists; reflexivity|discriminate].
  - destruct (H r Hr) as [v ->]. reflexivity.
Qed.

Lemma coordinate_columns_spec (df : dataframe) :
  coordinate_columns df = true <->
  forall r, In r df -> is_Some (r !! "latitude") /\ is_Some (r !! "longitude").
Proof.
  unfold coordinate_columns. rewrite andb_true_iff, !has_column_spec.
  split; [intros [H1 H2] r Hr; split; auto|].
  intros H. split; intros r Hr; apply (H r Hr).
Qed.

Lemma coordinate_columns_filter (f : record -> bool) (df : dataframe) :
  coordinate_columns df = true -> coordinate_columns (List.filter f df) = true.
Proof.
  rewrite !coordinate_columns_spec. intros H r Hr.
  apply List.filter_In in Hr as [Hr _]. exact (H r Hr).
Qed.

Lemma dropna_located (df : dataframe) : dropna df = List.filter located df.
Proof. reflexivity. Qed.

Lemma filter_located_twice (df : dataframe) :
  List.filter located (List.filter located df) = List.filter located df.
Proof.
  induction df as [|r df IH]; [reflexivity|]. cbn [List.filter].
  destruct (located r) eqn:Hr; [|exact IH].
  cbn [List.filter]. rewrite Hr, IH. reflexivity.
Qed.

(** The size of a bucket of the grouped frame is the number of
    incidents that have both coordinates and round to its key. *)
Lemma bucket_size_incidents (df : dataframe) (k : key) :
  bucket_size k (map bin (dropna df)) = incidents_in df k.
Proof.
  unfold bucket_size, incidents_in. f_equal. rewrite dropna_located.
  induction df as [|r df IH]; [reflexivity|]. cbn [List.filter].
  destruct (located r); cbn [andb map List.filter]; [|exact IH].
  rewrite bin_cell. change (key_eqb k (cell r)) with (same_key k (cell r)).
  destruct (same_key k (cell r)); cbn [length]; rewrite IH; reflexivity.
Qed.

Lemma incidents_in_same_key (df : dataframe) (k k' : key) :
  same_key k k' = true -> incidents_in df k = incidents_in df k'.
Proof.
  intros Hk. unfold incidents_in. f_equal. f_equal.
  apply filter_ext. intros r. f_equal.
  change same_key with key_eqb in *.
  destruct (key_eqb k' (cell r)) eqn:H1.
  - exact (key_eqb_trans _ _ _ Hk H1).
  - destruct (key_eqb k (cell r)) eqn:H2; [|reflexivity].
    rewrite key_eqb_sym in Hk.
    rewrite (key_eqb_trans _ _ _ Hk H2) in H1. discriminate.
Qed.

Lemma hotspots_In (df : dataframe) (t : Z) (k : key) (c : Z) :
  In (k, c) (hotspots (dropna df) t) <->
  In (k, c) (groupby_size (map bin (dropna df))) /\ t < c.
Proof.
  unfold hotspots. rewrite List.filter_In. cbn [snd].
  rewrite Z.ltb_lt. reflexivity.
Qed.

Lemma hotspots_sound (df : dataframe) (t : Z) (k : key) (c : Z) :
  In (k, c) (hotspots (dropna df) t) -> c = incidents_in df k /\ t < c.
Proof.
  rewrite hotspots_In. intros [Hin Hlt]. split; [|exact Hlt].
  destruct (groupby_size_In _ k c Hin) as [-> _]. apply bucket_size_incidents.
Qed.

Lemma hotspots_complete (df : dataframe) (t : Z) (r : record) :
  In r df -> located r = true -> t < incidents_in df (cell r) ->
  exists k, same_key k (cell r) = true /\
            In (k, incidents_in df (cell r)) (hotspots (dropna df) t).
Proof.
  intros Hr Hloc Hlt.
  assert (Hloc' := Hloc). unfold located in Hloc'.
  apply andb_prop in Hloc' as [H1 H2]. apply negb_true_iff in H1, H2.
  assert (Hin : In (bin r) (map bin (dropna df))).
  { apply in_map. rewrite dropna_located. apply List.filter_In. split; assumption. }
  destruct (groupby_size_covers _ (bin r) Hin (bin_notna r H1 H2))
    as (k & c & Hkc & Hk).
  rewrite bin_cell in Hk. change (key_eqb k (cell r)) with (same_key k (cell r)) in Hk.
  exists k. split; [exact Hk|].
  destruct (groupby_size_In _ k c Hkc) as [Hc _].
  rewrite bucket_size_incidents, (incidents_in_same_key df k (cell r) Hk) in Hc.
  subst c. apply hotspots_In. split; assumption.
Qed.

(** C5.  On a frame that has the two coordinate columns the hotspots
    shown are exactly the buckets that hold more incidents than the
    threshold.  A bucket is a pair of coordinates rounded to two
    decimals; its count is the number of incidents of the frame that
    have both coordinates and round to it.  Every hotspot carries that
    count, and it is above the threshold; every incident whose bucket
    holds more than the threshold has its bucket among the hotspots.
    So a bucket that holds exactly the threshold is left out and one
    that holds one more is shown. *)
Theorem hotspots_strictly_above_threshold (df : dataframe) (threshold : Z) :
  coordinate_columns df = true ->
  exists g,
    show_map_points_and_heat df threshold = inr g /\
    (forall k c, In (k, c) g -> c = incidents_in df k /\ threshold < c) /\
    (forall r, In r df -> located r = true ->
       threshold < incidents_in df (cell r) ->
       exists k, same_key k (cell r) = true /\
                 In (k, incidents_in df (cell r)) g) /\
    (forall r, In r df -> located r = true ->
       incidents_in df (cell r) = threshold ->
       forall k c, same_key k (cell r) = true -> ~ In (k, c) g) /\
    (forall r, In r df -> located r = true ->
       incidents_in df (cell r) = threshold + 1 ->
       exists k, same_key k (cell r) = true /\ In (k, threshold + 1) g).
Proof.
  intros Hcols. exists (hotspots (dropna df) threshold).
  split; [rewrite show_map_points_and_heat_run, Hcols; reflexivity|].
  split; [intros k c; apply hotspots_sound|].
  split; [intros r; apply hotspots_complete|]. split.
  - intros r Hr Hloc Heq k c Hk Hin.
    destruct (hotspots_sound df threshold k c Hin) as [Hc Hlt].
    rewrite (incidents_in_same_key df k (cell r) Hk) in Hc. lia.
  - intros r Hr Hloc Heq.
    destruct (hotspots_complete df threshold r Hr Hloc ltac:(lia))
      as (k & Hk & Hin).
    exists k. split; [exact Hk|]. rewrite Heq in Hin. exact Hin.
Qed.

(** Of six incidents, three round to (10, 20): with threshold 2 that
    bucket is a hotspot, with count 3. *)
Lemma hotspots_strictly_above_threshold_witness :
  exists g k,
    show_map_points_and_heat six_incidents 2 = inr g /\
    same_key k bucket_10_20 = true /\ In (k, 3) g.
Proof.
  destruct (hotspots_strictly_above_threshold six_incidents 2 eq_refl)
    as (g & Hrun & _ & Hshown & _).
  destruct (Hshown (row_at (decimal 10001 3) (float_of_Z 20)))
    as (k & Hk & Hin).
  - left. reflexivity.
  - reflexivity.
  - vm_compute. reflexivity.
  - exists g, k. split; [exact Hrun|]. split; [exact Hk|exact Hin].
Defined.

(** The specification's scenario: fifty incidents in one bucket are a
    hotspot for threshold 30 and none for threshold 50. *)
Example fifty_incidents_one_bucket :
  let df := repeat (row_at (float_of_Z 10) (float_of_Z 20)) 50 in
  show_map_points_and_heat df 30 = inr [(bucket_10_20, 50)] /\
  show_map_points_and_heat df 50 = inr [].
Proof. vm_compute. split; reflexivity. Qed.

(** Rounding puts 10.001 and 10.004 in one bucket and 10.501 with 10.5
    in another; the incident without a longitude is in neither. *)
Example six_incidents_two_buckets :
  show_map_points_and_heat six_incidents 0
    = inr [(bucket_10_20, 3); (bucket_105_20, 2)] /\
  show_map_points_and_heat six_incidents 2 = inr [(bucket_10_20, 3)] /\
  show_map_points_and_heat six_incidents 3 = inr [].
Proof. vm_compute. repeat split; reflexivity. Qed.

(** C8, as stated, fails twice.  An incident that has a latitude and
    lacks only the longitude is filtered out although it does not lack
    both coordinates; and on a frame without a longitude column the
    function raises [KeyError]. *)
Lemma row_lacking_one_coordinate_dropped :
  let r := row_at (float_of_Z 10) S754_nan in
  is_nan (latitude r) = false /\
  dropna_both_missing [r] = [r] /\
  show_map_points_and_heat [r; row_at (float_of_Z 10) (float_of_Z 20)] 0
    = inr [(bucket_10_20, 1)] /\
  show_map_points_and_heat [latitude_only] 0 = inl KeyError.
Proof. vm_compute. repeat split; reflexivity. Qed.

Lemma total_count_hotspots_all (df : dataframe) (t : Z) :
  t < 1 ->
  total_count (hotspots (dropna df) t)
  = Z.of_nat (length (List.filter located df)).
Proof.
  intros Ht. unfold hotspots. cbv zeta.
  rewrite forallb_filter_id.
  2:{ apply forallb_forall. intros [k c] Hin.
      destruct (groupby_size_In _ k c Hin) as [_ Hc]. cbn [snd].
      apply Z.ltb_lt. lia. }
  rewrite total_count_groupby, dropna_bins_notna, length_map.
  reflexivity.
Qed.

Lemma hotspots_none_located (df : dataframe) (t : Z) :
  (forall r, In r df -> located r = false) -> hotspots (dropna df) t = [].
Proof.
  intros Hall.
  assert (Hdrop : dropna df = []).
  { rewrite dropna_located. induction df as [|r df IH]; [reflexivity|].
    cbn [List.filter]. rewrite (Hall r (or_introl eq_refl)).
    apply IH. intros r' Hr'. apply Hall. right. exact Hr'. }
  rewrite Hdrop. reflexivity.
Qed.

(** C8, amended.  The function raises [KeyError] when the frame lacks
    the latitude or the longitude column, and on a frame that has both
    it does not raise.  It then bins the incidents that have both
    coordinates and no others: what it shows is what it shows for
    those incidents alone, and with a threshold below one the counts
    shown add up to their number.  An empty frame, and a frame in which
    every incident lacks a coordinate, shows no hotspot. *)
Theorem hotspots_filter_missing_coordinates (df : dataframe) (threshold : Z) :
  (coordinate_columns df = false ->
   show_map_points_and_heat df threshold = inl KeyError) /\
  (coordinate_columns df = true ->
   exists g,
     show_map_points_and_heat df threshold = inr g /\
     show_map_points_and_heat (List.filter located df) threshold = inr g /\
     (threshold < 1 ->
      total_count g = Z.of_nat (length (List.filter located df))) /\
     ((forall r, In r df -> located r = false) -> g = [])) /\
  show_map_points_and_heat [] threshold = inr [].
Proof.
  split; [|split; [|reflexivity]].
  - intros Hcols. rewrite show_map_points_and_heat_run, Hcols. reflexivity.
  - intros Hcols. exists (hotspots (dropna df) threshold).
    split; [rewrite show_map_points_and_heat_run, Hcols; reflexivity|].
    split; [|split].
    + rewrite show_map_points_and_heat_run.
      rewrite (coordinate_columns_filter located df Hcols).
      rewrite dropna_located, filter_located_twice. reflexivity.
    + apply total_count_hotspots_all.
    + apply hotspots_none_located.
Qed.

(** Of the six incidents the five that have both coordinates are
    counted. *)
Lemma hotspots_filter_missing_coordinates_witness :
  exists g,
    show_map_points_and_heat six_incidents 0 = inr g /\
    total_count g = 5.
Proof.
  destruct (hotspots_filter_missing_coordinates six_incidents 0)
    as (_ & Hshown & _).
  destruct (Hshown eq_refl) as (g & Hrun & _ & Htotal & _).
  exists g. split; [exact Hrun|]. rewrite Htotal by lia. reflexivity.
Defined.

(** X10.  Without a base latitude or without a base longitude
    [generate_random_records] leaves both coordinates of every record
    missing: the map drops all the records and shows no hotspot,
    whatever the threshold, and does not raise. *)
Theorem original_generator_without_base_shows_no_hotspot (n : Z)
    (base_lat base_lon : option float) (threshold : Z) (w : world) :
  base_lat = None \/ base_lon = None ->
  exists df w',
    Session.generate_random_records n base_lat base_lon w = (inr df, w') /\
    length df = Z.to_nat n /\
    dropna df = [] /\
    show_map_points_and_heat df threshold = inr [].
Proof.
  intros Hbase.
  destruct (generate_random_records_spec n base_lat base_lon w)
    as (df & w' & Hrun & Hlen & Hall).
  exists df, w'. split; [exact Hrun|]. split; [exact Hlen|].
  rewrite Forall_forall in Hall.
  assert (Hmissing : forall r, In r df ->
            r !! "latitude" = Some (VFloat S754_nan) /\
            r !! "longitude" = Some (VFloat S754_nan)).
  { intros r Hr.
    destruct (Hall r (proj2 (list_elem_of_In _ _) Hr)) as (_ & _ & _ & Hc).
    destruct Hbase as [-> | ->]; [exact Hc|].
    destruct base_lat; exact Hc. }
  assert (Hdrop : dropna df = []).
  { apply dropna_all_missing. intros r Hr. left.
    unfold latitude, coordinate. rewrite (proj1 (Hmissing r Hr)). reflexivity. }
  split; [exact Hdrop|].
  rewrite show_map_points_and_heat_run, Hdrop.
  replace (coordinate_columns df) with true; [reflexivity|].
  symmetry. apply coordinate_columns_spec. intros r Hr.
  destruct (Hmissing r Hr) as [-> ->]. split; eexists; reflexivity.
Qed.

Lemma original_generator_without_base_shows_no_hotspot_witness :
  exists df w',
    Session.generate_random_records 3 None None halves = (inr df, w') /\
    length df = Z.to_nat 3 /\
    dropna df = [] /\
    show_map_points_and_heat df 0 = inr [].
Proof.
  apply (original_generator_without_base_shows_no_hotspot 3 None None 0 halves).
  left. reflexivity.
Defined.

(** X17.  On a frame that has the coordinate columns, a threshold at
    or above the number of rows leaves no hotspot. *)
Theorem no_hotspot_above_the_row_count (df : dataframe) (threshold : Z) :
  coordinate_columns df = true ->
  Z.of_nat (length df) <= threshold ->
  show_map_points_and_heat df threshold = inr [].
Proof.
  intros Hcols Hle. rewrite show_map_points_and_heat_run, Hcols. f_equal.
  destruct (hotspots (dropna df) threshold) as [|[k c] rest] eqn:Hf;
    [reflexivity|].
  exfalso.
  assert (Hin : In (k, c) (hotspots (dropna df) threshold))
    by (rewrite Hf; left; reflexivity).
  apply hotspots_In in Hin as [Hin Hlt].
  destruct (groupby_size_In _ k c Hin) as [-> _].
  pose proof (bucket_size_le k (map bin (dropna df))) as H1.
  rewrite length_map in H1.
  pose proof (dropna_length_le df). lia.
Qed.

(** Three incidents at one place are a hotspot for threshold 2 and
    none for threshold 3. *)
Lemma no_hotspot_above_the_row_count_witness :
  show_map_points_and_heat three_incidents 2 = inr [(bucket_10_20, 3)] /\
  show_map_points_and_heat three_incidents 3 = inr [].
Proof.
  split; [vm_compute; reflexivity|].
  apply (no_hotspot_above_the_row_count three_incidents 3).
  - reflexivity.
  - cbn. lia.
Defined.

(** X18.  Raising the threshold never adds a hotspot: what is shown
    for the higher threshold is shown for the lower one. *)
Theorem raising_the_threshold_removes_hotspots (df : dataframe)
    (low high : Z) (g : list bucket) :
  low <= high ->
  show_map_points_and_heat df high = inr g ->
  exists g',
    show_map_points_and_heat df low = inr g' /\ incl g g'.
Proof.
  intros Hle. rewrite !show_map_points_and_heat_run.
  destruct (coordinate_columns df); [|discriminate].
  intros [= <-]. eexists. split; [reflexivity|].
  intros [k c]. rewrite !hotspots_In. intros [Hin Hlt]. split; [exact Hin|lia].
Qed.

(** Of the two buckets of the six incidents shown for threshold 1, the
    one shown for threshold 2 is among them. *)
Lemma raising_the_threshold_removes_hotspots_witness :
  exists g',
    show_map_points_and_heat six_incidents 1 = inr g' /\
    incl [(bucket_10_20, 3)] g'.
Proof.
  apply (raising_the_threshold_removes_hotspots six_incidents 1 2).
  - lia.
  - vm_compute. reflexivity.
Defined.

(** X19.  On a frame that has the coordinate columns, no two hotspots
    stand for the same pair of rounded coordinates. *)
Theorem hotspots_have_distinct_keys (df : dataframe) (threshold : Z) :
  coordinate_columns df = true ->
  exists g,
    show_map_points_and_heat df threshold = inr g /\ distinct_keys g.
Proof.
  intros Hcols. rewrite show_map_points_and_heat_run, Hcols.
  eexists. split; [reflexivity|]. unfold hotspots.
  apply distinct_keys_filter. unfold groupby_size. apply distinct_keys_sort.
  change (fold_left _ (map bin (dropna df)) [])
    with (fold_left count_key (map bin (dropna df)) []).
  destruct (counts_of_fold (map bin (dropna df)) [] [] counts_of_nil)
    as (Hd & _). exact Hd.
Qed.

Lemma hotspots_have_distinct_keys_witness :
  exists g,
    show_map_points_and_heat six_incidents 0 = inr g /\ distinct_keys g.
Proof.
  apply (hotspots_have_distinct_keys six_incidents 0). reflexivity.
Defined.

(** ** From the generator to the map *)

Lemma fadd_not_nan (acc x : float) :
  is_nan acc = false -> finite_float x -> is_nan (fadd acc x) = false.
Proof.
  intros Hacc [_ Hx].
  destruct acc as [sa|sa| |sa ma ea]; try discriminate;
    destruct x as [sx|sx| |sx mx ex]; try contradiction; try reflexivity.
  - destruct sa, sx; reflexivity.
  - unfold fadd, SFadd. apply binary_normalize_not_nan.
Qed.

Lemma sum_not_nan (l : list float) :
  Forall finite_float l -> is_nan (sum l) = false.
Proof.
  unfold sum. generalize (float_of_Z 0) (eq_refl : is_nan (float_of_Z 0) = false).
  induction l as [|x l IH]; intros acc Hacc Hall; cbn [fold_left].
  - exact Hacc.
  - inversion Hall as [|? ? Hx Hl]; subst.
    apply IH; [|exact Hl]. apply fadd_not_nan; assumption.
Qed.

(** The float of a positive integer below [2^53] is finite. *)
Lemma float_of_Z_finite (n : Z) :
  0 < n < 2 ^ 53 -> exists m e, float_of_Z n = S754_finite false m e.
Proof.
  intros [Hpos Hlt]. destruct n as [|p|p]; try lia.
  unfold float_of_Z, binary_normalize.
  destruct (binary_round_cases false p 0 ltac:(lia))
    as (m2 & e2 & Hres & Hcase).
  cbv zeta in Hcase.
  pose proof (digits2_pos_bounds p) as [Hlo _].
  assert (Hd : Z.pos (digits2_pos p) <= 53).
  { destruct (Z_le_gt_dec (Z.pos (digits2_pos p)) 53) as [H|H]; [exact H|].
    exfalso.
    assert (2 ^ 53 <= 2 ^ (Z.pos (digits2_pos p) - 1))
      by (apply Z.pow_le_mono_r; lia).
    lia. }
  assert (He2 : e2 <= 971).
  { unfold fexp, SpecFloat.emin, prec, emax in Hcase. lia. }
  apply Z.leb_le in He2. rewrite He2 in Hres. exists m2, e2. exact Hres.
Qed.

Lemma mean_not_nan (l : list float) (c : float) :
  l <> [] -> Forall finite_float l -> Z.of_nat (length l) < 2 ^ 53 ->
  mean l = inr c -> is_nan c = false.
Proof.
  intros Hne Hall Hlen Hmean. rewrite (mean_nonempty l Hne) in Hmean.
  injection Hmean as <-.
  destruct (float_of_Z_finite (Z.of_nat (length l))) as (m & e & ->).
  { split; [|exact Hlen]. destruct l; [congruence|cbn [length]; lia]. }
  rewrite SFdiv_finite_not_nan. apply sum_not_nan. exact Hall.
Qed.

Lemma accepted_point_real (p : point) (polygon : list point) :
  _point_in_polygon p polygon = inr true -> real_point p.
Proof.
  intros Hin.
  destruct (point_in_polygon_examined p polygon Hin) as (q1 & q2 & _ & _ & Hex).
  unfold edge_examined, in_lon_range in Hex.
  apply andb_prop in Hex as [Hlon Hlat]. apply andb_prop in Hlon as [_ Hlon].
  split; [exact (proj1 (fle_not_nan _ _ Hlat))|exact (proj1 (fle_not_nan _ _ Hlon))].
Qed.

(** The sampler returns a point with two numbers as coordinates on
    every polygon with finite vertices. *)
Lemma returns_generate_point_real (bounds : list point) :
  bounds <> [] -> Forall finite_point bounds ->
  Z.of_nat (length bounds) < 2 ^ 53 ->
  returns (_generate_point_in_bounds bounds) real_point.
Proof.
  intros Hne Hfin Hlen w.
  assert (Hok : polygon_ok bounds).
  { split; [exact Hne|]. apply (Forall_impl _ _ _ Hfin).
    intros q [[H1 _] [H2 _]]. split; assumption. }
  destruct (returns_generate_point bounds Hok w) as (p & w' & Hrun & _).
  exists p, w'. split; [exact Hrun|].
  destruct (bounding_box_nonempty bounds Hne) as [bx Hbx].
  destruct (generate_point_cases bounds bx w w' p Hbx Hrun)
    as [Hretry|(_ & Hlat & Hlon)].
  - apply (accepted_point_real p bounds).
    eapply retry_loop_sound. exact Hretry.
  - split.
    + apply (mean_not_nan (map fst bounds));
        [destruct bounds; cbn; congruence| |rewrite length_map; exact Hlen|exact Hlat].
      apply Forall_map. apply (Forall_impl _ _ _ Hfin). intros q [H _]. exact H.
    + apply (mean_not_nan (map snd bounds));
        [destruct bounds; cbn; congruence| |rewrite length_map; exact Hlen|exact Hlon].
      apply Forall_map. apply (Forall_impl _ _ _ Hfin). intros q [_ H]. exact H.
Qed.

Lemma dropna_keeps_all (df : dataframe) :
  Forall (fun r => is_nan (latitude r) = false /\ is_nan (longitude r) = false)
         df ->
  dropna df = df.
Proof.
  intros Hall. unfold dropna.
  induction Hall as [|r df [H1 H2] _ IH]; [reflexivity|].
  cbn [List.filter]. rewrite H1, H2. cbn [negb andb]. f_equal. exact IH.
Qed.

(** X20.  From the generator to the map.  For a zone with finite
    vertices, fewer than [2^53] of them, every generated record has
    numbers as both coordinates: the map drops none of them and the
    counts of its buckets add up to the [n] records generated. *)
Theorem zone_records_are_all_mapped (n : Z) (zone_bounds : list point)
    (crime_types : option (list string)) (days_back : Z) (w : world) :
  usable zone_bounds crime_types days_back (utc w (utc_cursor w)) ->
  Forall finite_point zone_bounds ->
  Z.of_nat (length zone_bounds) < 2 ^ 53 ->
  exists df w',
    generate_random_records_in_zone n zone_bounds crime_types days_back w
      = (inr df, w') /\
    dropna df = df /\
    total_count (groupby_size (map bin df)) = Z.of_nat (Z.to_nat n).
Proof.
  intros Hok Hfin Hlen.
  destruct (generate_records_fields real_point n zone_bounds crime_types
              days_back w Hok
              (returns_generate_point_real _ (proj1 (proj1 Hok)) Hfin Hlen))
    as (df & w' & Hrun & Hall).
  exists df, w'. split; [exact Hrun|].
  assert (Hdrop : dropna df = df).
  { apply dropna_keeps_all. apply (Forall2_Forall_right _ _ _ _ Hall).
    intros i r (lat & lon & primary & description & t & ms & [Hlat Hlon] & _
                & _ & _ & _ & _ & _ & _ & _ & _ & _ & Hrlat & Hrlon & _).
    unfold latitude, longitude, coordinate. rewrite Hrlat, Hrlon.
    split; assumption. }
  split; [exact Hdrop|].
  rewrite <- Hdrop at 1. rewrite total_count_groupby, dropna_bins_notna.
  rewrite length_map, Hdrop. f_equal.
  rewrite <- (Forall2_length _ _ _ Hall). apply length_seq.
Qed.

Lemma zone_records_are_all_mapped_witness :
  exists df w',
    generate_random_records_in_zone 3 unit_square None 30 halves
      = (inr df, w') /\
    dropna df = df /\
    total_count (groupby_size (map bin df)) = Z.of_nat (Z.to_nat 3).
Proof.
  apply (zone_records_are_all_mapped 3 unit_square None 30 halves).
  - exact usable_unit_square.
  - exact unit_square_finite.
  - cbn. lia.
Defined.

(** ** The user registry and the administrator session *)

Section Registry.

Variable sha256_hex : string -> string.

Lemma load_users_run (f : Auth.users_file) :
  Auth.load_users sha256_hex f
  = (inr (registry sha256_hex f), loaded sha256_hex f).
Proof. destruct f; reflexivity. Qed.

Lemma registry_loaded (f : Auth.users_file) :
  registry sha256_hex (loaded sha256_hex f) = registry sha256_hex f.
Proof. destruct f; reflexivity. Qed.

Lemma loaded_loaded (f : Auth.users_file) :
  loaded sha256_hex (loaded sha256_hex f) = loaded sha256_hex f.
Proof. destruct f; reflexivity. Qed.

Lemma verify_user_run (username password : string) (f : Auth.users_file) :
  Auth.verify_user sha256_hex username password f
  = (inr match registry sha256_hex f !! username with
         | None => false
         | Some e =>
             Auth.eq_str (e !! "password_hash")
               (Auth._hash_password sha256_hex password)
         end,
     loaded sha256_hex f).
Proof.
  unfold Auth.verify_user, bind. rewrite load_users_run.
  destruct (registry sha256_hex f !! username); reflexivity.
Qed.

Lemma is_admin_run (username : string) (f : Auth.users_file) :
  Auth.is_admin sha256_hex username f
  = (inr (Auth.truthy
            (default (Auth.JBool false)
               (default ∅ (registry sha256_hex f !! username) !! "is_admin"))),
     loaded sha256_hex f).
Proof. unfold Auth.is_admin, bind. rewrite load_users_run. reflexivity. Qed.

Lemma create_user_run (username password : string) (is_admin : bool)
    (f : Auth.users_file) :
  Auth.create_user sha256_hex username password is_admin f
  = match registry sha256_hex f !! username with
    | Some _ => (inr false, loaded sha256_hex f)
    | None =>
        (inr true,
         Auth.Stored (<[username := new_entry sha256_hex password is_admin]>
                        (registry sha256_hex f)))
    end.
Proof.
  unfold Auth.create_user, bind. rewrite load_users_run.
  destruct (registry sha256_hex f !! username); reflexivity.
Qed.

Lemma new_entry_hash (password : string) (is_admin : bool) :
  new_entry sha256_hex password is_admin !! "password_hash"
  = Some (Auth.JStr (Auth._hash_password sha256_hex password)).
Proof. unfold new_entry. apply lookup_insert_eq. Qed.

Lemma new_entry_role (password : string) (is_admin : bool) :
  new_entry sha256_hex password is_admin !! "is_admin"
  = Some (Auth.JBool is_admin).
Proof.
  unfold new_entry. rewrite lookup_insert_ne by discriminate.
  apply lookup_insert_eq.
Qed.

End Registry.

(** X21.  After [create_user] has returned [True], [verify_user]
    accepts the user with that password, accepts another password only
    when its hash is the same, and [is_admin] returns the role that was
    given. *)
Theorem created_user_verifies_with_its_password
    (sha256_hex : string -> string) (username password : string)
    (is_admin : bool) (f f' : Auth.users_file) :
  Auth.create_user sha256_hex username password is_admin f = (inr true, f') ->
  Auth.verify_user sha256_hex username password f' = (inr true, f') /\
  (forall other,
     Auth.verify_user sha256_hex username other f'
     = (inr (String.eqb (sha256_hex password) (sha256_hex other)), f')) /\
  Auth.is_admin sha256_hex username f' = (inr is_admin, f').
Proof.
  rewrite create_user_run.
  destruct (registry sha256_hex f !! username); [discriminate|].
  intros [= <-].
  assert (Hv : forall other,
             Auth.verify_user sha256_hex username other
               (Auth.Stored (<[username := new_entry sha256_hex password is_admin]>
                               (registry sha256_hex f)))
             = (inr (String.eqb (sha256_hex password) (sha256_hex other)),
                Auth.Stored (<[username := new_entry sha256_hex password is_admin]>
                               (registry sha256_hex f)))).
  { intros other. rewrite verify_user_run. cbn [registry loaded].
    rewrite lookup_insert_eq, new_entry_hash. reflexivity. }
  split; [|split].
  - rewrite Hv, String.eqb_refl. reflexivity.
  - exact Hv.
  - rewrite is_admin_run. cbn [registry loaded].
    rewrite lookup_insert_eq. cbn [default from_option id].
    unfold id. rewrite new_entry_role. reflexivity.
Qed.

Lemma created_user_verifies_with_its_password_witness :
  Auth.verify_user (fun s => s) "ana" "secret"
    (Auth.Stored {[ "ana" := new_entry (fun s => s) "secret" false ]})
  = (inr true, Auth.Stored {[ "ana" := new_entry (fun s => s) "secret" false ]})
  /\
  (forall other,
     Auth.verify_user (fun s => s) "ana" other
       (Auth.Stored {[ "ana" := new_entry (fun s => s) "secret" false ]})
     = (inr (String.eqb "secret" other),
        Auth.Stored {[ "ana" := new_entry (fun s => s) "secret" false ]})) /\
  Auth.is_admin (fun s => s) "ana"
    (Auth.Stored {[ "ana" := new_entry (fun s => s) "secret" false ]})
  = (inr false, Auth.Stored {[ "ana" := new_entry (fun s => s) "secret" false ]}).
Proof.
  apply (created_user_verifies_with_its_password (fun s => s) "ana" "secret"
           false Auth.Unreadable).
  reflexivity.
Defined.

(** X22.  [create_user] on a name the registry already holds returns
    [False] and leaves the file as it is: the password and the role of
    an existing user cannot be overwritten. *)
Theorem existing_user_is_never_overwritten
    (sha256_hex : string -> string) (username password : string)
    (is_admin : bool) (u : Auth.users) :
  is_Some (u !! username) ->
  Auth.create_user sha256_hex username password is_admin (Auth.Stored u)
  = (inr false, Auth.Stored u).
Proof.
  intros [e He]. rewrite create_user_run. cbn [registry loaded].
  rewrite He. reflexivity.
Qed.

Lemma existing_user_is_never_overwritten_witness :
  Auth.create_user (fun s => s) "ana" "other" true
    (Auth.Stored {[ "ana" := new_entry (fun s => s) "secret" false ]})
  = (inr false, Auth.Stored {[ "ana" := new_entry (fun s => s) "secret" false ]}).
Proof.
  apply (existing_user_is_never_overwritten (fun s => s) "ana" "other" true).
  eexists. apply lookup_singleton_eq.
Defined.

(** X23.  When [users.json] is missing, the first load writes a
    registry with the single user [admin]: from then on [admin]
    verifies with the password [admin123] and is an administrator, the
    name [admin] cannot be created, and no other name verifies. *)
Theorem missing_file_gives_default_administrator
    (sha256_hex : string -> string) :
  let f := Auth.Stored (Auth.default_users sha256_hex) in
  Auth.load_users sha256_hex Auth.Missing
    = (inr (Auth.default_users sha256_hex), f) /\
  Auth.verify_user sha256_hex "admin" "admin123" Auth.Missing = (inr true, f) /\
  Auth.is_admin sha256_hex "admin" Auth.Missing = (inr true, f) /\
  (forall password is_admin,
     Auth.create_user sha256_hex "admin" password is_admin Auth.Missing
     = (inr false, f)) /\
  (forall username password,
     username <> "admin" ->
     Auth.verify_user sha256_hex username password Auth.Missing
     = (inr false, f)).
Proof.
  intros f. split; [reflexivity|].
  assert (Hdef : Auth.default_users sha256_hex
                 = {[ "admin" := new_entry sha256_hex "admin123" true ]})
    by reflexivity.
  split; [|split; [|split]].
  - rewrite verify_user_run. cbn [registry loaded]. rewrite Hdef.
    rewrite lookup_singleton_eq, new_entry_hash. cbn [Auth.eq_str].
    rewrite String.eqb_refl. reflexivity.
  - rewrite is_admin_run. cbn [registry loaded]. rewrite Hdef.
    rewrite lookup_singleton_eq. cbn [default from_option id]. unfold id.
    rewrite new_entry_role. reflexivity.
  - intros password is_admin. rewrite create_user_run. cbn [registry loaded].
    rewrite Hdef, lookup_singleton_eq. reflexivity.
  - intros username password Hne. rewrite verify_user_run. cbn [registry loaded].
    rewrite Hdef, lookup_singleton_ne by congruence. reflexivity.
Qed.

(** X24.  When [users.json] cannot be loaded, nobody verifies and
    nobody is an administrator; [create_user] then succeeds and
    replaces the file by a registry that holds the new user alone. *)
Theorem unreadable_file_is_replaced
    (sha256_hex : string -> string) (username password : string)
    (is_admin : bool) :
  Auth.verify_user sha256_hex username password Auth.Unreadable
    = (inr false, Auth.Unreadable) /\
  Auth.is_admin sha256_hex username Auth.Unreadable
    = (inr false, Auth.Unreadable) /\
  Auth.create_user sha256_hex username password is_admin Auth.Unreadable
    = (inr true,
       Auth.Stored {[ username := new_entry sha256_hex password is_admin ]}).
Proof.
  split; [|split].
  - rewrite verify_user_run. cbn [registry loaded]. rewrite lookup_empty.
    reflexivity.
  - rewrite is_admin_run. cbn [registry loaded]. rewrite lookup_empty.
    reflexivity.
  - rewrite create_user_run. cbn [registry loaded]. rewrite lookup_empty.
    rewrite insert_empty. reflexivity.
Qed.

(** X25.  [create_user] changes nothing about the other users:
    whether it succeeds or not, [verify_user] and [is_admin] answer for
    every other name as they did before. *)
Theorem create_user_leaves_other_users
    (sha256_hex : string -> string) (username password : string)
    (is_admin : bool) (f f' : Auth.users_file) (b : bool)
    (other secret : string) :
  Auth.create_user sha256_hex username password is_admin f = (inr b, f') ->
  other <> username ->
  fst (Auth.verify_user sha256_hex other secret f')
    = fst (Auth.verify_user sha256_hex other secret f) /\
  fst (Auth.is_admin sha256_hex other f')
    = fst (Auth.is_admin sha256_hex other f).
Proof.
  rewrite create_user_run. intros Hrun Hne.
  rewrite !verify_user_run, !is_admin_run. cbn [fst].
  destruct (registry sha256_hex f !! username).
  - injection Hrun as _ <-. rewrite registry_loaded. split; reflexivity.
  - injection Hrun as _ <-. cbn [registry].
    rewrite lookup_insert_ne by congruence. split; reflexivity.
Qed.

Lemma create_user_leaves_other_users_witness :
  fst (Auth.verify_user (fun s => s) "admin" "admin123"
         (Auth.Stored (<[ "ana" := new_entry (fun s => s) "secret" false ]>
                         (Auth.default_users (fun s => s)))))
    = fst (Auth.verify_user (fun s => s) "admin" "admin123" Auth.Missing) /\
  fst (Auth.is_admin (fun s => s) "admin"
         (Auth.Stored (<[ "ana" := new_entry (fun s => s) "secret" false ]>
                         (Auth.default_users (fun s => s)))))
    = fst (Auth.is_admin (fun s => s) "admin" Auth.Missing).
Proof.
  apply (create_user_leaves_other_users (fun s => s) "ana" "secret" false
           Auth.Missing _ true).
  - reflexivity.
  - discriminate.
Defined.

Lemma on_file_run {A} (m : M Auth.users_file A) (s : Auth.state) :
  Auth.on_file m s
  = (fst (m (Auth.users_json s)),
     Auth.State (snd (m (Auth.users_json s))) (Auth.session_state s)).
Proof. unfold Auth.on_file. destruct (m (Auth.users_json s)); reflexivity. Qed.

(** X27.  After [admin_logout] no administrator is recorded in the
    session, [admin_login_ui] without a press of the button returns
    [False], and the users file is untouched. *)
Theorem logout_ends_the_administrator_session
    (sha256_hex : string -> string) (username password : string)
    (s : Auth.state) :
  let s1 := snd (Auth.admin_logout s) in
  fst (Auth.current_admin s1) = inr None /\
  fst (Auth.admin_login_ui sha256_hex username password false s1) = inr false /\
  Auth.users_json s1 = Auth.users_json s.
Proof.
  destruct s as [f [[flag|] [user|]]]; cbn; repeat split; reflexivity.
Qed.

(** X26.  On a users file that is absent, cannot be loaded or holds a
    registry (an object of user objects), [admin_login_ui] returns
    [True] exactly when the session already is an administrator's, or
    the button was pressed with the name of a listed user, the
    password whose hash is stored for it, and an [is_admin] entry that
    counts as true.  The session's flag afterwards is the value
    returned, and a fresh login records the user name.  When the
    session already is an administrator's or the button was not
    pressed the file is left as it is. *)
Theorem admin_login_grants_only_administrators
    (sha256_hex : string -> string) (username password : string)
    (clicked : bool) (s : Auth.state) :
  let already := default false (Auth.ss_is_admin (Auth.session_state s)) in
  let granted :=
    already
    || (clicked
        && administrator sha256_hex username password (Auth.users_json s)) in
  exists s',
    Auth.admin_login_ui sha256_hex username password clicked s
      = (inr granted, s') /\
    Auth.ss_is_admin (Auth.session_state s') = Some granted /\
    (already = false -> granted = true ->
     fst (Auth.current_admin s') = inr (Some username)) /\
    (already = true \/ clicked = false ->
     Auth.users_json s' = Auth.users_json s).
Proof.
  intros already granted. subst already granted.
  destruct s as [f ss].
  cbn [Auth.session_state Auth.users_json].
  unfold Auth.admin_login_ui. cbn [Auth.session_state Auth.users_json].
  destruct ss as [[[|]|] user];
    cbn [Auth.ss_is_admin Auth.ss_admin_user default from_option id orb];
    unfold id;
    try (eexists; split; [reflexivity|]; split; [reflexivity|];
         split; [intros; discriminate|reflexivity]).
  all: destruct clicked; cbn [andb];
    try (eexists; split; [reflexivity|]; split; [reflexivity|];
         split; [intros; discriminate|reflexivity]).
  all: unfold administrator, bind, Auth.on_file;
    cbn [Auth.session_state Auth.users_json];
    rewrite verify_user_run; cbn [fst snd].
  all: destruct (registry sha256_hex f !! username) as [e|] eqn:He.
  all: try (unfold ret; eexists; (split; [reflexivity|]);
            (split; [reflexivity|]);
            split; [intros; discriminate|intros [|]; discriminate]).
  all: unfold Auth.eq_str, Auth._hash_password.
  all: destruct (e !! "password_hash") as [[| | |h]|] eqn:Hh.
  all: try (unfold ret; eexists; (split; [reflexivity|]);
            (split; [reflexivity|]);
            split; [intros; discriminate|intros [|]; discriminate]).
  all: destruct (String.eqb h (sha256_hex password));
    [ cbn [Auth.users_json Auth.session_state];
      rewrite !is_admin_run, registry_loaded, He; cbn [fst snd];
      cbn [default from_option]; unfold id;
      destruct (e !! "is_admin") as [v|]; cbn [default from_option andb];
      unfold id; [destruct (Auth.truthy v)|]
    | destruct (e !! "is_admin") ];
    unfold ret; eexists; (split; [reflexivity|]); (split; [reflexivity|]);
    (split; [intros; try discriminate; reflexivity
            |intros [|]; discriminate]).
Qed.

(** ** The administrator's panel *)

Lemma steady_ret {A} (a : A) : steady (ret a).
Proof. intros w. repeat split. Qed.

Lemma steady_raise {A} (e : exn) : steady (raise e : M world A).
Proof. intros w. repeat split. Qed.

Lemma steady_lift {A} (r : result A) : steady (lift r).
Proof. intros w. repeat split. Qed.

Lemma steady_bind {A B} (m : M world A) (k : A -> M world B) :
  steady m -> (forall a, steady (k a)) -> steady (bind m k).
Proof.
  intros Hm Hk w. unfold bind. specialize (Hm w).
  destruct (m w) as [[e|a] w1]; cbn [snd] in *; [exact Hm|].
  destruct Hm as (H1 & H2 & H3). destruct (Hk a w1) as (K1 & K2 & K3).
  repeat split; congruence.
Qed.

Lemma steady_next_raw : steady next_raw.
Proof. intros w. repeat split. Qed.

Lemma steady_utcnow : steady datetime_utcnow.
Proof. intros w. repeat split. Qed.

Lemma steady_time_millis : steady time_millis.
Proof. intros w. repeat split. Qed.

Lemma steady_random : steady random_random.
Proof.
  apply steady_bind; [apply steady_next_raw|]. intros k. apply steady_ret.
Qed.

Lemma steady_uniform (a b : float) : steady (random_uniform a b).
Proof.
  apply steady_bind; [apply steady_random|]. intros r. apply steady_ret.
Qed.

Lemma steady_randint (a b : Z) : steady (random_randint a b).
Proof.
  unfold random_randint. destruct (b <? a); [apply steady_raise|].
  apply steady_bind; [apply steady_next_raw|]. intros k. apply steady_ret.
Qed.

Lemma steady_choice {A} (l : list A) : steady (random_choice l).
Proof.
  destruct l as [|x l]; [apply steady_raise|].
  apply steady_bind; [apply steady_next_raw|]. intros k. apply steady_ret.
Qed.

Create HintDb steady.
#[local] Hint Resolve steady_ret steady_raise steady_lift steady_next_raw
  steady_utcnow steady_time_millis steady_random steady_uniform
  steady_randint steady_choice : steady.

Ltac steady_chain :=
  repeat (apply steady_bind; [solve [auto with steady]|intros ?]);
  auto with steady.

Lemma steady_retry_loop (k : nat) (a b c d : float) (bounds : list point) :
  steady (retry_loop k a b c d bounds).
Proof.
  induction k as [|k IH]; cbn [retry_loop]; [apply steady_ret|].
  apply steady_bind; [apply steady_uniform|]. intros lat.
  apply steady_bind; [apply steady_uniform|]. intros lon.
  apply steady_bind; [apply steady_lift|]. intros hit.
  destruct hit; [apply steady_ret|exact IH].
Qed.

Lemma steady_generate_point (bounds : list point) :
  steady (_generate_point_in_bounds bounds).
Proof.
  unfold _generate_point_in_bounds.
  repeat (apply steady_bind; [solve [auto with steady]|intros ?]).
  apply steady_bind; [apply steady_retry_loop|]. intros [p|]; steady_chain.
Qed.

Lemma steady_generate_row (now : Z) (zone_bounds : list point)
    (crime_types : list string) (days_back i : Z) :
  steady (generate_row now zone_bounds crime_types days_back i).
Proof.
  unfold generate_row.
  apply steady_bind; [apply steady_generate_point|]. intros pt.
  steady_chain.
Qed.

Lemma steady_generate_rows (now : Z) (zone_bounds : list point)
    (crime_types : list string) (days_back : Z) (idxs : list nat) :
  steady (generate_rows now zone_bounds crime_types days_back idxs).
Proof.
  induction idxs as [|i idxs IH]; cbn [generate_rows]; [apply steady_ret|].
  apply steady_bind; [apply steady_generate_row|]. intros row.
  apply steady_bind; [exact IH|]. intros rows. apply steady_ret.
Qed.

Lemma steady_generate_records (n : Z) (zone_bounds : list point)
    (crime_types : option (list string)) (days_back : Z) :
  steady (generate_random_records_in_zone n zone_bounds crime_types days_back).
Proof.
  unfold generate_random_records_in_zone.
  apply steady_bind; [apply steady_utcnow|]. intros now.
  apply steady_bind; [apply steady_generate_rows|]. intros rows.
  apply steady_ret.
Qed.

Lemma to_dict_records_lookup (df : dataframe) : forall start k,
  (k < length df)%nat ->
  (list_to_map (zip (seq start (length df)) df) : gmap ref record)
    !! (start + k)%nat = df !! k.
Proof.
  induction df as [|r df IH]; intros start k Hk; [cbn in Hk; lia|].
  cbn [length seq zip zip_with list_to_map foldr fst snd].
  destruct k as [|k].
  - rewrite Nat.add_0_r. apply lookup_insert_eq.
  - rewrite lookup_insert_ne by lia.
    replace (start + S k)%nat with (S start + k)%nat by lia.
    apply IH. cbn [length] in Hk. lia.
Qed.

Lemma to_dict_records_present (df : dataframe) :
  Forall (fun l => is_Some (snd (to_dict_records df) !! l))
         (fst (to_dict_records df)).
Proof.
  unfold to_dict_records. cbn [fst snd]. rewrite Forall_forall. intros l Hl.
  apply list_elem_of_In, in_seq in Hl.
  pose proof (to_dict_records_lookup df 0 l ltac:(lia)) as Hlook.
  cbn [Nat.add] in Hlook. unfold ref in *. rewrite Hlook.
  apply lookup_lt_is_Some_2. lia.
Qed.

Lemma zones_ok (name : string) (zone : list point * point) :
  In (name, zone) Main.AREQUIPA_ZONES -> polygon_ok (fst zone).
Proof.
  intros [H|[H|[]]]; injection H as _ <-; cbn [fst];
    (split; [discriminate|]); repeat constructor.
Qed.

Lemma selection_usable (crime_types : list string) :
  match crime_types with [] => None | _ => Some crime_types end <> Some [].
Proof. destruct crime_types; discriminate. Qed.

Lemma stamped_tuple_ext (mode : db_mode) (w w' : world) (row : list value) :
  utc w' = utc w -> stamped_tuple mode w' row -> stamped_tuple mode w row.
Proof. intros Hw (i & t & H). exists i, t. rewrite <- Hw. exact H. Qed.

(** ** The button, against a database *)

(** What pressing the button does on arguments the generator can use. *)
Lemma generate_in_zone_run (b : backend) (mode : db_mode) (inject_count : Z)
    (zone_bounds : list point) (crime_types : list string)
    (w : world) (ss : Session.session) :
  let now := utc w (utc_cursor w) in
  let n := Z.to_nat inject_count in
  polygon_ok zone_bounds ->
  timedelta 30 23 59 0 <= now <= datetime_max ->
  exists df w1 sent s',
    generate_random_records_in_zone inject_count zone_bounds
      match crime_types with [] => None | _ => Some crime_types end 30 w
      = (inr df, w1) /\
    length df = n /\
    Forall (frame_dated (now - timedelta 30 23 59 0) now) df /\
    insert_crimes mode (fst (to_dict_records df))
      (State w1 (snd (to_dict_records df))) = (inr sent, s') /\
    length sent = n /\
    Main.generate_in_zone b mode inject_count zone_bounds crime_types (w, ss)
      = ((button_notice b n,
          match b, n with Down, S _ => [] | _, _ => sent end),
         (the_world s', Session.add_records_to_session df true ss)).
Proof.
  intros now n Hok Hnow.
  destruct (generate_records_spec inject_count zone_bounds
              match crime_types with [] => None | _ => Some crime_types end
              30 w Hok (selection_usable crime_types) ltac:(lia) Hnow)
    as (df & w1 & Hgen & Hlen & Hdated).
  destruct (insert_crimes_run mode (fst (to_dict_records df))
              (State w1 (snd (to_dict_records df)))) as (s' & _ & Hins).
  exists df, w1. eexists. exists s'.
  split; [exact Hgen|]. split; [exact Hlen|]. split; [exact Hdated|].
  split; [exact Hins|].
  split.
  { rewrite length_map. unfold to_dict_records. cbn [fst].
    rewrite length_seq. exact Hlen. }
  unfold Main.generate_in_zone, Session.generate_random_records_in_zone.
  cbn [fst snd]. rewrite Hgen. cbn [fst snd].
  rewrite (insert_crimes_into_run b mode _ _ _ _ Hins).
  unfold to_dict_records. cbn [fst snd]. rewrite length_seq, Hlen. fold n.
  destruct b, n; reflexivity.
Qed.

(** X28.  For each zone of [AREQUIPA_ZONES], every number of records
    and every selection of categories, the empty one included, when
    the clock reads at least 30 d 23 h 59 min after [datetime.min] the
    generator does not fail and the outcome of the button is that of
    the database.  When the database takes the batch, the notice
    reports [inject_count] records and as many tuples are stored; when
    connecting or executing raises, the notice is the error and nothing
    is stored, unless the batch is empty, which never reaches the
    database.  Either way the generated rows are added to the
    session. *)
Theorem generate_button_reports_the_database (b : backend) (mode : db_mode)
    (inject_count : Z) (name : string) (zone : list point * point)
    (crime_types : list string) (w : world) (ss : Session.session) :
  let n := Z.to_nat inject_count in
  In (name, zone) Main.AREQUIPA_ZONES ->
  timedelta 30 23 59 0 <= utc w (utc_cursor w) <= datetime_max ->
  exists sent w' ss',
    Main.generate_in_zone b mode inject_count (fst zone) crime_types (w, ss)
      = ((button_notice b n, sent), (w', ss')) /\
    length sent = stored_count b n /\
    length (Session.get_arequipa_records ss')
      = (n + length (Session.get_arequipa_records ss))%nat.
Proof.
  intros n Hzone Hnow.
  destruct (generate_in_zone_run b mode inject_count (fst zone) crime_types
              w ss (zones_ok name zone Hzone) Hnow)
    as (df & w1 & sent & s' & _ & Hlen & _ & _ & Hsent & Hrun).
  cbv zeta in Hlen, Hsent, Hrun. fold n in Hlen, Hsent, Hrun.
  eexists. exists (the_world s'), (Session.add_records_to_session df true ss).
  split; [exact Hrun|]. split.
  - destruct b; cbn [stored_count].
    + destruct n; exact Hsent.
    + destruct n; [exact Hsent|reflexivity].
  - destruct ss as [[a|] c]; cbn; rewrite length_app, ?Hlen; cbn; lia.
Qed.

(** Ten records for Yanahuara against a database that is down: the
    notice is the error, nothing is stored, and the session holds the
    ten rows. *)
Lemma generate_button_reports_the_database_witness :
  exists sent w' ss',
    Main.generate_in_zone Down Sqlite 10 (fst yanahuara) ["ROBO"]
      (halves, Session.Session_state None None)
      = ((Main.Error DatabaseError, sent), (w', ss')) /\
    length sent = 0%nat /\
    length (Session.get_arequipa_records ss') = 10%nat.
Proof.
  apply (generate_button_reports_the_database Down Sqlite 10 "Yanahuara"
           yanahuara ["ROBO"] halves (Session.Session_state None None)).
  - right. left. reflexivity.
  - vm_compute. split; discriminate.
Defined.

(** X29.  What the button stores is not dated as what it keeps: the
    tuples that reach the database carry dates between 1 h and
    1 h 59 min 59 s before a reading of the clock, while the rows put
    in the session keep the generated dates, up to 30 d 23 h 59 min
    before the generation time. *)
Theorem generate_button_stores_other_dates (mode : db_mode)
    (inject_count : Z) (name : string) (zone : list point * point)
    (crime_types : list string) (w : world) (ss : Session.session) :
  let now := utc w (utc_cursor w) in
  In (name, zone) Main.AREQUIPA_ZONES ->
  clock_ok w ->
  timedelta 30 23 59 0 <= now ->
  exists sent w' ss' df,
    Main.generate_in_zone Up mode inject_count (fst zone) crime_types (w, ss)
      = ((Main.Success (Z.to_nat inject_count), sent), (w', ss')) /\
    length sent = Z.to_nat inject_count /\
    Forall (stamped_tuple mode w) sent /\
    Session.get_arequipa_records ss'
      = (df ++ Session.get_arequipa_records ss)%list /\
    length df = Z.to_nat inject_count /\
    Forall (frame_dated (now - timedelta 30 23 59 0) now) df.
Proof.
  intros now Hzone Hclock Hnow.
  assert (Hnow' : timedelta 30 23 59 0 <= now <= datetime_max).
  { split; [exact Hnow|]. apply (Hclock (utc_cursor w)). }
  destruct (generate_in_zone_run Up mode inject_count (fst zone) crime_types
              w ss (zones_ok name zone Hzone) Hnow')
    as (df & w1 & sent & s' & Hgen & Hlen & Hdated & Hins & Hsent & Hrun).
  cbv zeta in Hlen, Hsent, Hrun.
  exists sent, (the_world s'), (Session.add_records_to_session df true ss), df.
  split.
  { rewrite Hrun. destruct (Z.to_nat inject_count); reflexivity. }
  split; [exact Hsent|].
  split; [|split; [|split; [exact Hlen|exact Hdated]]].
  - pose proof (steady_generate_records inject_count (fst zone)
                  match crime_types with [] => None | _ => Some crime_types end
                  30 w) as (Hutc & _ & _).
    rewrite Hgen in Hutc. cbn [snd] in Hutc.
    assert (Hclock1 : clock_ok w1) by (intros i; rewrite Hutc; apply Hclock).
    destruct (insert_crimes_stamped_tuples mode
                (fst (to_dict_records df))
                (State w1 (snd (to_dict_records df))) Hclock1
                (to_dict_records_present df))
      as (rows & s2 & Hins2 & Hrows).
    rewrite Hins in Hins2. injection Hins2 as <- <-.
    apply (Forall_impl _ _ _ Hrows). intros row.
    apply stamped_tuple_ext. exact Hutc.
  - destruct ss as [[a|] c]; reflexivity.
Qed.

Lemma generate_button_stores_other_dates_witness :
  exists sent w' ss' df,
    Main.generate_in_zone Up Sqlite 10 (fst yanahuara) ["ROBO"]
      (halves, Session.Session_state None None)
      = ((Main.Success (Z.to_nat 10), sent), (w', ss')) /\
    length sent = Z.to_nat 10 /\
    Forall (stamped_tuple Sqlite halves) sent /\
    Session.get_arequipa_records ss'
      = (df ++ Session.get_arequipa_records
                 (Session.Session_state None None))%list /\
    length df = Z.to_nat 10 /\
    Forall (frame_dated (utc halves 0 - timedelta 30 23 59 0) (utc halves 0)) df.
Proof.
  apply (generate_button_stores_other_dates Sqlite 10 "Yanahuara"
           yanahuara ["ROBO"] halves (Session.Session_state None None)).
  - right. left. reflexivity.
  - exact clock_ok_halves.
  - vm_compute. discriminate.
Defined.

(** X30.  The height of the data table is 32 pixels a row plus 140,
    clamped between 400 and 1200: it is 400 up to 8 rows and 1200 from
    34 rows on. *)
Theorem table_height_is_clamped (rows_count : Z) :
  400 <= Main.desired_height rows_count <= 1200 /\
  (rows_count <= 8 -> Main.desired_height rows_count = 400) /\
  (9 <= rows_count <= 33 ->
   Main.desired_height rows_count = 32 * rows_count + 140) /\
  (34 <= rows_count -> Main.desired_height rows_count = 1200).
Proof. unfold Main.desired_height. cbv zeta. lia. Qed.
